(** * Extraction engine of the CADE pipeline: a shallow embedding

    The development follows [src/data_processing/extractor.py] and
    [src/data_processing/inference.py].  Python values are modelled by the
    inductive type [value]; Python [str] objects holding document text are
    sequences of Unicode code points; Python floats are IEEE-754 binary64
    numbers in the executable specification [spec_float] of the standard
    library; the regular expressions of the source are kept as the literal
    pattern strings and compiled by [re_compile] to a small syntax tree that
    a backtracking matcher interprets with the priorities of Python's [re]. *)

From Stdlib Require Import ZArith NArith List Ascii String Bool Lia.
From Stdlib Require Import Floats.SpecFloat.
From stdpp Require Import base option list strings gmap.

Local Open Scope N_scope.

(** ** Code points and text *)

(** A Python [str] is a sequence of code points. *)
Abbreviation str := (list N).

Definition ch (a : ascii) : N := N_of_ascii a.

Fixpoint bytes_of_string (s : string) : list N :=
  match s with
  | EmptyString => []
  | String a s' => N_of_ascii a :: bytes_of_string s'
  end.

(** String literals of this file are UTF-8 encoded, as the source file is;
    [utf8_go] decodes them to code points. *)
Fixpoint utf8_go (bs : list N) (need : nat) (acc : N) : str :=
  match bs with
  | [] => []
  | b :: bs' =>
      match need with
      | O =>
          if b <? 128 then b :: utf8_go bs' 0 0
          else if b <? 224 then utf8_go bs' 1 (N.land b 31)
          else if b <? 240 then utf8_go bs' 2 (N.land b 15)
          else utf8_go bs' 3 (N.land b 7)
      | S k =>
          let acc' := acc * 64 + N.land b 63 in
          match k with
          | O => acc' :: utf8_go bs' 0 0
          | S _ => utf8_go bs' k acc'
          end
      end
  end.

Definition u (s : string) : str := utf8_go (bytes_of_string s) 0 0.

(** [str.isspace] on one code point, which is also what [\s] matches in a
    [str] pattern. *)
Definition py_isspace (c : N) : bool :=
  ((9 <=? c) && (c <=? 13)) || ((28 <=? c) && (c <=? 32))
  || (c =? 133) || (c =? 160) || (c =? 5760)
  || ((8192 <=? c) && (c <=? 8202))
  || (c =? 8232) || (c =? 8233) || (c =? 8239) || (c =? 8287) || (c =? 12288).

(** First code point of every run of ten decimal digits (Unicode general
    category Nd); the digit of value [d] of a run starting at [z] is [z + d]. *)
Definition nd_zeros : list N :=
  [ 0x30; 0x660; 0x6f0; 0x7c0; 0x966; 0x9e6; 0xa66; 0xae6; 0xb66; 0xbe6;
    0xc66; 0xce6; 0xd66; 0xde6; 0xe50; 0xed0; 0xf20; 0x1040; 0x1090; 0x17e0;
    0x1810; 0x1946; 0x19d0; 0x1a80; 0x1a90; 0x1b50; 0x1bb0; 0x1c40; 0x1c50;
    0xa620; 0xa8d0; 0xa900; 0xa9d0; 0xa9f0; 0xaa50; 0xabf0; 0xff10; 0x104a0;
    0x10d30; 0x11066; 0x110f0; 0x11136; 0x111d0; 0x112f0; 0x11450; 0x114d0;
    0x11650; 0x116c0; 0x11730; 0x118e0; 0x11950; 0x11c50; 0x11d50; 0x11da0;
    0x16a60; 0x16ac0; 0x16b50; 0x1d7ce; 0x1d7d8; 0x1d7e2; 0x1d7ec; 0x1d7f6;
    0x1e140; 0x1e2f0; 0x1e950; 0x1fbf0 ].

Fixpoint digit_in (zs : list N) (c : N) : option N :=
  match zs with
  | [] => None
  | z :: zs' => if (z <=? c) && (c <? z + 10) then Some (c - z) else digit_in zs' c
  end.

(** Decimal value of a code point, for the digits [\d] matches and that
    [int] and [float] accept. *)
Definition py_decimal (c : N) : option N := digit_in nd_zeros c.

Definition py_isdecimal (c : N) : bool :=
  match py_decimal c with Some _ => true | None => false end.

(** [str.lower] on one code point.  The table covers Basic Latin and Latin-1
    and the four code points elsewhere whose lower case lies there; the
    remaining cased letters belong to other scripts before and after
    lower-casing, so no literal, [\s] or [\d] of a pattern tells the
    difference. *)
Definition lower_cp (c : N) : str :=
  if (65 <=? c) && (c <=? 90) then [c + 32]
  else if (192 <=? c) && (c <=? 222) && negb (c =? 215) then [c + 32]
  else if c =? 304 then [105; 775]
  else if c =? 376 then [255]
  else if c =? 7838 then [223]
  else if c =? 8490 then [107]
  else if c =? 8491 then [229]
  else [c].

Definition lower (s : str) : str := flat_map lower_cp s.

(** ** Regular expressions *)

Inductive cset : Type :=
| CsChar (c : N)
| CsDigit
| CsSpace.

Inductive re : Type :=
| REps
| RFail
| RChar (c : N)
| RSet (cs : list cset)
| RSeq (a b : re)
| RAlt (a b : re)
| RStar (a : re)
| RPlus (a : re)
| ROpt (a : re)
| RGroup (i : nat) (a : re).

Definition cset_mem (c : N) (x : cset) : bool :=
  match x with
  | CsChar d => c =? d
  | CsDigit => py_isdecimal c
  | CsSpace => py_isspace c
  end.

(** *** Compiling a pattern string *)

Definition is_meta (c : N) : bool :=
  existsb (N.eqb c) (u ".^$*+?{}[]|()\").

Definition is_ascii_alnum (c : N) : bool :=
  ((48 <=? c) && (c <=? 57)) || ((65 <=? c) && (c <=? 90))
  || ((97 <=? c) && (c <=? 122)).

Definition parse_escape (c : N) : option cset :=
  if c =? ch "s" then Some CsSpace
  else if c =? ch "d" then Some CsDigit
  else if is_ascii_alnum c then None
  else Some (CsChar c).

(** Items of a bracketed class up to the closing bracket; ranges are not
    used by the source and are refused. *)
Fixpoint parse_class (s : str) (first : bool) : option (list cset * str) :=
  match s with
  | [] => None
  | c :: s1 =>
      if (c =? ch "]") && negb first then Some ([], s1)
      else if c =? ch "\" then
        match s1 with
        | e :: s2 =>
            x ← parse_escape e;
            '(xs, s3) ← parse_class s2 false;
            Some (x :: xs, s3)
        | [] => None
        end
      else if (c =? ch "-") && negb first
              && negb (match s1 with d :: _ => d =? ch "]" | [] => true end)
      then None
      else '(xs, s2) ← parse_class s1 false; Some (CsChar c :: xs, s2)
  end.

Definition parse_quant (a : re) (s : str) : re * str :=
  match s with
  | c :: s1 =>
      if c =? ch "+" then (RPlus a, s1)
      else if c =? ch "*" then (RStar a, s1)
      else if c =? ch "?" then (ROpt a, s1)
      else (a, s)
  | [] => (a, s)
  end.

Definition starts_with (p s : str) : option str :=
  if decide (take (length p) s = p) then Some (drop (length p) s) else None.

(** Recursive descent; [n] counts the capturing groups opened so far. *)
Fixpoint parse_alt (fuel : nat) (s : str) (n : nat) : option (re * str * nat) :=
  match fuel with
  | O => None
  | S f =>
      '(r1, s1, n1) ← parse_seq f s n;
      match s1 with
      | c :: s2 =>
          if c =? ch "|" then
            '(r2, s3, n2) ← parse_alt f s2 n1; Some (RAlt r1 r2, s3, n2)
          else Some (r1, s1, n1)
      | [] => Some (r1, s1, n1)
      end
  end
with parse_seq (fuel : nat) (s : str) (n : nat) : option (re * str * nat) :=
  match fuel with
  | O => None
  | S f =>
      match s with
      | [] => Some (REps, s, n)
      | c :: _ =>
          if (c =? ch "|") || (c =? ch ")") then Some (REps, s, n)
          else
            '(a, s1, n1) ← parse_atom f s n;
            let '(a', s2) := parse_quant a s1 in
            '(r, s3, n2) ← parse_seq f s2 n1;
            Some (match r with REps => a' | _ => RSeq a' r end, s3, n2)
      end
  end
with parse_atom (fuel : nat) (s : str) (n : nat) : option (re * str * nat) :=
  match fuel with
  | O => None
  | S f =>
      match s with
      | [] => None
      | c :: s1 =>
          if c =? ch "(" then
            match starts_with (u "?:") s1 with
            | Some s2 =>
                '(r, s3, n1) ← parse_alt f s2 n;
                s4 ← starts_with (u ")") s3;
                Some (r, s4, n1)
            | None =>
                '(r, s3, n1) ← parse_alt f s1 (S n);
                s4 ← starts_with (u ")") s3;
                Some (RGroup (S n) r, s4, n1)
            end
          else if c =? ch "[" then
            '(cs, s2) ← parse_class s1 true; Some (RSet cs, s2, n)
          else if c =? ch "\" then
            match s1 with
            | e :: s2 => x ← parse_escape e; Some (RSet [x], s2, n)
            | [] => None
            end
          else if is_meta c then None
          else Some (RChar c, s1, n)
      end
  end.

(** [re.compile]: the source's patterns all compile; a pattern outside the
    supported syntax yields [RFail]. *)
Definition re_compile (p : string) : re :=
  match parse_alt (S (length (u p)) * 3) (u p) 0 with
  | Some (r, [], _) => r
  | _ => RFail
  end.


(** *** Matching

    [rmatch r s g] lists, in the order in which a backtracking matcher tries
    them, every way [r] can match a prefix of [s]: the text left over and the
    groups captured so far.  Quantifiers are greedy, alternatives are tried
    from the left, and an iteration of a starred expression has to consume
    text. *)

Abbreviation groups := (gmap nat str).

Definition consumed (s s' : str) : str := take (length s - length s') s.

(** Greedy iteration of [step]: as many rounds as possible first, each
    round consuming text; [n] bounds the number of rounds by the length of
    the text. *)
Fixpoint star_loop (step : str -> groups -> list (str * groups))
    (n : nat) (s : str) (g : groups) : list (str * groups) :=
  match n with
  | O => [(s, g)]
  | S n' =>
      ('(s1, g1) ← step s g;
       if (length s1 <? length s)%nat then star_loop step n' s1 g1 else [])
      ++ [(s, g)]
  end.

Fixpoint rmatch (r : re) (s : str) (g : groups) : list (str * groups) :=
  match r with
  | REps => [(s, g)]
  | RFail => []
  | RChar c =>
      match s with
      | d :: s' => if c =? d then [(s', g)] else []
      | [] => []
      end
  | RSet cs =>
      match s with
      | d :: s' => if existsb (cset_mem d) cs then [(s', g)] else []
      | [] => []
      end
  | RSeq a b => '(s1, g1) ← rmatch a s g; rmatch b s1 g1
  | RAlt a b => rmatch a s g ++ rmatch b s g
  | RStar a => star_loop (rmatch a) (length s) s g
  | RPlus a => '(s0, g0) ← rmatch a s g; star_loop (rmatch a) (length s0) s0 g0
  | ROpt a => rmatch a s g ++ [(s, g)]
  | RGroup i a =>
      '(s1, g1) ← rmatch a s g; [(s1, <[i := consumed s s1]> g1)]
  end.

(** A match object: the text matched and the groups. *)
Record rmatch_obj : Type := MatchObj { m_text : str; m_groups : groups }.

(** [m.group(i)] for a group of the pattern; a group that took no part in
    the match has no text. *)
Definition group (m : rmatch_obj) (i : nat) : option str := m_groups m !! i.

(** The non-overlapping matches of [r] in [s], scanning from the left.  The
    first [skip] positions belong to the previous match. *)
Fixpoint scan (r : re) (s : str) (skip : nat) : list rmatch_obj :=
  match skip with
  | S k => match s with [] => [] | _ :: t => scan r t k end
  | O =>
      match head (rmatch r s ∅) with
      | Some (s', g) =>
          MatchObj (consumed s s') g
          :: match s with [] => [] | _ :: t => scan r t (pred (length s - length s')) end
      | None => match s with [] => [] | _ :: t => scan r t 0 end
      end
  end.

(** [re.search(p, s)] *)
Definition re_search (p : string) (s : str) : option rmatch_obj :=
  head (scan (re_compile p) s 0).

(** [re.findall(p, s)] for a pattern with one capturing group: the texts of
    group 1, the empty text for a match in which the group took no part. *)
Definition re_findall (p : string) (s : str) : list str :=
  (fun m => default [] (group m 1)) <$> scan (re_compile p) s 0.


(** ** Python values, exceptions and floats *)

Inductive exn : Type :=
| ValueError
| TypeError
| KeyError
| OverflowError
| ZeroDivisionError
| NameError.

Inductive result (A : Type) : Type :=
| Ok (a : A)
| Raise (e : exn).
Arguments Ok {A} a.
Arguments Raise {A} e.

#[global] Instance result_ret : MRet result := fun A a => Ok a.
#[global] Instance result_bind : MBind result := fun A B f m =>
  match m with Ok a => f a | Raise e => Raise e end.
#[global] Instance result_fmap : FMap result := fun A B f m =>
  match m with Ok a => Ok (f a) | Raise e => Raise e end.

(** [[f(x) for x in xs]], stopping at the first exception. *)
Fixpoint mapR {A B : Type} (f : A -> result B) (xs : list A) : result (list B) :=
  match xs with
  | [] => Ok []
  | x :: xs' => y ← f x; ys ← mapR f xs'; Ok (y :: ys)
  end.

(** A [for] loop threading an accumulator. *)
Fixpoint foldR {A B : Type} (f : B -> A -> result B) (b : B) (xs : list A) : result B :=
  match xs with
  | [] => Ok b
  | x :: xs' => b' ← f b x; foldR f b' xs'
  end.

(** Binary64: 53 bits of precision, exponents below 1024. *)
Abbreviation float := spec_float.
Definition prec : Z := 53.
Definition emax : Z := 1024.

Definition float_of_Z (z : Z) : float := binary_normalize prec emax z 0 false.

(** The correctly rounded quotient of two positive integers. *)
Definition float_of_ratio (sign : bool) (n d : positive) : float :=
  SFdiv prec emax (S754_finite sign n 0) (S754_finite false d 0).

Definition float_le (a b : float) : bool := SFleb a b.

Definition float_isnan (a : float) : bool :=
  match a with S754_nan => true | _ => false end.

#[warnings="-register-all"]
Inductive value : Type :=
| VNone
| VBool (b : bool)
| VInt (z : Z)
| VFloat (f : float)
| VStr (s : str)
| VList (l : list value)
| VDict (d : gmap string value).

(** *** [float(s)] for a [str] *)

(** Digits of any script become ASCII digits and spaces beyond ASCII become
    blanks; any other code point beyond ASCII makes the text unparsable. *)
Definition ascii_fold (c : N) : option N :=
  if c <? 127 then Some c
  else if py_isspace c then Some 32
  else (fun d => 48 + d) <$> py_decimal c.

Definition is_c_space (c : N) : bool := ((9 <=? c) && (c <=? 13)) || (c =? 32).
Definition is_c_digit (c : N) : bool := (48 <=? c) && (c <=? 57).

Fixpoint drop_while {A : Type} (p : A -> bool) (l : list A) : list A :=
  match l with
  | x :: l' => if p x then drop_while p l' else l
  | [] => []
  end.

Definition c_strip (s : str) : str :=
  rev (drop_while is_c_space (rev (drop_while is_c_space s))).

(** An underscore is accepted between two digits and dropped. *)
Fixpoint drop_underscores (prev : N) (s : str) : option str :=
  match s with
  | [] => if prev =? ch "_" then None else Some []
  | c :: s' =>
      if c =? ch "_" then
        if is_c_digit prev then drop_underscores c s' else None
      else if (prev =? ch "_") && negb (is_c_digit c) then None
      else (cons c) <$> drop_underscores c s'
  end.

Fixpoint span_digits (s : str) : str * str :=
  match s with
  | c :: s' =>
      if is_c_digit c then let '(ds, r) := span_digits s' in (c :: ds, r)
      else ([], s)
  | [] => ([], [])
  end.

Definition digits_val (ds : str) : Z :=
  fold_left (fun acc d => acc * 10 + Z.of_N (d - 48))%Z ds 0%Z.

Definition take_sign (s : str) : bool * str :=
  match s with
  | c :: s' =>
      if c =? ch "-" then (true, s')
      else if c =? ch "+" then (false, s')
      else (false, s)
  | [] => (false, s)
  end.

(** Decimal literal [digits [. digits] [e [sign] digits]] with at least one
    digit in the mantissa: the mantissa as an integer and the power of ten. *)
Definition parse_decimal (s : str) : option (Z * Z) :=
  let '(ip, s1) := span_digits s in
  let '(fp, s2) :=
    match s1 with
    | c :: s1' => if c =? ch "." then span_digits s1' else ([], s1)
    | [] => ([], s1)
    end in
  if (length (ip ++ fp) =? 0)%nat then None
  else
    let m := digits_val (ip ++ fp) in
    let e := (- Z.of_nat (length fp))%Z in
    match s2 with
    | [] => Some (m, e)
    | c :: s3 =>
        if (c =? ch "e") || (c =? ch "E") then
          let '(neg, s4) := take_sign s3 in
          let '(ep, s5) := span_digits s4 in
          match ep, s5 with
          | _ :: _, [] =>
              Some (m, (e + (if neg then - digits_val ep else digits_val ep))%Z)
          | _, _ => None
          end
        else None
    end.

(** [m * 10 ^ e] rounded to the nearest binary64 number, ties to even. *)
Definition float_of_decimal (sign : bool) (m e : Z) : float :=
  match m with
  | Zpos p =>
      match e with
      | Z0 => float_of_ratio sign p 1
      | Zpos k => float_of_ratio sign (p * 10 ^ k) 1
      | Zneg k => float_of_ratio sign p (10 ^ k)
      end
  | _ => S754_zero sign
  end.

Definition ascii_lower (c : N) : N :=
  if (65 <=? c) && (c <=? 90) then c + 32 else c.

Definition py_float (s : str) : result float :=
  match mapM ascii_fold s with
  | None => Raise ValueError
  | Some a =>
      match drop_underscores 0 (c_strip a) with
      | None => Raise ValueError
      | Some b =>
          let '(neg, body) := take_sign b in
          let word := ascii_lower <$> body in
          if decide (word = u "inf") then Ok (S754_infinity neg)
          else if decide (word = u "infinity") then Ok (S754_infinity neg)
          else if decide (word = u "nan") then Ok S754_nan
          else
            match parse_decimal body with
            | Some (m, e) => Ok (float_of_decimal neg m e)
            | None => Raise ValueError
            end
      end
  end.

(** *** [int(s)] for a [str], base ten *)

(** The limit of CPython on the digits of a decimal numeral that [int]
    converts, as the interpreter sets it by default. *)
Definition int_max_str_digits : N := 4300.

Definition py_int (s : str) : result Z :=
  match mapM ascii_fold s with
  | None => Raise ValueError
  | Some a =>
      let '(neg, body) := take_sign (c_strip a) in
      match drop_underscores 0 body with
      | Some (d :: ds) =>
          if forallb is_c_digit (d :: ds)
          then
            if int_max_str_digits <? N.of_nat (length (d :: ds))
            then Raise ValueError
            else Ok (if neg then - digits_val (d :: ds) else digits_val (d :: ds))%Z
          else Raise ValueError
      | _ => Raise ValueError
      end
  end.

(** [a / b] on integers: the correctly rounded quotient, or an overflow. *)
Definition int_truediv (a b : Z) : result float :=
  match b, a with
  | Z0, _ => Raise ZeroDivisionError
  | _, Z0 => Ok (S754_zero (b <? 0)%Z)
  | _, _ =>
      let q := float_of_ratio (xorb (a <? 0)%Z (b <? 0)%Z)
                 (Z.to_pos (Z.abs a)) (Z.to_pos (Z.abs b)) in
      match q with
      | S754_infinity _ => Raise OverflowError
      | _ => Ok q
      end
  end.


(** ** The extractors of [extractor.py] *)

(** [s.replace(old, new)] for a one-character [old]. *)
Definition replace (old : N) (new : str) (s : str) : str :=
  flat_map (fun c => if c =? old then new else [c]) s.

(** [sub in s] *)
Fixpoint contains (sub s : str) : bool :=
  if decide (take (length sub) s = sub) then true
  else match s with
       | [] => false
       | _ :: s' => contains sub s'
       end.

Definition padroes_percentual : list string :=
  [ "multa\s+de\s+(\d+[.,]?\d*)%\s+(?:do|de|sobre)?\s+(?:seu)?\s+faturamento";
    "(\d+[.,]?\d*)%\s+(?:do|de|sobre)?\s+(?:seu)?\s+faturamento\s+(?:bruto|líquido)?";
    "percentual\s+de\s+(\d+[.,]?\d*)%\s+(?:do|de|sobre)?\s+(?:seu)?\s+faturamento";
    "pena\s+pecuniária\s+(?:de|no\s+valor\s+de)\s+(\d+[.,]?\d*)%\s+(?:do|de|sobre)?\s+(?:seu)?\s+faturamento";
    "multa\s+(?:de|no\s+valor\s+de)\s+(\d+[.,]?\d*)%\s+(?:do|de|sobre)?\s+(?:seu)?\s+faturamento";
    "aplicação\s+de\s+multa\s+de\s+(\d+[.,]?\d*)%\s+(?:do|de|sobre)?\s+(?:seu)?\s+faturamento";
    "condenação\s+(?:de|ao\s+pagamento\s+de)\s+multa\s+de\s+(\d+[.,]?\d*)%\s+(?:do|de|sobre)?\s+(?:seu)?\s+faturamento";
    "condenação\s+(?:de|ao\s+pagamento\s+de)\s+(\d+[.,]?\d*)%\s+(?:do|de|sobre)?\s+(?:seu)?\s+faturamento" ].

(** Body of the inner loop: the [try] block and its [except] clause, which
    catches [ValueError] and [TypeError] only. *)
Definition passo_percentual (resultados : list float) (match_ : str) : result (list float) :=
  match py_float (replace (ch ",") (u ".") match_) with
  | Ok valor =>
      if float_le valor (float_of_Z 100) then Ok (resultados ++ [valor])
      else Ok resultados
  | Raise ValueError | Raise TypeError => Ok resultados
  | Raise e => Raise e
  end.

Definition extrair_percentual_multa (texto : value) : result (option (list float)) :=
  match texto with
  | VStr texto =>
      let texto := lower texto in
      resultados ←
        foldR (fun resultados padrao =>
                 foldR passo_percentual resultados (re_findall padrao texto))
              [] padroes_percentual;
      Ok (match resultados with [] => None | _ :: _ => Some resultados end)
  | _ => Ok None
  end.

Definition padroes_reais : list string :=
  [ "multa\s+de\s+r\$\s*(\d+[.,]?\d*(?:\.\d+)*)";
    "multa\s+no\s+valor\s+de\s+r\$\s*(\d+[.,]?\d*(?:\.\d+)*)";
    "pena\s+pecuniária\s+de\s+r\$\s*(\d+[.,]?\d*(?:\.\d+)*)";
    "condenação\s+(?:de|ao\s+pagamento\s+de)\s+r\$\s*(\d+[.,]?\d*(?:\.\d+)*)" ].

Definition passo_reais (resultados : list float) (match_ : str) : result (list float) :=
  let valor_str := replace (ch ".") [] match_ in
  let valor_str := replace (ch ",") (u ".") valor_str in
  match py_float valor_str with
  | Ok valor => Ok (resultados ++ [valor])
  | Raise ValueError | Raise TypeError => Ok resultados
  | Raise e => Raise e
  end.

Definition extrair_valor_multa_reais (texto : value) : result (option (list float)) :=
  match texto with
  | VStr texto =>
      let texto := lower texto in
      resultados ←
        foldR (fun resultados padrao =>
                 foldR passo_reais resultados (re_findall padrao texto))
              [] padroes_reais;
      Ok (match resultados with [] => None | _ :: _ => Some resultados end)
  | _ => Ok None
  end.

(** The dictionary the dosimetry extractor starts from. *)
Definition elementos_iniciais : gmap string value :=
  <["duracao_conduta" := VNone]>
  (<["gravidade" := VNone]>
  (<["cooperacao" := VBool false]>
  (<["ma_fe" := VBool false]>
  (<["boa_fe" := VBool false]>
  (<["reincidencia" := VBool false]> ∅))))).

(** [m.group(i)] as a Python value. *)
Definition group_value (m : rmatch_obj) (i : nat) : value :=
  match group m i with Some t => VStr t | None => VNone end.

(** [int(x)] on a value that is a [str] or [None]. *)
Definition int_of_value (v : value) : result Z :=
  match v with
  | VStr t => py_int t
  | VInt z => Ok z
  | VBool b => Ok (if b then 1 else 0)%Z
  | _ => Raise TypeError
  end.

Definition value_contains (sub : str) (v : value) : result bool :=
  match v with
  | VStr t => Ok (contains sub t)
  | _ => Raise TypeError
  end.

Definition padrao_duracao : string :=
  "conduta\s+(?:por|durante)\s+(\d+)\s+(anos?|meses?|dias?)".

Definition found (p : string) (texto : str) : bool :=
  match re_search p texto with Some _ => true | None => false end.

Definition extrair_elementos_dosimetria (texto : value) : result (gmap string value) :=
  match texto with
  | VStr texto =>
      let texto := lower texto in
      let elementos := elementos_iniciais in
      let elementos :=
        if found "reincid[êe]ncia" texto || found "reincidente" texto
        then <["reincidencia" := VBool true]> elementos else elementos in
      let elementos :=
        if found "boa[- ]f[ée]" texto
        then <["boa_fe" := VBool true]> elementos else elementos in
      let elementos :=
        if found "m[áa][- ]f[ée]" texto
        then <["ma_fe" := VBool true]> elementos else elementos in
      let elementos :=
        if found "cooper[ao][çc][ãa]o" texto || found "colabor[ao][çc][ãa]o" texto
        then <["cooperacao" := VBool true]> elementos else elementos in
      let elementos :=
        match re_search "(alta|elevada|grave|baixa|leve|média|moderada)\s+gravidade" texto with
        | Some gravidade_match =>
            <["gravidade" := group_value gravidade_match 1]> elementos
        | None => elementos
        end in
      match re_search padrao_duracao texto with
      | Some duracao_match =>
          valor ← int_of_value (group_value duracao_match 1);
          let unidade := group_value duracao_match 2 in
          tem_ano ← value_contains (u "ano") unidade;
          valor ←
            (if tem_ano : bool then Ok (VInt (valor * 12)%Z)
             else
               tem_dia ← value_contains (u "dia") unidade;
               if tem_dia : bool then VFloat <$> int_truediv valor 30
               else Ok (VInt valor));
          Ok (<["duracao_conduta" := valor]> elementos)
      | None => Ok elementos
      end
  | _ => Ok ∅
  end.


(** ** Tables

    A [DataFrame] object has its ordered column names and its rows, each an
    index label with one cell per column.  Objects live in a store and are
    referred to by location, so that copying and in-place assignment of a
    column are told apart. *)

Record row : Type := Row { row_label : Z; row_cells : gmap string value }.

Record DataFrame : Type := Frame { df_columns : list string; df_rows : list row }.

Abbreviation loc := positive.
Abbreviation store := (gmap loc DataFrame).

(** Computations that read and update the store and may raise. *)
Definition M (A : Type) : Type := store -> result A * store.

#[global] Instance M_ret : MRet M := fun A a σ => (Ok a, σ).
#[global] Instance M_bind : MBind M := fun A B f m σ =>
  match m σ with
  | (Ok a, σ') => f a σ'
  | (Raise e, σ') => (Raise e, σ')
  end.

Definition lift {A : Type} (r : result A) : M A := fun σ => (r, σ).

Fixpoint for_each {A : Type} (xs : list A) (body : A -> M unit) : M unit :=
  match xs with
  | [] => mret tt
  | x :: xs' => _ ← body x; for_each xs' body
  end.

Definition cell (c : string) (r : row) : value := default VNone (row_cells r !! c).

Definition set_cell (c : string) (r : row) (v : value) : row :=
  Row (row_label r) (<[c := v]> (row_cells r)).

(** [df.copy()]: a new object with the same columns and rows. *)
Definition df_copy (df : loc) : M loc := fun σ =>
  match σ !! df with
  | Some d => let l := fresh (dom σ) in (Ok l, <[l := d]> σ)
  | None => (Raise NameError, σ)
  end.

(** [df[c]]: the cells of column [c], top to bottom. *)
Definition getitem (df : loc) (c : string) : M (list value) := fun σ =>
  match σ !! df with
  | Some d =>
      if decide (c ∈ df_columns d) then (Ok (cell c <$> df_rows d), σ)
      else (Raise KeyError, σ)
  | None => (Raise NameError, σ)
  end.

(** The table [d] with column [c] set to [s]; a new column goes last. *)
Definition assign (d : DataFrame) (c : string) (s : list value) : DataFrame :=
  Frame (if decide (c ∈ df_columns d) then df_columns d else df_columns d ++ [c])
        (zip_with (set_cell c) (df_rows d) s).

(** [df[c] = s]: the object is updated in place. *)
Definition setitem (df : loc) (c : string) (s : list value) : M unit := fun σ =>
  match σ !! df with
  | Some d =>
      if decide (length s = length (df_rows d)) then (Ok tt, <[df := assign d c s]> σ)
      else (Raise ValueError, σ)
  | None => (Raise NameError, σ)
  end.

Fixpoint select {A : Type} (mask : list bool) (xs : list A) : list A :=
  match mask, xs with
  | b :: mask', x :: xs' => if b then x :: select mask' xs' else select mask' xs'
  | _, _ => []
  end.

(** [df[mask]] for a boolean mask: a new object with the rows selected. *)
Definition getitem_mask (df : loc) (mask : list bool) : M loc := fun σ =>
  match σ !! df with
  | Some d =>
      if decide (length mask = length (df_rows d)) then
        let l := fresh (dom σ) in
        (Ok l, <[l := Frame (df_columns d) (select mask (df_rows d))]> σ)
      else (Raise ValueError, σ)
  | None => (Raise NameError, σ)
  end.

(** [Series.notnull] on one cell: [None] and NaN are null. *)
Definition notnull (v : value) : bool :=
  match v with
  | VNone => false
  | VFloat f => negb (float_isnan f)
  | _ => true
  end.

(** A list of floats, or [None], as a cell. *)
Definition value_of_floats (o : option (list float)) : value :=
  match o with
  | Some l => VList (VFloat <$> l)
  | None => VNone
  end.

(** [lambda x: x[0] if isinstance(x, list) and len(x) > 0 else None] *)
Definition primeiro (x : value) : value :=
  match x with
  | VList (v :: _) => v
  | _ => VNone
  end.

(** [lambda x: x.get(elemento) if isinstance(x, dict) else None] *)
Definition obter (elemento : string) (x : value) : value :=
  match x with
  | VDict d => default VNone (d !! elemento)
  | _ => VNone
  end.

Definition elementos : list string :=
  ["reincidencia"; "boa_fe"; "ma_fe"; "cooperacao"; "gravidade"; "duracao_conduta"].

(** The loop body of the orchestrator for one dosimetry field. *)
Definition expandir (df_resultado : loc) (elemento : string) : M unit :=
  s ← getitem df_resultado "elementos_dosimetria";
  setitem df_resultado ("dosimetria_" +:+ elemento) (obter elemento <$> s).

Definition aplicar_extracao_ao_dataframe (df : loc) (coluna_texto : string) : M loc :=
  df_resultado ← df_copy df;
  s ← getitem df_resultado coluna_texto;
  s ← lift (mapR (fun x => value_of_floats <$> extrair_percentual_multa x) s);
  _ ← setitem df_resultado "percentuais_multa" s;
  s ← getitem df_resultado "percentuais_multa";
  _ ← setitem df_resultado "percentual_multa" (primeiro <$> s);
  s ← getitem df_resultado coluna_texto;
  s ← lift (mapR (fun x => value_of_floats <$> extrair_valor_multa_reais x) s);
  _ ← setitem df_resultado "valores_multa_reais" s;
  s ← getitem df_resultado "valores_multa_reais";
  _ ← setitem df_resultado "valor_multa_reais" (primeiro <$> s);
  s ← getitem df_resultado coluna_texto;
  s ← lift (mapR (fun x => VDict <$> extrair_elementos_dosimetria x) s);
  _ ← setitem df_resultado "elementos_dosimetria" s;
  _ ← for_each elementos (expandir df_resultado);
  a ← getitem df_resultado "percentual_multa";
  b ← getitem df_resultado "valor_multa_reais";
  df_condenados ← getitem_mask df_resultado
                    (zip_with orb (notnull <$> a) (notnull <$> b));
  mret df_condenados.


(** ** The inference entry point of [inference.py] *)

Definition float_of_int (z : Z) : result float :=
  match float_of_Z z with
  | S754_infinity _ => Raise OverflowError
  | f => Ok f
  end.

(** One cell under [Series.astype(float)]. *)
Definition astype_float (v : value) : result value :=
  match v with
  | VNone => Ok (VFloat S754_nan)
  | VBool b => Ok (VFloat (float_of_Z (if b then 1 else 0)))
  | VInt z => VFloat <$> float_of_int z
  | VFloat f => Ok (VFloat f)
  | VStr t => VFloat <$> py_float t
  | VList _ | VDict _ => Raise TypeError
  end.

Definition features_numericas : list string :=
  ["ano_documento"; "dosimetria_duracao_conduta"].
Definition features_categoricas : list string :=
  ["descricao_tipo_documento"; "dosimetria_gravidade"].
Definition features_binarias : list string :=
  ["dosimetria_reincidencia"; "dosimetria_boa_fe"; "dosimetria_ma_fe";
   "dosimetria_cooperacao"].

(** [[col for col in cols if col in df.columns]] *)
Definition existentes (d : DataFrame) (cols : list string) : list string :=
  filter (fun col => col ∈ df_columns d) cols.

Definition resultado_erro : gmap string value :=
  <["mensagem" := VStr (u "Dados insuficientes para treinar o modelo")]>
  (<["status" := VStr (u "erro")]> ∅).

Section Inference.

(** [str(item)] on an arbitrary value. *)
Variable py_str : value -> str.

(** The scikit-learn part of [treinar_modelo_inferencial], from the
    selection of the feature types to the dictionary of results: an
    external collaborator. *)
Variable ajustar_e_avaliar : DataFrame -> list value -> result (gmap string value).

Definition rotulo_condenacao (x : value) : value :=
  match x with
  | VList items =>
      if existsb (fun item => contains (u "condenação") (lower (py_str item))) items
      then VInt 1 else VInt 0
  | _ => VInt 0
  end.

Definition converter_binaria (d : DataFrame) (col : string) : result DataFrame :=
  s ← mapR astype_float (cell col <$> df_rows d);
  Ok (assign d col s).

(** [df.loc[mask, cols]] *)
Definition loc_mask (d : DataFrame) (mask : list bool) (cols : list string) : DataFrame :=
  Frame cols
    ((fun r => Row (row_label r)
                 (filter (fun kv => kv.1 ∈ cols) (row_cells r)))
       <$> select mask (df_rows d)).

Definition preparar_dados_para_modelo (df : DataFrame)
  : result (option (DataFrame * list value)) :=
  let df_modelo := df in
  if decide ("decisao_tribunal" ∈ df_columns df_modelo) then
    let df_modelo :=
      assign df_modelo "condenacao"
        (rotulo_condenacao <$> (cell "decisao_tribunal" <$> df_rows df_modelo)) in
    let features_numericas := existentes df_modelo features_numericas in
    let features_categoricas := existentes df_modelo features_categoricas in
    let features_binarias := existentes df_modelo features_binarias in
    df_modelo ← foldR converter_binaria df_modelo features_binarias;
    let todas_features := features_numericas ++ features_categoricas ++ features_binarias in
    match todas_features with
    | [] => Ok None
    | _ :: _ =>
        let mask := notnull <$> (cell "condenacao" <$> df_rows df_modelo) in
        let X := loc_mask df_modelo mask todas_features in
        let y := select mask (cell "condenacao" <$> df_rows df_modelo) in
        Ok (Some (X, y))
    end
  else Ok None.

Definition treinar_modelo_inferencial (df : DataFrame) : result (gmap string value) :=
  xy ← preparar_dados_para_modelo df;
  match xy with
  | Some (X, y) =>
      if (length (df_rows X) <? 10)%nat then Ok resultado_erro
      else ajustar_e_avaliar X y
  | None => Ok resultado_erro
  end.

End Inference.

(** ** Vocabulary of the statements *)

(** Syntactic membership of a class in an alphabet given by classes. *)
Definition cset_eqb (x y : cset) : bool :=
  match x, y with
  | CsChar c, CsChar d => c =? d
  | CsDigit, CsDigit => true
  | CsSpace, CsSpace => true
  | _, _ => false
  end.

Definition leaf_in (A : list cset) (x : cset) : bool := existsb (cset_eqb x) A.

Definition in_alphabet (A : list cset) (c : N) : bool := existsb (cset_mem c) A.

(** Every code point [r] can consume belongs to the alphabet [A]. *)
Fixpoint alpha_ok (A : list cset) (r : re) : bool :=
  match r with
  | REps | RFail => true
  | RChar c => leaf_in A (CsChar c)
  | RSet cs => forallb (leaf_in A) cs
  | RSeq a b | RAlt a b => alpha_ok A a && alpha_ok A b
  | RStar a | RPlus a | ROpt a | RGroup _ a => alpha_ok A a
  end.

(** Every capturing group of [r] consumes code points of [A] only. *)
Fixpoint groups_ok (A : list cset) (r : re) : bool :=
  match r with
  | RGroup _ a => alpha_ok A a
  | RSeq a b | RAlt a b => groups_ok A a && groups_ok A b
  | RStar a | RPlus a | ROpt a => groups_ok A a
  | REps | RFail | RChar _ | RSet _ => true
  end.

(** The texts an expression matches in full. *)
Inductive matches : re -> str -> Prop :=
| M_eps : matches REps []
| M_char (c : N) : matches (RChar c) [c]
| M_set (cs : list cset) (c : N) :
    existsb (cset_mem c) cs = true -> matches (RSet cs) [c]
| M_seq (a b : re) (w1 w2 : str) :
    matches a w1 -> matches b w2 -> matches (RSeq a b) (w1 ++ w2)
| M_alt_l (a b : re) (w : str) : matches a w -> matches (RAlt a b) w
| M_alt_r (a b : re) (w : str) : matches b w -> matches (RAlt a b) w
| M_star_nil (a : re) : matches (RStar a) []
| M_star_cons (a : re) (w1 w2 : str) :
    matches a w1 -> matches (RStar a) w2 -> matches (RStar a) (w1 ++ w2)
| M_plus (a : re) (w1 w2 : str) :
    matches a w1 -> matches (RStar a) w2 -> matches (RPlus a) (w1 ++ w2)
| M_opt_nil (a : re) : matches (ROpt a) []
| M_opt (a : re) (w : str) : matches a w -> matches (ROpt a) w
| M_group (i : nat) (a : re) (w : str) : matches a w -> matches (RGroup i a) w.

(** Every text group [i] of [r] can capture satisfies [Q i]. *)
Fixpoint groups_sat (Q : nat -> str -> Prop) (r : re) : Prop :=
  match r with
  | RGroup i a => (forall w, matches a w -> Q i w) /\ groups_sat Q a
  | RSeq a b | RAlt a b => groups_sat Q a /\ groups_sat Q b
  | RStar a | RPlus a | ROpt a => groups_sat Q a
  | REps | RFail | RChar _ | RSet _ => True
  end.

Definition caps_inv (Q : nat -> str -> Prop) (g : groups) : Prop :=
  forall (i : nat) (t : str), g !! i = Some t -> Q i t.

(** Every match of [r] sets group [i]. *)
Fixpoint sets_group (i : nat) (r : re) : bool :=
  match r with
  | RGroup j a => (i =? j)%nat || sets_group i a
  | RSeq a b => sets_group i a || sets_group i b
  | RAlt a b => sets_group i a && sets_group i b
  | RPlus a => sets_group i a
  | REps | RFail | RChar _ | RSet _ | RStar _ | ROpt _ => false
  end.

Definition in_A (A : list cset) (w : str) : Prop :=
  Forall (fun c => in_alphabet A c = true) w.

(** The alphabet of the numerals the patterns capture. *)
Definition numeral_alphabet : list cset := [CsDigit; CsChar (ch "."); CsChar (ch ",")].

(** A float that is a number and not below zero. *)
Definition float_nonneg (f : float) : bool :=
  match f with
  | S754_zero _ | S754_finite false _ _ | S754_infinity false => true
  | _ => false
  end.

Definition float_zero : float := S754_zero false.

(** Code points of a numeral once its separators are rewritten: decimal
    digits of any script and the point. *)
Definition plain_char (c : N) : bool := py_isdecimal c || (c =? ch ".").

(** The same after [ascii_fold]. *)
Definition c_plain (c : N) : bool := is_c_digit c || (c =? ch ".").

Definition digit_offsets : list N := [0; 1; 2; 3; 4; 5; 6; 7; 8; 9].

(** The value one captured numeral contributes to the list of percentages,
    if any: its parsed value when the conversion succeeds and the value does
    not exceed 100. *)
Definition valor_percentual (match_ : str) : option float :=
  match py_float (replace (ch ",") (u ".") match_) with
  | Ok valor => if float_le valor (float_of_Z 100) then Some valor else None
  | Raise _ => None
  end.

(** The same for the list of amounts. *)
Definition valor_reais (match_ : str) : option float :=
  match py_float (replace (ch ",") (u ".") (replace (ch ".") [] match_)) with
  | Ok valor => Some valor
  | Raise _ => None
  end.

(** The candidates as the specification words them: pattern after
    pattern, the valid matches of each in the order found, nothing merged. *)
Definition candidatos (padroes : list string) (valor : str -> option float)
    (texto : str) : list float :=
  padrao ← padroes; omap valor (re_findall padrao texto).

(** [resultados if resultados else None] *)
Definition nonempty (l : list float) : option (list float) :=
  match l with [] => None | _ :: _ => Some l end.

Definition is_str (v : value) : bool :=
  match v with VStr _ => true | _ => false end.

(** The duration field of the dosimetry of a text. *)
Definition duracao_de (texto : value) : result (option value) :=
  d ← extrair_elementos_dosimetria texto; Ok (d !! "duracao_conduta").

(** The texts of the scenarios of the specification. *)
Definition texto_condenacao : str :=
  u "a empresa foi condenada ao pagamento de multa de 15,5% de seu faturamento, havendo reincidência e boa-fé".
Definition texto_valor : str := u "multa no valor de R$ 1.500.000,00".
Definition texto_milhar_decimal : str := u "multa de R$ 1.234,56".

(** *** The orchestrator, row by row *)

(** One column pass seen from a row: read cell [c], apply [g], store the
    result in cell [c']. *)
Definition passo_linha (c : string) (g : value -> result value) (c' : string)
    (r : row) : result row :=
  v ← g (cell c r); Ok (set_cell c' r v).

(** The passes of [aplicar_extracao_ao_dataframe], in order. *)
Definition passos_linha (coluna_texto : string) : list (row -> result row) :=
  [ passo_linha coluna_texto
      (fun x => value_of_floats <$> extrair_percentual_multa x) "percentuais_multa";
    passo_linha "percentuais_multa" (fun x => Ok (primeiro x)) "percentual_multa";
    passo_linha coluna_texto
      (fun x => value_of_floats <$> extrair_valor_multa_reais x) "valores_multa_reais";
    passo_linha "valores_multa_reais" (fun x => Ok (primeiro x)) "valor_multa_reais";
    passo_linha coluna_texto
      (fun x => VDict <$> extrair_elementos_dosimetria x) "elementos_dosimetria" ]
  ++ ((fun elemento =>
         passo_linha "elementos_dosimetria" (fun x => Ok (obter elemento x))
           ("dosimetria_" +:+ elemento)) <$> elementos).

Definition run_steps (ps : list (row -> result row)) (r : row) : result row :=
  foldl (fun acc passo => r' ← acc; passo r') (Ok r) ps.

(** What the extraction makes of one row. *)
Definition extrair_linha (coluna_texto : string) (r : row) : result row :=
  run_steps (passos_linha coluna_texto) r.

(** The admission criterion on a row of the extended table. *)
Definition admitida (r : row) : bool :=
  notnull (cell "percentual_multa" r) || notnull (cell "valor_multa_reais" r).

(** A cell that is not [None]. *)
Definition presente (v : value) : bool :=
  match v with VNone => false | _ => true end.

(** [σ] agrees with [σ0] on every object of [σ0]. *)
Definition ext (σ0 σ : store) : Prop :=
  forall l : loc, l ∈ dom σ0 -> σ !! l = σ0 !! l.

(** Names of the columns the orchestrator writes. *)
Definition colunas_derivadas : list string :=
  ["percentuais_multa"; "percentual_multa"; "valores_multa_reais"; "valor_multa_reais";
   "elementos_dosimetria"] ++ ((fun elemento => "dosimetria_" +:+ elemento) <$> elementos).

(** The state of the store once the passes [ps] are done on the copy at
    [l1] of the table [d]: the objects of the initial store [σ0] are as they
    were, the copy holds the rows the passes make of the rows of [d], and the
    columns [have] exist. *)
Definition after (σ0 : store) (d : DataFrame) (l1 : loc)
    (ps : list (row -> result row)) (have : list string) (σ : store) : Prop :=
  ext σ0 σ /\ (l1 ∉ dom σ0)
  /\ exists cols rows, σ !! l1 = Some (Frame cols rows)
       /\ mapR (run_steps ps) (df_rows d) = Ok rows
       /\ Forall (fun c => c ∈ cols) have.

(** What a call of the orchestrator on the table [d] guarantees, whatever
    its outcome [r]: the objects of the initial store are untouched; when a
    table is returned, it is a new object holding, in order, the admitted
    rows among the rows the extraction makes of the rows of [d]. *)
Definition aplicar_post (σ0 : store) (d : DataFrame) (coluna_texto : string)
    (r : result loc) (σ : store) : Prop :=
  ext σ0 σ
  /\ match r with
     | Ok l2 =>
         (l2 ∉ dom σ0)
         /\ exists cols rows,
              mapR (extrair_linha coluna_texto) (df_rows d) = Ok rows
              /\ σ !! l2 = Some (Frame cols (List.filter admitida rows))
     | Raise _ => True
     end.

(** The primary value of a list of candidates, as a cell. *)
Definition primario (o : option (list float)) : value := primeiro (value_of_floats o).

(** A small table for the scenarios: an index label and a text per row. *)
Definition linha_de (i : Z) (t : value) : row :=
  Row i (<["texto_completo" := t]> (<["ano_documento" := VInt 2015]> ∅)).

Definition tabela_exemplo : DataFrame :=
  Frame ["ano_documento"; "texto_completo"]
    [ linha_de 10 (VStr texto_condenacao);
      linha_de 11 (VStr (u "o processo foi arquivado sem aplicação de penalidade"));
      linha_de 12 VNone;
      linha_de 13 (VStr texto_valor) ].

Definition store_exemplo : store := <[5%positive := tabela_exemplo]> ∅.

(** The admission criterion in the words of the specification: the primary
    percentage is present or the primary amount is present. *)
Definition tem_evidencia (r : row) : bool :=
  presente (cell "percentual_multa" r) || presente (cell "valor_multa_reais" r).

(** What the scenarios read of a row of the output. *)
Definition resumo (r : row) : Z * value * value * value * value * value :=
  (row_label r, cell "percentual_multa" r, cell "valor_multa_reais" r,
   cell "dosimetria_reincidencia" r, cell "dosimetria_boa_fe" r,
   cell "dosimetria_ma_fe" r).

(** The rows of the table a call of the orchestrator returns, if any. *)
Definition linhas_da_saida (out : result loc * store) : option (list row) :=
  match out.1 with
  | Ok l => df_rows <$> out.2 !! l
  | Raise _ => None
  end.

Definition resumo_da_saida (out : result loc * store)
  : option (list (Z * value * value * value * value * value)) :=
  match linhas_da_saida out with
  | Some rows => Some (map resumo rows)
  | None => None
  end.

(** The primary percentage and the primary amount of a text. *)
Definition percentual_de (texto : value) : result value :=
  pm ← extrair_percentual_multa texto; Ok (primario pm).
Definition valor_de (texto : value) : result value :=
  vm ← extrair_valor_multa_reais texto; Ok (primario vm).

(** Recidivism, good faith and bad faith of a text. *)
Definition fatores_de (texto : value) : result (option value * option value * option value) :=
  d ← extrair_elementos_dosimetria texto;
  Ok (d !! "reincidencia", d !! "boa_fe", d !! "ma_fe").

(** The units of time of the specification and the texts the duration
    pattern can capture for each. *)
Inductive unidade_tempo : Type := Anos | Meses | Dias.

Definition unidades : list (str * unidade_tempo) :=
  [ (u "ano", Anos); (u "anos", Anos); (u "mese", Meses); (u "meses", Meses);
    (u "dia", Dias); (u "dias", Dias) ].

Definition unidade_de (w : str) : option unidade_tempo :=
  snd <$> List.find (fun p => bool_decide (p.1 = w)) unidades.

(** The duration in months, in the words of the specification: years times
    12, months unchanged, days divided by 30. *)
Definition em_meses (n : Z) (un : unidade_tempo) : result value :=
  match un with
  | Anos => Ok (VInt (n * 12))
  | Meses => Ok (VInt n)
  | Dias => VFloat <$> int_truediv n 30
  end.

(** What the two groups of the duration pattern capture. *)
Definition captura_duracao (i : nat) (w : str) : Prop :=
  match i with
  | 1%nat => w <> [] /\ Forall (fun c => py_isdecimal c = true) w
  | 2%nat => is_Some (unidade_de w)
  | _ => True
  end.


(** A cell that [astype(float)] converts. *)
Definition convertivel (v : value) : Prop := exists f, astype_float v = Ok (VFloat f).

Definition binarias_convertiveis (d : DataFrame) : Prop :=
  forall r col, r ∈ df_rows d -> col ∈ features_binarias -> convertivel (cell col r).

Definition todas_as_features : list string :=
  features_numericas ++ features_categoricas ++ features_binarias.

(** A table of three decisions, with one of the binary features. *)
Definition tabela_pequena : DataFrame :=
  Frame ["decisao_tribunal"; "dosimetria_boa_fe"]
    [Row 0 (<["decisao_tribunal" := VList [VStr (u "Condenação")]]>
            (<["dosimetria_boa_fe" := VBool true]> ∅));
     Row 1 (<["decisao_tribunal" := VList [VStr (u "Arquivamento")]]>
            (<["dosimetria_boa_fe" := VBool false]> ∅));
     Row 2 (<["decisao_tribunal" := VNone]>
            (<["dosimetria_boa_fe" := VNone]> ∅))].

(** [str(item)] for the items of the example. *)
Definition py_str_exemplo (v : value) : str :=
  match v with VStr t => t | _ => [] end.

(** What a matching step guarantees: it consumes a prefix that satisfies
    [P], and keeps the captures inside [Q] when [hg] holds. *)
Definition step_sound (Q : nat -> str -> Prop) (P : str -> Prop) (hg : Prop)
    (step : str -> groups -> list (str * groups)) : Prop :=
  forall s g s' g', (s', g') ∈ step s g ->
    exists w, s = w ++ s' /\ P w /\ (hg -> caps_inv Q g -> caps_inv Q g').

(** *** The orchestrator, table by table *)

(** The columns of a table once column [c] is assigned: a new column goes
    last, an existing one keeps its place. *)
Definition com_coluna (cols : list string) (c : string) : list string :=
  if decide (c ∈ cols) then cols else cols ++ [c].

(** The columns of the table the orchestrator returns for a table with the
    columns [cols]. *)
Definition colunas_da_saida (cols : list string) : list string :=
  foldl com_coluna cols colunas_derivadas.

(** The exceptions a call of the orchestrator can end with. *)
Definition erro_de_extracao (e : exn) : Prop := e = ValueError \/ e = OverflowError.

(** *** The dosimetry record *)

Definition padrao_gravidade : string :=
  "(alta|elevada|grave|baixa|leve|média|moderada)\s+gravidade".

(** The severity adjectives the pattern can capture. *)
Definition adjetivos_gravidade : list str :=
  [u "alta"; u "elevada"; u "grave"; u "baixa"; u "leve"; u "média"; u "moderada"].

Definition captura_gravidade (i : nat) (w : str) : Prop :=
  match i with
  | 1%nat => w ∈ adjetivos_gravidade
  | _ => True
  end.

(** A severity field: absent, or one of the adjectives. *)
Definition gravidade_valida (v : value) : Prop :=
  v = VNone \/ exists w, w ∈ adjetivos_gravidade /\ v = VStr w.

(** A duration field: absent, a whole number of months that is not
    negative, or a float that is not negative. *)
Definition duracao_valida (v : value) : Prop :=
  v = VNone
  \/ (exists n, (0 <= n)%Z /\ v = VInt n)
  \/ (exists f, float_nonneg f = true /\ v = VFloat f).

(** *** The prepared data *)

(** A row once the columns [cols] are converted to float: the label and
    the other cells as they were, each cell of [cols] the float of what it
    was. *)
Definition convertida (cols : list string) (r r' : row) : Prop :=
  row_label r' = row_label r
  /\ (forall c, c ∉ cols -> cell c r' = cell c r)
  /\ (forall c, c ∈ cols -> astype_float (cell c r) = Ok (cell c r')).

(** A row of the features [X] beside the row of the input it comes from. *)
Definition linha_de_features (df : DataFrame) (r x : row) : Prop :=
  row_label x = row_label r
  /\ (forall c, c ∈ existentes df (features_numericas ++ features_categoricas) ->
        cell c x = cell c r)
  /\ (forall c, c ∈ existentes df features_binarias ->
        astype_float (cell c r) = Ok (cell c x))
  /\ (forall c, c ∉ existentes df todas_as_features -> cell c x = VNone).

(** A table of one decision whose good-faith cell is a text that is not a
    number. *)
Definition tabela_invalida : DataFrame :=
  Frame ["decisao_tribunal"; "dosimetria_boa_fe"]
    [Row 0 (<["decisao_tribunal" := VList [VStr (u "Condenação")]]>
            (<["dosimetria_boa_fe" := VStr (u "sim")]> ∅))].

(** *** What a pattern needs in the text *)

(** The code point of an expression that matches one given code point and
    nothing else. *)
Definition as_char (r : re) : option N :=
  match r with
  | RChar d => Some d
  | RSet [CsChar d] => Some d
  | _ => None
  end.

(** Every text [r] matches starts with [x]. *)
Fixpoint literal_prefix (r : re) (x : str) : bool :=
  match x with
  | [] => true
  | c :: x' =>
      match r with
      | RSeq a b =>
          match as_char a with
          | Some d => (c =? d) && literal_prefix b x'
          | None => false
          end
      | RGroup _ a => literal_prefix a x
      | _ =>
          match as_char r with
          | Some d => (c =? d) && bool_decide (x' = [])
          | None => false
          end
      end
  end.

(** Every text [r] matches contains [x]. *)
Fixpoint must_contain (x : str) (r : re) : bool :=
  literal_prefix r x
  || match r with
     | RSeq a b => must_contain x a || must_contain x b
     | RAlt a b => must_contain x a && must_contain x b
     | RPlus a | RGroup _ a => must_contain x a
     | _ => false
     end.

(** [x] occurs in [s]. *)
Definition ocorre (x s : str) : Prop := exists pre post, s = pre ++ x ++ post.

(** *** Numerals *)

(** A numeral the way [float] reads it: digits, then possibly a point and
    more digits. *)
Definition numeral_decimal (s : str) : Prop :=
  exists d1 sep d2,
    s = d1 ++ sep ++ d2 /\ d1 <> []
    /\ Forall (fun c => py_isdecimal c = true) d1
    /\ Forall (fun c => py_isdecimal c = true) d2
    /\ (sep = [] \/ sep = u ".").

(** What the group of a percentage pattern, and of an amount pattern,
    captures: a text that the rewriting of the separators turns into a
    numeral. *)
Definition captura_percentual (i : nat) (w : str) : Prop :=
  match i with
  | 1%nat => numeral_decimal (replace (ch ",") (u ".") w)
  | _ => True
  end.

Definition captura_reais (i : nat) (w : str) : Prop :=
  match i with
  | 1%nat => numeral_decimal (replace (ch ",") (u ".") (replace (ch ".") [] w))
  | _ => True
  end.

(** The expression of the group of the percentage patterns and of the
    group of the amount patterns. *)
Definition re_numeral_percentual : re :=
  RSeq (RPlus (RSet [CsDigit]))
    (RSeq (ROpt (RSet [CsChar (ch "."); CsChar (ch ",")])) (RStar (RSet [CsDigit]))).

Definition re_numeral_reais : re :=
  RSeq (RPlus (RSet [CsDigit]))
    (RSeq (ROpt (RSet [CsChar (ch "."); CsChar (ch ",")]))
       (RSeq (RStar (RSet [CsDigit]))
          (RStar (RSeq (RSet [CsChar (ch ".")]) (RPlus (RSet [CsDigit])))))).

(** *** The texts of a pattern without repetition *)

(** The texts an expression matches, when it has no repetition and no
    class of digits or of spaces, so that they can be listed. *)
Fixpoint lang (r : re) : option (list str) :=
  match r with
  | REps => Some [[]]
  | RFail => Some []
  | RChar c => Some [[c]]
  | RSet cs => mapM (fun x => match x with CsChar c => Some [c] | _ => None end) cs
  | RSeq a b =>
      match lang a, lang b with
      | Some la, Some lb => Some (flat_map (fun w1 => map (fun w2 => w1 ++ w2) lb) la)
      | _, _ => None
      end
  | RAlt a b =>
      match lang a, lang b with
      | Some la, Some lb => Some (la ++ lb)
      | _, _ => None
      end
  | ROpt a =>
      match lang a with
      | Some la => Some (la ++ [[]])
      | None => None
      end
  | RGroup _ a => lang a
  | RStar _ | RPlus _ => None
  end.

(** The spellings a pattern of the dosimetry flags accepts. *)
Definition variantes (p : string) : list str := default [] (lang (re_compile p)).

(** One of the texts [ws] occurs in [s]. *)
Definition ocorre_alguma (ws : list str) (s : str) : bool :=
  existsb (fun w => contains w s) ws.

(** The spellings of the four dosimetry flags. *)
Definition grafias_reincidencia : list str :=
  [u "reincidência"; u "reincidencia"; u "reincidente"].
Definition grafias_boa_fe : list str :=
  [u "boa-fé"; u "boa-fe"; u "boa fé"; u "boa fe"].
Definition grafias_ma_fe : list str :=
  [u "má-fé"; u "má-fe"; u "má fé"; u "má fe"; u "ma-fé"; u "ma-fe"; u "ma fé";
   u "ma fe"].
Definition grafias_cooperacao : list str :=
  [u "cooperação"; u "cooperaçao"; u "cooperacão"; u "cooperacao"; u "cooperoção";
   u "cooperoçao"; u "cooperocão"; u "cooperocao"; u "colaboração"; u "colaboraçao";
   u "colaboracão"; u "colaboracao"; u "colaboroção"; u "colaboroçao"; u "colaborocão";
   u "colaborocao"].

(** * Properties *)

(** ** The matcher *)

Lemma consumed_app (w s' : str) : consumed (w ++ s') s' = w.
Proof.
  unfold consumed. rewrite length_app.
  replace (length w + length s' - length s')%nat with (length w) by lia.
  by rewrite take_app_length.
Qed.

Lemma leaf_in_mem (A : list cset) (x : cset) (c : N) :
  leaf_in A x = true -> cset_mem c x = true -> in_alphabet A c = true.
Proof.
  unfold leaf_in, in_alphabet. rewrite !existsb_exists.
  intros (y & Hy & Hxy) Hc. exists y. split; [done|].
  destruct x, y; simpl in *; try discriminate; try done.
  apply N.eqb_eq in Hxy as ->. done.
Qed.

Lemma alpha_ok_groups_ok (A : list cset) (r : re) :
  alpha_ok A r = true -> groups_ok A r = true.
Proof.
  induction r; simpl; intros H; try done;
    try (apply andb_prop in H as [H1 H2]; apply andb_true_intro; split); auto.
Qed.

Section MatcherSoundness.

Variable Q : nat -> str -> Prop.

Lemma star_loop_sound (a : re) (hg : Prop) step :
  step_sound Q (matches a) hg step ->
  forall n, step_sound Q (matches (RStar a)) hg (star_loop step n).
Proof.
  intros Hstep n. induction n as [|n IH]; intros s g s' g' Hin; simpl in Hin.
  - apply list_elem_of_singleton in Hin. injection Hin as -> ->.
    exists []. split; [done|]. split; [constructor | done].
  - apply elem_of_app in Hin as [Hin|Hin].
    + apply list_elem_of_bind in Hin as ([s1 g1] & Hin & H1).
      destruct (length s1 <? length s)%nat; [|by apply elem_of_nil in Hin].
      apply Hstep in H1 as (w1 & -> & Ha1 & Hg1).
      apply IH in Hin as (w2 & -> & Ha2 & Hg2).
      exists (w1 ++ w2). split; [by rewrite app_assoc|].
      split; [by constructor | auto].
    + apply list_elem_of_singleton in Hin. injection Hin as -> ->.
      exists []. split; [done|]. split; [constructor | done].
Qed.

(** The matcher is sound for the texts an expression denotes. *)
Lemma rmatch_sound (r : re) : step_sound Q (matches r) (groups_sat Q r) (rmatch r).
Proof.
  induction r as [| |c|cs|a IHa b IHb|a IHa b IHb|a IHa|a IHa|a IHa|i a IHa];
    intros s g s' g' Hin; simpl in Hin.
  - apply list_elem_of_singleton in Hin. injection Hin as -> ->.
    exists []. split; [done|]. split; [constructor | done].
  - by apply elem_of_nil in Hin.
  - destruct s as [|d s]; [by apply elem_of_nil in Hin|].
    destruct (c =? d) eqn:E; [|by apply elem_of_nil in Hin].
    apply N.eqb_eq in E as <-.
    apply list_elem_of_singleton in Hin. injection Hin as -> ->.
    exists [c]. split; [done|]. split; [constructor | done].
  - destruct s as [|d s]; [by apply elem_of_nil in Hin|].
    destruct (existsb (cset_mem d) cs) eqn:E; [|by apply elem_of_nil in Hin].
    apply list_elem_of_singleton in Hin. injection Hin as -> ->.
    exists [d]. split; [done|]. split; [by constructor | done].
  - apply list_elem_of_bind in Hin as ([s1 g1] & Hin & H1).
    apply IHa in H1 as (w1 & -> & Ha1 & Hg1).
    apply IHb in Hin as (w2 & -> & Ha2 & Hg2).
    exists (w1 ++ w2). split; [by rewrite app_assoc|].
    split; [by constructor | simpl; intros []; auto].
  - apply elem_of_app in Hin as [Hin|Hin].
    + apply IHa in Hin as (w & -> & Ha1 & Hg1). exists w.
      split; [done|]. split; [by apply M_alt_l | simpl; intros []; auto].
    + apply IHb in Hin as (w & -> & Ha1 & Hg1). exists w.
      split; [done|]. split; [by apply M_alt_r | simpl; intros []; auto].
  - by apply (star_loop_sound _ _ _ IHa) in Hin.
  - apply list_elem_of_bind in Hin as ([s1 g1] & Hin & H1).
    apply IHa in H1 as (w1 & -> & Ha1 & Hg1).
    apply (star_loop_sound _ _ _ IHa) in Hin as (w2 & -> & Ha2 & Hg2).
    exists (w1 ++ w2). split; [by rewrite app_assoc|].
    split; [by constructor | auto].
  - apply elem_of_app in Hin as [Hin|Hin].
    + apply IHa in Hin as (w & -> & Ha1 & Hg1). exists w.
      split; [done|]. split; [by apply M_opt | done].
    + apply list_elem_of_singleton in Hin. injection Hin as -> ->.
      exists []. split; [done|]. split; [constructor | done].
  - apply list_elem_of_bind in Hin as ([s1 g1] & Hin & H1).
    apply list_elem_of_singleton in Hin. injection Hin as -> ->.
    apply IHa in H1 as (w & -> & Ha1 & Hg1).
    exists w. split; [done|]. split; [by constructor|].
    simpl. intros [Hq Hok] Hg j t. rewrite consumed_app, lookup_insert.
    case_decide; [intros [= <-]; subst; auto |]. by apply Hg1.
Qed.

(** The groups of every match found by a scan satisfy [Q]. *)
Lemma scan_groups (r : re) :
  groups_sat Q r -> forall s skip m, m ∈ scan r s skip -> caps_inv Q (m_groups m).
Proof.
  intros Hr s. induction s as [|c s IH]; intros skip m Hin.
  - destruct skip; simpl in Hin; [|by apply elem_of_nil in Hin].
    destruct (head (rmatch r [] ∅)) as [[s' g]|] eqn:E; [|by apply elem_of_nil in Hin].
    apply list_elem_of_singleton in Hin as ->. simpl.
    apply head_Some_elem_of in E. apply rmatch_sound in E as (w & _ & _ & Hg).
    apply Hg; [done|]. intros i t. by rewrite lookup_empty.
  - destruct skip; simpl in Hin; [|by eapply IH].
    destruct (head (rmatch r (c :: s) ∅)) as [[s' g]|] eqn:E; [|by eapply IH].
    apply elem_of_cons in Hin as [->|Hin]; [|by eapply IH]. simpl.
    apply head_Some_elem_of in E. apply rmatch_sound in E as (w & _ & _ & Hg).
    apply Hg; [done|]. intros i t. by rewrite lookup_empty.
Qed.

End MatcherSoundness.

(** A text matched in full is made of the alphabet of the expression. *)
Lemma matches_alphabet (A : list cset) (r : re) (w : str) :
  matches r w -> alpha_ok A r = true -> in_A A w.
Proof.
  unfold in_A. induction 1 as [|c|cs c Hc|a b w1 w2 _ IH1 _ IH2|a b w _ IH|a b w _ IH
                     | |a w1 w2 _ IH1 _ IH2|a w1 w2 _ IH1 _ IH2| |a w _ IH|i a w _ IH];
    simpl; intros Hok; try (by constructor); auto.
  - constructor; [|constructor].
    apply (leaf_in_mem A (CsChar c)); [done | simpl; apply N.eqb_refl].
  - constructor; [|constructor].
    apply existsb_exists in Hc as (x & Hx & Hm).
    rewrite forallb_forall in Hok. by apply (leaf_in_mem A x); [apply Hok|].
  - apply andb_prop in Hok as [? ?]. apply Forall_app; auto.
  - apply andb_prop in Hok as [? ?]. auto.
  - apply andb_prop in Hok as [? ?]. auto.
  - apply Forall_app; auto.
  - apply Forall_app; auto.
Qed.

Lemma groups_ok_sat (A : list cset) (r : re) :
  groups_ok A r = true -> groups_sat (fun _ => in_A A) r.
Proof.
  induction r as [| |c|cs|a IHa b IHb|a IHa b IHb|a IHa|a IHa|a IHa|i a IHa];
    simpl; intros H; try done; auto;
    try (apply andb_prop in H as [? ?]; split; auto).
  split; [|by apply IHa, alpha_ok_groups_ok].
  intros w Hw. by eapply matches_alphabet.
Qed.

(** Every text [re.findall] returns for a pattern whose groups stay in the
    alphabet is made of the alphabet. *)
Lemma re_findall_alphabet (A : list cset) (p : string) (s t : str) :
  groups_ok A (re_compile p) = true ->
  t ∈ re_findall p s -> Forall (fun c => in_alphabet A c = true) t.
Proof.
  intros Hp Hin. unfold re_findall in Hin.
  apply list_elem_of_fmap in Hin as (m & -> & Hm).
  apply (scan_groups _ _ (groups_ok_sat _ _ Hp)) in Hm. unfold group.
  destruct (m_groups m !! 1%nat) as [t|] eqn:E; simpl; [by eapply Hm | constructor].
Qed.

(** A group that every match sets is set in every result of the matcher. *)
Lemma star_loop_keeps (i : nat) step :
  (forall s g s' g', (s', g') ∈ step s g -> is_Some (g !! i) -> is_Some (g' !! i)) ->
  forall n s g s' g', (s', g') ∈ star_loop step n s g -> is_Some (g !! i) -> is_Some (g' !! i).
Proof.
  intros Hstep n. induction n as [|n IH]; intros s g s' g' Hin Hi; simpl in Hin.
  - apply list_elem_of_singleton in Hin. by injection Hin as -> ->.
  - apply elem_of_app in Hin as [Hin|Hin].
    + apply list_elem_of_bind in Hin as ([s1 g1] & Hin & H1).
      destruct (length s1 <? length s)%nat; [|by apply elem_of_nil in Hin].
      eapply IH; [exact Hin|]. by eapply Hstep.
    + apply list_elem_of_singleton in Hin. by injection Hin as -> ->.
Qed.

Lemma rmatch_sets (i : nat) (r : re) :
  forall s g s' g', (s', g') ∈ rmatch r s g ->
    is_Some (g !! i) \/ sets_group i r = true -> is_Some (g' !! i).
Proof.
  induction r as [| |c|cs|a IHa b IHb|a IHa b IHb|a IHa|a IHa|a IHa|j a IHa];
    intros s g s' g' Hin Hi; simpl in Hin, Hi.
  - apply list_elem_of_singleton in Hin. injection Hin as -> ->. by destruct Hi.
  - by apply elem_of_nil in Hin.
  - destruct s as [|d s]; [by apply elem_of_nil in Hin|].
    destruct (c =? d); [|by apply elem_of_nil in Hin].
    apply list_elem_of_singleton in Hin. injection Hin as -> ->. by destruct Hi.
  - destruct s as [|d s]; [by apply elem_of_nil in Hin|].
    destruct (existsb (cset_mem d) cs); [|by apply elem_of_nil in Hin].
    apply list_elem_of_singleton in Hin. injection Hin as -> ->. by destruct Hi.
  - apply list_elem_of_bind in Hin as ([s1 g1] & Hin & H1).
    destruct Hi as [Hi|[Hi|Hi]%orb_prop].
    + eapply IHb; [exact Hin|]. left. eapply IHa; [exact H1 | by left].
    + eapply IHb; [exact Hin|]. left. eapply IHa; [exact H1 | by right].
    + eapply IHb; [exact Hin | by right].
  - apply elem_of_app in Hin as [Hin|Hin].
    + eapply IHa; [exact Hin|]. destruct Hi as [Hi|[Hi _]%andb_prop]; auto.
    + eapply IHb; [exact Hin|]. destruct Hi as [Hi|[_ Hi]%andb_prop]; auto.
  - destruct Hi as [Hi|Hi]; [|done].
    eapply (star_loop_keeps i (rmatch a)); [|exact Hin|exact Hi].
    intros. eapply IHa; [eassumption | by left].
  - apply list_elem_of_bind in Hin as ([s1 g1] & Hin & H1).
    eapply (star_loop_keeps i (rmatch a)); [|exact Hin|].
    + intros. eapply IHa; [eassumption | by left].
    + by eapply IHa.
  - destruct Hi as [Hi|Hi]; [|done].
    apply elem_of_app in Hin as [Hin|Hin].
    + eapply IHa; [exact Hin | by left].
    + apply list_elem_of_singleton in Hin. by injection Hin as -> ->.
  - apply list_elem_of_bind in Hin as ([s1 g1] & Hin & H1).
    apply list_elem_of_singleton in Hin. injection Hin as -> ->.
    rewrite lookup_insert. case_decide; [done|].
    eapply IHa; [exact H1|]. destruct Hi as [Hi|[Hi|Hi]%orb_prop]; auto.
    apply Nat.eqb_eq in Hi. congruence.
Qed.

(** What [re.search] finds: a match whose groups satisfy [Q] and in which
    the groups that every match sets are set. *)
Lemma re_search_groups (Q : nat -> str -> Prop) (p : string) (s : str) (m : rmatch_obj) :
  groups_sat Q (re_compile p) ->
  re_search p s = Some m ->
  caps_inv Q (m_groups m)
  /\ forall i, sets_group i (re_compile p) = true -> is_Some (group m i).
Proof.
  intros HQ Hm. unfold re_search in Hm. apply head_Some_elem_of in Hm.
  split; [by eapply scan_groups|].
  intros i Hi. unfold group. revert Hm. generalize 0%nat.
  induction s as [|c s IH]; intros skip Hm.
  - destruct skip; simpl in Hm; [|by apply elem_of_nil in Hm].
    destruct (head (rmatch _ [] ∅)) as [[s' g]|] eqn:E; [|by apply elem_of_nil in Hm].
    apply list_elem_of_singleton in Hm as ->. simpl.
    apply head_Some_elem_of in E. eapply rmatch_sets; [exact E | by right].
  - destruct skip; simpl in Hm; [|by eapply IH].
    destruct (head (rmatch _ (c :: s) ∅)) as [[s' g]|] eqn:E; [|by eapply IH].
    apply elem_of_cons in Hm as [->|Hm]; [|by eapply IH]. simpl.
    apply head_Some_elem_of in E. eapply rmatch_sets; [exact E | by right].
Qed.

(** ** Floats *)

Lemma float_nonneg_le (f : float) : float_nonneg f = true -> float_le float_zero f = true.
Proof. by destruct f as [[]|[]| |[] ? ?]. Qed.

Lemma float_nonneg_not_nan (f : float) : float_nonneg f = true -> float_isnan f = false.
Proof. by destruct f as [[]|[]| |[] ? ?]. Qed.

Lemma float_le_not_nan (f g : float) : float_le f g = true -> float_isnan f = false.
Proof. by destruct f. Qed.

Lemma shr_1_nonneg (mrs : shr_record) : (0 <= shr_m mrs)%Z -> (0 <= shr_m (shr_1 mrs))%Z.
Proof. destruct mrs as [[|[p|p|]|p] r t]; simpl; lia. Qed.

Lemma iter_pos_invariant {T : Type} (f : T -> T) (P : T -> Prop) :
  (forall x, P x -> P (f x)) -> forall n x, P x -> P (SpecFloat.iter_pos f n x).
Proof. intros Hf n. induction n; simpl; auto. Qed.

Lemma shr_nonneg (mrs : shr_record) (e n : Z) :
  (0 <= shr_m mrs)%Z -> (0 <= shr_m (shr mrs e n).1)%Z.
Proof.
  intros H. destruct n; simpl; try done.
  by apply (iter_pos_invariant shr_1 (fun x => 0 <= shr_m x)%Z shr_1_nonneg).
Qed.

Lemma shr_fexp_nonneg (m e : Z) (l : location) :
  (0 <= m)%Z -> (0 <= shr_m (shr_fexp prec emax m e l).1)%Z.
Proof.
  intros H. unfold shr_fexp. apply shr_nonneg.
  by destruct l as [|[]].
Qed.

Lemma round_nearest_even_nonneg (m : Z) (l : location) :
  (0 <= m)%Z -> (0 <= round_nearest_even m l)%Z.
Proof. intros H. destruct l as [|[]]; simpl; try lia. destruct (Z.even m); lia. Qed.

Lemma binary_round_aux_nonneg (mx ex : Z) (lx : location) :
  (0 <= mx)%Z -> float_nonneg (binary_round_aux prec emax false mx ex lx) = true.
Proof.
  intros H. unfold binary_round_aux.
  pose proof (shr_fexp_nonneg mx ex lx H) as H1.
  destruct (shr_fexp prec emax mx ex lx) as [mrs' e']. simpl in H1.
  pose proof (shr_fexp_nonneg _ e' loc_Exact
                (round_nearest_even_nonneg _ (loc_of_shr_record mrs') H1)) as H2.
  destruct (shr_fexp prec emax _ e' loc_Exact) as [mrs'' e'']. simpl in H2.
  destruct (shr_m mrs''); [done | | lia].
  by destruct (e'' <=? emax - prec)%Z.
Qed.

Lemma float_of_ratio_nonneg (n d : positive) : float_nonneg (float_of_ratio false n d) = true.
Proof.
  unfold float_of_ratio, SFdiv, SFdiv_core_binary.
  set (m' := match _ with Z0 => _ | Z.pos _ => _ | Z.neg _ => _ end).
  assert (0 <= m')%Z as Hm'.
  { subst m'. destruct (_ - _ - _)%Z; try lia. apply Z.shiftl_nonneg. lia. }
  pose proof (Z_div_mod m' (Z.pos d) ltac:(lia)) as Hdiv.
  destruct (Z.div_eucl m' (Z.pos d)) as [q r].
  apply binary_round_aux_nonneg. nia.
Qed.

Lemma float_of_decimal_nonneg (m e : Z) : float_nonneg (float_of_decimal false m e) = true.
Proof.
  destruct m; simpl; try done. destruct e; apply float_of_ratio_nonneg.
Qed.

(** ** Parsing numerals *)

Lemma py_float_raise (s : str) (e : exn) : py_float s = Raise e -> e = ValueError.
Proof.
  unfold py_float. destruct (mapM ascii_fold s); [|congruence].
  destruct (drop_underscores 0 _); [|congruence].
  destruct (take_sign _) as [neg body].
  repeat case_decide; try congruence.
  destruct (parse_decimal body) as [[m k]|]; congruence.
Qed.

Lemma digit_in_spec (zs : list N) (c d : N) :
  digit_in zs c = Some d -> exists z, z ∈ zs /\ z <= c /\ c < z + 10 /\ d = c - z.
Proof.
  induction zs as [|z zs IH]; simpl; [done|].
  destruct ((z <=? c) && (c <? z + 10)) eqn:E.
  - intros [= <-]. apply andb_prop in E as [H1 H2].
    apply N.leb_le in H1. apply N.ltb_lt in H2.
    exists z. split; [left | done].
  - intros (z' & Hin & H)%IH. exists z'. split; [by right | done].
Qed.

Lemma nd_zeros_ascii : Forall (fun z => z = 48 \/ 127 <= z) nd_zeros.
Proof.
  assert (forallb (fun z => (z =? 48) || (127 <=? z)) nd_zeros = true) as H
    by (vm_compute; reflexivity).
  rewrite forallb_forall in H. apply Forall_forall. intros z Hz.
  apply list_elem_of_In, H, orb_prop in Hz as [Hz|Hz];
    [left; by apply N.eqb_eq | right; by apply N.leb_le].
Qed.

Lemma nd_zeros_not_space :
  forallb (fun z => forallb (fun d => negb (py_isspace (z + d))) digit_offsets) nd_zeros = true.
Proof. vm_compute. reflexivity. Qed.

Lemma decimal_not_space (c d : N) : py_decimal c = Some d -> py_isspace c = false.
Proof.
  intros (z & Hin & H1 & H2 & _)%digit_in_spec.
  pose proof nd_zeros_not_space as H. rewrite forallb_forall in H.
  apply list_elem_of_In in Hin. specialize (H z Hin). rewrite forallb_forall in H.
  specialize (H (c - z)).
  replace (z + (c - z)) with c in H by lia.
  apply negb_true_iff, H. unfold digit_offsets. simpl. lia.
Qed.

Lemma ascii_fold_plain (c c' : N) :
  plain_char c = true -> ascii_fold c = Some c' -> c_plain c' = true.
Proof.
  unfold plain_char, ascii_fold, c_plain, py_isdecimal.
  intros Hp. destruct (c <? 127) eqn:Elt.
  - intros [= <-]. apply N.ltb_lt in Elt.
    destruct (py_decimal c) as [d|] eqn:Ed;
      [|apply orb_prop in Hp as [Hp|Hp]; [done | rewrite Hp; apply orb_true_r]].
    apply digit_in_spec in Ed as (z & Hin & H1 & H2 & _).
    pose proof nd_zeros_ascii as H. rewrite Forall_forall in H.
    destruct (H z Hin) as [->|?]; [|lia].
    apply orb_true_iff. left. unfold is_c_digit.
    apply andb_true_iff. split; [apply N.leb_le | apply N.leb_le]; lia.
  - destruct (py_decimal c) as [d|] eqn:Ed.
    + rewrite (decimal_not_space c d Ed). simpl. intros [= <-].
      apply digit_in_spec in Ed as (z & _ & H1 & H2 & ->).
      apply orb_true_iff. left. unfold is_c_digit.
      apply andb_true_iff. split; apply N.leb_le; lia.
    + apply orb_prop in Hp as [Hp|Hp]; [done|].
      apply N.eqb_eq in Hp. subst c. done.
Qed.

Lemma mapM_ascii_fold_plain (s a : str) :
  Forall (fun c => plain_char c = true) s -> mapM ascii_fold s = Some a ->
  Forall (fun c => c_plain c = true) a.
Proof.
  intros Hs Ha. apply mapM_Some in Ha.
  induction Ha as [|c c' s a Hc Hsa IH]; [constructor|].
  inversion Hs; subst. constructor; [by eapply ascii_fold_plain | auto].
Qed.

Lemma Forall_drop_while {T : Type} (P : T -> Prop) (p : T -> bool) (l : list T) :
  Forall P l -> Forall P (drop_while p l).
Proof.
  induction 1 as [|x l Hx Hl IH]; simpl; [constructor|].
  destruct (p x); [done | by constructor].
Qed.

Lemma Forall_c_strip (P : N -> Prop) (s : str) : Forall P s -> Forall P (c_strip s).
Proof.
  intros H. unfold c_strip.
  by apply Forall_rev, Forall_drop_while, Forall_rev, Forall_drop_while.
Qed.

Lemma Forall_drop_underscores (P : N -> Prop) (s s' : str) (prev : N) :
  Forall P s -> drop_underscores prev s = Some s' -> Forall P s'.
Proof.
  intros H. revert prev s'.
  induction H as [|c s Hc Hs IH]; intros prev s'; cbn [drop_underscores].
  - destruct (prev =? ch "_"); [done|]. intros [= <-]. constructor.
  - destruct (c =? ch "_").
    + destruct (is_c_digit prev); [apply IH | done].
    + destruct ((prev =? ch "_") && negb (is_c_digit c)); [done|].
      destruct (drop_underscores c s) as [t|] eqn:E; [|done].
      intros [= <-]. constructor; [done | by eapply IH].
Qed.

Lemma c_plain_cases (c : N) : c_plain c = true -> (48 <= c /\ c <= 57) \/ c = 46.
Proof.
  unfold c_plain, is_c_digit. intros [H|H]%orb_prop.
  - apply andb_prop in H as [H1 H2]. apply N.leb_le in H1, H2. by left.
  - apply N.eqb_eq in H. by right.
Qed.

(** A numeral made of digits and points parses, if at all, to a number
    that is not negative. *)
Lemma py_float_plain (s : str) (f : float) :
  Forall (fun c => plain_char c = true) s -> py_float s = Ok f -> float_nonneg f = true.
Proof.
  intros Hs. unfold py_float.
  destruct (mapM ascii_fold s) as [a|] eqn:Ea; [|done].
  pose proof (mapM_ascii_fold_plain s a Hs Ea) as Ha.
  destruct (drop_underscores 0 (c_strip a)) as [b|] eqn:Eb; [|done].
  pose proof (Forall_drop_underscores _ _ _ _ (Forall_c_strip _ _ Ha) Eb) as Hb.
  assert (take_sign b = (false, b)) as ->.
  { destruct Hb as [|c b Hc Hb]; [done|]. cbn [take_sign].
    apply c_plain_cases in Hc.
    destruct (c =? ch "-") eqn:E1; [apply N.eqb_eq in E1; vm_compute in E1; lia|].
    destruct (c =? ch "+") eqn:E2; [apply N.eqb_eq in E2; vm_compute in E2; lia|]. done. }
  assert (forall w, (exists d w', w = d :: w' /\ 97 <= d) -> ascii_lower <$> b <> w) as Hword.
  { intros w (d & w' & -> & Hd). destruct Hb as [|c b Hc Hb]; [done|].
    rewrite fmap_cons. intros [= Hcd _]. apply c_plain_cases in Hc.
    unfold ascii_lower in Hcd.
    destruct ((65 <=? c) && (c <=? 90)) eqn:E; [|lia].
    apply andb_prop in E as [E1 E2]. apply N.leb_le in E1. lia. }
  repeat case_decide;
    try (exfalso; eapply Hword; [|eassumption]; vm_compute;
         eexists _, _; split; [reflexivity | by intros ?]).
  destruct (parse_decimal b) as [[m k]|]; [|done].
  intros [= <-]. apply float_of_decimal_nonneg.
Qed.

(** ** The two numeric extractors *)

Lemma foldR_app {T X : Type} (f : list T -> X -> result (list T)) (g : X -> list T) :
  (forall b x, f b x = Ok (b ++ g x)) ->
  forall xs b, foldR f b xs = Ok (b ++ (x ← xs; g x)).
Proof.
  intros Hf xs. induction xs as [|x xs IH]; intros b; simpl.
  - by rewrite app_nil_r.
  - rewrite Hf. simpl. rewrite IH. by rewrite app_assoc.
Qed.

Lemma bind_concat_map {T X : Type} (g : X -> list T) (xs : list X) :
  (x ← xs; g x) = concat (map g xs).
Proof. induction xs as [|x xs IH]; [done|]. csimpl. by rewrite IH. Qed.

Lemma omap_bind {T X : Type} (g : X -> option T) (xs : list X) :
  omap g xs = (x ← xs; option_list (g x)).
Proof.
  induction xs as [|x xs IH]; [done|]. csimpl. rewrite IH. by destruct (g x).
Qed.

Lemma passo_percentual_spec (resultados : list float) (m : str) :
  passo_percentual resultados m = Ok (resultados ++ option_list (valor_percentual m)).
Proof.
  unfold passo_percentual, valor_percentual.
  destruct (py_float _) as [v|e] eqn:E.
  - destruct (float_le v _); simpl; by rewrite ?app_nil_r.
  - apply py_float_raise in E as ->. simpl. by rewrite app_nil_r.
Qed.

Lemma passo_reais_spec (resultados : list float) (m : str) :
  passo_reais resultados m = Ok (resultados ++ option_list (valor_reais m)).
Proof.
  unfold passo_reais, valor_reais.
  destruct (py_float _) as [v|e] eqn:E; [done|].
  apply py_float_raise in E as ->. simpl. by rewrite app_nil_r.
Qed.

Lemma extrair_percentual_multa_spec (t : str) :
  extrair_percentual_multa (VStr t)
  = Ok (nonempty (candidatos padroes_percentual valor_percentual (lower t))).
Proof.
  unfold extrair_percentual_multa, candidatos.
  rewrite (foldR_app _ (fun p => omap valor_percentual (re_findall p (lower t)))).
  - done.
  - intros b p. rewrite (foldR_app _ (fun m => option_list (valor_percentual m))).
    + by rewrite omap_bind.
    + apply passo_percentual_spec.
Qed.

Lemma extrair_valor_multa_reais_spec (t : str) :
  extrair_valor_multa_reais (VStr t)
  = Ok (nonempty (candidatos padroes_reais valor_reais (lower t))).
Proof.
  unfold extrair_valor_multa_reais, candidatos.
  rewrite (foldR_app _ (fun p => omap valor_reais (re_findall p (lower t)))).
  - done.
  - intros b p. rewrite (foldR_app _ (fun m => option_list (valor_reais m))).
    + by rewrite omap_bind.
    + apply passo_reais_spec.
Qed.

Lemma elem_of_candidatos (padroes : list string) (valor : str -> option float)
    (texto : str) (v : float) :
  v ∈ candidatos padroes valor texto ->
  exists p m, p ∈ padroes /\ m ∈ re_findall p texto /\ valor m = Some v.
Proof.
  unfold candidatos. intros (p & Hv & Hp)%list_elem_of_bind.
  apply list_elem_of_omap in Hv as (m & Hm & Hv). eauto.
Qed.

Lemma padroes_percentual_groups :
  Forall (fun p => groups_ok numeral_alphabet (re_compile p) = true) padroes_percentual.
Proof. repeat constructor. Qed.

Lemma padroes_reais_groups :
  Forall (fun p => groups_ok numeral_alphabet (re_compile p) = true) padroes_reais.
Proof. repeat constructor. Qed.

Lemma numeral_alphabet_cases (c : N) :
  in_alphabet numeral_alphabet c = true ->
  py_isdecimal c = true \/ c = ch "." \/ c = ch ",".
Proof.
  unfold in_alphabet, numeral_alphabet. cbn [existsb cset_mem].
  intros [H|[H|[H|H]%orb_prop]%orb_prop]%orb_prop; try done.
  - by left.
  - right; left. by apply N.eqb_eq.
  - right; right. by apply N.eqb_eq.
Qed.

Lemma Forall_replace (P : N -> Prop) (old : N) (new s : str) :
  Forall (fun c => c = old \/ P c) s -> Forall P new -> Forall P (replace old new s).
Proof.
  intros Hs Hnew. unfold replace. induction Hs as [|c s Hc Hs IH]; simpl; [constructor|].
  apply Forall_app. split; [|done].
  destruct (c =? old) eqn:E; [done|].
  constructor; [|constructor]. destruct Hc as [->|Hc]; [|done].
  by rewrite N.eqb_refl in E.
Qed.

Lemma plain_point : Forall (fun c => plain_char c = true) (u ".").
Proof. by repeat constructor. Qed.

Lemma numeral_percentual_plain (m : str) :
  Forall (fun c => in_alphabet numeral_alphabet c = true) m ->
  Forall (fun c => plain_char c = true) (replace (ch ",") (u ".") m).
Proof.
  intros Hm. apply Forall_replace; [|apply plain_point].
  eapply Forall_impl; [exact Hm|]. intros c Hc. simpl in Hc.
  apply numeral_alphabet_cases in Hc as [Hc | [-> | ->]]; unfold plain_char.
  - right. by rewrite Hc.
  - right. done.
  - by left.
Qed.

Lemma numeral_reais_plain (m : str) :
  Forall (fun c => in_alphabet numeral_alphabet c = true) m ->
  Forall (fun c => plain_char c = true) (replace (ch ",") (u ".") (replace (ch ".") [] m)).
Proof.
  intros Hm. apply Forall_replace; [|apply plain_point].
  apply Forall_replace; [|constructor].
  eapply Forall_impl; [exact Hm|]. intros c Hc. simpl in Hc.
  apply numeral_alphabet_cases in Hc as [Hc | [-> | ->]]; unfold plain_char.
  - right. right. by rewrite Hc.
  - by left.
  - right. by left.
Qed.

(** Every percentage candidate is a number between 0 and 100. *)
Lemma candidatos_percentual_bounds (texto : str) :
  Forall (fun v => float_nonneg v = true /\ float_le v (float_of_Z 100) = true)
         (candidatos padroes_percentual valor_percentual texto).
Proof.
  apply Forall_forall. intros v (p & m & Hp & Hm & Hv)%elem_of_candidatos.
  pose proof padroes_percentual_groups as Hg. rewrite Forall_forall in Hg.
  apply (re_findall_alphabet _ _ _ _ (Hg p Hp)) in Hm.
  unfold valor_percentual in Hv.
  destruct (py_float _) as [w|] eqn:E; [|done].
  destruct (float_le w _) eqn:Hle; [|done]. injection Hv as <-.
  split; [|done]. eapply py_float_plain; [|exact E].
  by apply numeral_percentual_plain.
Qed.

(** Every amount candidate is a number that is not negative. *)
Lemma candidatos_reais_nonneg (texto : str) :
  Forall (fun v => float_nonneg v = true) (candidatos padroes_reais valor_reais texto).
Proof.
  apply Forall_forall. intros v (p & m & Hp & Hm & Hv)%elem_of_candidatos.
  pose proof padroes_reais_groups as Hg. rewrite Forall_forall in Hg.
  apply (re_findall_alphabet _ _ _ _ (Hg p Hp)) in Hm.
  unfold valor_reais in Hv.
  destruct (py_float _) as [w|] eqn:E; [|done]. injection Hv as <-.
  eapply py_float_plain; [|exact E]. by apply numeral_reais_plain.
Qed.

(** C5. For every input, [extrair_percentual_multa] returns without raising;
    every value of the list it returns lies between 0 and 100; on a string
    the list holds, pattern after pattern, the parsed values of the captured
    numerals that convert and do not exceed 100, the others being left out. *)
Theorem percentuais_entre_0_e_100 (texto : value) :
  exists r, extrair_percentual_multa texto = Ok r
    /\ Forall (fun v => float_le float_zero v = true
                        /\ float_le v (float_of_Z 100) = true) (default [] r)
    /\ r = match texto with
           | VStr t => nonempty (candidatos padroes_percentual valor_percentual (lower t))
           | _ => None
           end.
Proof.
  destruct texto as [| | | |t| |];
    try (exists None; split; [done|]; split; [constructor | done]).
  rewrite extrair_percentual_multa_spec. eexists. split; [done|]. split; [|done].
  pose proof (candidatos_percentual_bounds (lower t)) as H.
  destruct (candidatos _ _ _); simpl; [constructor|].
  eapply Forall_impl; [exact H|]. intros v [H1 H2]. split; [|done].
  by apply float_nonneg_le.
Qed.

(** C7. Every pattern is run on the whole lower-cased text and the result
    is the concatenation, in the order of the patterns, of what each pattern
    contributes; nothing is merged: in the scenario text the first and the
    fifth pattern capture the same mention, and 15.5 appears twice. *)
Theorem percentuais_por_padrao (t : str) :
  extrair_percentual_multa (VStr t)
  = Ok (nonempty (concat (map (fun padrao => omap valor_percentual (re_findall padrao (lower t)))
                              padroes_percentual)))
  /\ map (fun padrao => re_findall padrao (lower texto_condenacao)) padroes_percentual
     = [[u "15,5"]; []; []; []; [u "15,5"]; []; []; []]
  /\ extrair_percentual_multa (VStr texto_condenacao)
     = Ok (Some [float_of_decimal false 155 (-1); float_of_decimal false 155 (-1)]).
Proof.
  split; [|split; vm_compute; reflexivity].
  rewrite extrair_percentual_multa_spec. unfold candidatos.
  by rewrite bind_concat_map.
Qed.

(** C3 on the code. For the text "multa de R$ 1.234,56" the pattern captures
    "1.234" only, so the amount extracted is 1234.0 and not 1234.56, although
    the conversion applied to the numeral "1.234,56" itself gives 1234.56;
    the scenario "multa no valor de R$ 1.500.000,00" gives 1500000.0. *)
Theorem valor_reais_milhar_e_decimal :
  re_findall "multa\s+de\s+r\$\s*(\d+[.,]?\d*(?:\.\d+)*)" (lower texto_milhar_decimal)
  = [u "1.234"]
  /\ extrair_valor_multa_reais (VStr texto_milhar_decimal) = Ok (Some [float_of_Z 1234])
  /\ valor_reais (u "1.234,56") = Some (float_of_decimal false 123456 (-2))
  /\ float_of_Z 1234 <> float_of_decimal false 123456 (-2)
  /\ extrair_valor_multa_reais (VStr texto_valor) = Ok (Some [float_of_Z 1500000]).
Proof. repeat split; try (vm_compute; reflexivity). vm_compute. discriminate. Qed.

(** C2, the part the code does not satisfy: on [None] the dosimetry
    extractor returns the empty dictionary, in which recidivism is not set
    to false. *)
Lemma dosimetria_sem_texto_nao_e_padrao :
  ~ (exists d, extrair_elementos_dosimetria VNone = Ok d
               /\ d !! "reincidencia" = Some (VBool false)).
Proof. intros (d & [= <-] & H). by rewrite lookup_empty in H. Qed.

(** On an input that is not a string the three extractors return at once:
    the numeric ones [None], the dosimetry one the empty dictionary. *)
Lemma extratores_nao_texto (texto : value) :
  is_str texto = false ->
  extrair_percentual_multa texto = Ok None
  /\ extrair_valor_multa_reais texto = Ok None
  /\ extrair_elementos_dosimetria texto = Ok ∅.
Proof. by destruct texto. Qed.

(** C2 as amended. On an input that is not a string the two numeric
    extractors return [None] and the dosimetry extractor returns the empty
    dictionary, in which each of the six fields reads as absent. On a string
    each numeric extractor returns [None] exactly when its patterns yield no
    valid candidate, and the list of the candidates otherwise: never an
    empty list. *)
Theorem extratores_sem_texto (texto : value) :
  is_str texto = false ->
  extrair_percentual_multa texto = Ok None
  /\ extrair_valor_multa_reais texto = Ok None
  /\ extrair_elementos_dosimetria texto = Ok ∅
  /\ Forall (fun elemento => obter elemento (VDict ∅) = VNone) elementos
  /\ (forall t,
        (candidatos padroes_percentual valor_percentual (lower t) = [] <->
         extrair_percentual_multa (VStr t) = Ok None)
        /\ (candidatos padroes_reais valor_reais (lower t) = [] <->
            extrair_valor_multa_reais (VStr t) = Ok None)
        /\ (forall v l, candidatos padroes_percentual valor_percentual (lower t) = v :: l ->
                        extrair_percentual_multa (VStr t) = Ok (Some (v :: l)))
        /\ (forall v l, candidatos padroes_reais valor_reais (lower t) = v :: l ->
                        extrair_valor_multa_reais (VStr t) = Ok (Some (v :: l)))
        /\ extrair_percentual_multa (VStr t) <> Ok (Some [])
        /\ extrair_valor_multa_reais (VStr t) <> Ok (Some [])).
Proof.
  intros H. destruct (extratores_nao_texto texto H) as (Epm & Evm & Ed).
  do 3 (split; [done|]). split; [repeat constructor|].
  intros t. rewrite extrair_percentual_multa_spec, extrair_valor_multa_reais_spec.
  destruct (candidatos padroes_percentual _ _), (candidatos padroes_reais _ _);
    simpl; repeat split; try done; intros; congruence.
Qed.

Lemma extratores_sem_texto_witness :
  is_str (VInt 7) = false
  /\ extrair_elementos_dosimetria (VInt 7) = Ok ∅
  /\ extrair_percentual_multa (VStr (u "o processo foi arquivado")) = Ok None
  /\ extrair_valor_multa_reais (VStr (u "o processo foi arquivado")) = Ok None.
Proof.
  split; [reflexivity|].
  destruct (extratores_sem_texto (VInt 7)) as (_ & _ & Ed & _ & Ht); [reflexivity|].
  destruct (Ht (u "o processo foi arquivado")) as ([Hp _] & [Hr _] & _).
  split; [exact Ed|]. split; [apply Hp | apply Hr]; vm_compute; reflexivity.
Defined.

(** ** The orchestrator *)

Lemma M_bind_run {A B : Type} (m : M A) (f : A -> M B) (σ : store) :
  (m ≫= f) σ = match m σ with
               | (Ok a, σ') => f a σ'
               | (Raise e, σ') => (Raise e, σ')
               end.
Proof. reflexivity. Qed.

Lemma mapR_length {A B : Type} (f : A -> result B) (xs : list A) (ys : list B) :
  mapR f xs = Ok ys -> length ys = length xs.
Proof.
  revert ys. induction xs as [|x xs IH]; intros ys; simpl.
  - by intros [= <-].
  - destruct (f x); [|done]. simpl. destruct (mapR f xs); [|done].
    simpl. intros [= <-]. simpl. f_equal. by apply IH.
Qed.

Lemma mapR_pure {A B : Type} (h : A -> B) (xs : list A) :
  mapR (fun x => Ok (h x)) xs = Ok (h <$> xs).
Proof. induction xs as [|x xs IH]; [done|]. simpl. by rewrite IH. Qed.

Lemma run_steps_app (ps : list (row -> result row)) (p : row -> result row) (r : row) :
  run_steps (ps ++ [p]) r = (r' ← run_steps ps r; p r').
Proof. unfold run_steps. by rewrite foldl_app. Qed.

(** A column pass on the rows reached so far is the pass of each row. *)
Lemma mapR_pass (ps : list (row -> result row)) (c c' : string)
    (g : value -> result value) (rows0 rows : list row) (s : list value) :
  mapR (run_steps ps) rows0 = Ok rows ->
  mapR g (cell c <$> rows) = Ok s ->
  mapR (run_steps (ps ++ [passo_linha c g c'])) rows0 = Ok (zip_with (set_cell c') rows s).
Proof.
  revert rows s. induction rows0 as [|r0 rows0 IH]; intros rows s; simpl.
  - intros [= <-]. simpl. by intros [= <-].
  - rewrite run_steps_app.
    destruct (run_steps ps r0) as [r|]; [|done]. simpl.
    destruct (mapR (run_steps ps) rows0) as [rows'|]; [|done]. simpl.
    intros [= <-]. csimpl.
    destruct (g (cell c r)) as [v|] eqn:Ev; [|done]. simpl.
    destruct (mapR g (cell c <$> rows')) as [s'|] eqn:E; [|done]. simpl.
    intros [= <-]. rewrite (IH rows' s' eq_refl E).
    unfold passo_linha. by rewrite Ev.
Qed.

Lemma select_fmap {A : Type} (f : A -> bool) (xs : list A) :
  select (f <$> xs) xs = List.filter f xs.
Proof.
  induction xs as [|x xs IH]; [done|]. csimpl. rewrite IH. by destruct (f x).
Qed.

Lemma zip_with_orb_fmap {A : Type} (f g : A -> bool) (xs : list A) :
  zip_with orb (f <$> xs) (g <$> xs) = (fun x => f x || g x) <$> xs.
Proof. induction xs as [|x xs IH]; [done|]. csimpl. by rewrite IH. Qed.

Lemma ext_refl (σ : store) : ext σ σ.
Proof. by intros l _. Qed.

Lemma ext_insert (σ0 σ : store) (l : loc) (d : DataFrame) :
  ext σ0 σ -> l ∉ dom σ0 -> ext σ0 (<[l := d]> σ).
Proof.
  intros H Hl l' Hl'. rewrite lookup_insert_ne; [by apply H|]. by intros ->.
Qed.

Lemma ext_dom (σ0 σ : store) : ext σ0 σ -> dom σ0 ⊆ dom σ.
Proof.
  intros H l Hl. apply elem_of_dom. rewrite (H l Hl). by apply elem_of_dom.
Qed.

Lemma ext_fresh (σ0 σ : store) : ext σ0 σ -> fresh (dom σ) ∉ dom σ0.
Proof.
  intros H Hin. apply (ext_dom _ _ H) in Hin. by apply is_fresh in Hin.
Qed.

Lemma M_bind_assoc_run {A B C : Type} (m : M A) (f : A -> M B) (g : B -> M C) (σ : store) :
  ((m ≫= f) ≫= g) σ = (m ≫= (fun x => f x ≫= g)) σ.
Proof.
  rewrite !M_bind_run. destruct (m σ) as [[a|e] σ']; [|done]. by rewrite M_bind_run.
Qed.

Lemma assign_columns (d : DataFrame) (c c' : string) (s : list value) :
  c ∈ df_columns d \/ c = c' -> c ∈ df_columns (assign d c' s).
Proof.
  unfold assign. simpl. intros [H| ->]; case_decide; try done;
    apply elem_of_app; [by left | right; by apply list_elem_of_singleton].
Qed.

Lemma for_each_cons_run {B : Type} (l1 : loc) (x : string) (els : list string)
    (rest : M B) (σ : store) :
  (_ ← for_each (x :: els) (expandir l1); rest) σ
  = (s ← getitem l1 "elementos_dosimetria";
     _ ← setitem l1 ("dosimetria_" +:+ x) (obter x <$> s);
     _ ← for_each els (expandir l1); rest) σ.
Proof.
  cbn [for_each]. rewrite !M_bind_run. unfold expandir. rewrite !M_bind_run.
  destruct (getitem l1 "elementos_dosimetria" σ) as [[s|e] σ1]; [|done].
  rewrite !M_bind_run. by destruct (setitem l1 _ _ σ1) as [[[]|e] σ2].
Qed.

Section Passes.

Context {B : Type}.
Variables (σ0 : store) (d : DataFrame) (l1 : loc).
Variable post : result B -> store -> Prop.
Hypothesis post_raise : forall e σ, ext σ0 σ -> post (Raise e) σ.

Lemma after_assign ps have c g c' cols rows s σ :
  ext σ0 σ -> l1 ∉ dom σ0 ->
  mapR (run_steps ps) (df_rows d) = Ok rows ->
  Forall (fun c => c ∈ cols) have ->
  mapR g (cell c <$> rows) = Ok s ->
  after σ0 d l1 (ps ++ [passo_linha c g c']) (c' :: have)
    (<[l1 := assign (Frame cols rows) c' s]> σ).
Proof.
  intros Hext Hl1 Hrows Hhave Hs. split; [by apply ext_insert|]. split; [done|].
  eexists _, _. split; [by rewrite lookup_insert_eq|].
  split; [by eapply mapR_pass|].
  constructor.
  - apply (assign_columns (Frame cols rows) c' c' s). by right.
  - eapply Forall_impl; [exact Hhave|]. intros x Hx.
    apply (assign_columns (Frame cols rows) x c' s). by left.
Qed.

(** A pass that applies a function which may raise. *)
Lemma pass_rule ps have c g c' (rest : M B) :
  c ∈ have ->
  (forall σ, after σ0 d l1 (ps ++ [passo_linha c g c']) (c' :: have) σ ->
             post (rest σ).1 (rest σ).2) ->
  forall σ, after σ0 d l1 ps have σ ->
    post ((s ← getitem l1 c; s' ← lift (mapR g s); _ ← setitem l1 c' s'; rest) σ).1
         ((s ← getitem l1 c; s' ← lift (mapR g s); _ ← setitem l1 c' s'; rest) σ).2.
Proof.
  intros Hc Hrest σ (Hext & Hl1 & cols & rows & Hσ & Hrows & Hhave).
  rewrite M_bind_run. unfold getitem. rewrite Hσ. simpl.
  rewrite decide_True by (rewrite Forall_forall in Hhave; by apply Hhave).
  rewrite M_bind_run. unfold lift.
  destruct (mapR g (cell c <$> rows)) as [s|e] eqn:Es; [|by apply post_raise].
  rewrite M_bind_run. unfold setitem. rewrite Hσ. simpl.
  rewrite decide_True
    by (apply mapR_length in Es; by rewrite Es, length_fmap).
  apply Hrest. by eapply after_assign.
Qed.

(** A pass that applies a function which cannot raise. *)
Lemma pure_rule ps have c h c' (rest : M B) :
  c ∈ have ->
  (forall σ, after σ0 d l1 (ps ++ [passo_linha c (fun x => Ok (h x)) c']) (c' :: have) σ ->
             post (rest σ).1 (rest σ).2) ->
  forall σ, after σ0 d l1 ps have σ ->
    post ((s ← getitem l1 c; _ ← setitem l1 c' (h <$> s); rest) σ).1
         ((s ← getitem l1 c; _ ← setitem l1 c' (h <$> s); rest) σ).2.
Proof.
  intros Hc Hrest σ (Hext & Hl1 & cols & rows & Hσ & Hrows & Hhave).
  rewrite M_bind_run. unfold getitem. rewrite Hσ. simpl.
  rewrite decide_True by (rewrite Forall_forall in Hhave; by apply Hhave).
  rewrite M_bind_run. unfold setitem. rewrite Hσ. simpl.
  rewrite decide_True by (by rewrite !length_fmap).
  apply Hrest. eapply after_assign; try done. apply mapR_pure.
Qed.

(** The loop over the dosimetry fields. *)
Lemma for_each_rule els : forall ps have (rest : M B),
  "elementos_dosimetria" ∈ have ->
  (forall σ,
      after σ0 d l1
        (ps ++ ((fun elemento =>
                   passo_linha "elementos_dosimetria" (fun x => Ok (obter elemento x))
                     ("dosimetria_" +:+ elemento)) <$> els))
        (rev ((fun elemento => "dosimetria_" +:+ elemento) <$> els) ++ have) σ ->
      post (rest σ).1 (rest σ).2) ->
  forall σ, after σ0 d l1 ps have σ ->
    post ((_ ← for_each els (expandir l1); rest) σ).1
         ((_ ← for_each els (expandir l1); rest) σ).2.
Proof.
  induction els as [|x els IH]; intros ps have rest Hd Hrest σ Hσ.
  - simpl in *. rewrite app_nil_r in Hrest. by apply Hrest.
  - rewrite for_each_cons_run.
    apply (pure_rule ps have "elementos_dosimetria" (obter x)); [done| |done].
    intros σ1 Hσ1.
    apply (IH (ps ++ [passo_linha "elementos_dosimetria" (fun v => Ok (obter x v))
                        ("dosimetria_" +:+ x)])
              (("dosimetria_" +:+ x) :: have) rest); [by right| |done].
    intros σ2 Hσ2. apply Hrest. rewrite !fmap_cons. cbn [rev].
    rewrite <- !app_assoc. rewrite <- !app_assoc in Hσ2. exact Hσ2.
Qed.

End Passes.

Lemma aplicar_post_raise σ0 d col (e : exn) (σ : store) :
  ext σ0 σ -> aplicar_post σ0 d col (Raise e) σ.
Proof. by split. Qed.

Lemma getitem_run (σ : store) (l : loc) (d : DataFrame) (c : string) :
  σ !! l = Some d -> c ∈ df_columns d ->
  getitem l c σ = (Ok (cell c <$> df_rows d), σ).
Proof. intros Hσ Hc. unfold getitem. rewrite Hσ. by rewrite decide_True. Qed.

Lemma filtro_final σ0 d l1 col have (σ : store) :
  "percentual_multa" ∈ have -> "valor_multa_reais" ∈ have ->
  after σ0 d l1 (passos_linha col) have σ ->
  aplicar_post σ0 d col
    ((a ← getitem l1 "percentual_multa";
      b ← getitem l1 "valor_multa_reais";
      df_condenados ← getitem_mask l1 (zip_with orb (notnull <$> a) (notnull <$> b));
      mret df_condenados) σ).1
    ((a ← getitem l1 "percentual_multa";
      b ← getitem l1 "valor_multa_reais";
      df_condenados ← getitem_mask l1 (zip_with orb (notnull <$> a) (notnull <$> b));
      mret df_condenados) σ).2.
Proof.
  intros Ha Hb (Hext & Hl1 & cols & rows & Hσ & Hrows & Hhave).
  rewrite Forall_forall in Hhave.
  assert ((a ← getitem l1 "percentual_multa";
           b ← getitem l1 "valor_multa_reais";
           df_condenados ← getitem_mask l1 (zip_with orb (notnull <$> a) (notnull <$> b));
           mret df_condenados) σ
          = (Ok (fresh (dom σ)),
             <[fresh (dom σ) := Frame cols (List.filter admitida rows)]> σ)) as ->.
  { rewrite M_bind_run, (getitem_run _ _ _ _ Hσ) by (by apply Hhave).
    rewrite M_bind_run, (getitem_run _ _ _ _ Hσ) by (by apply Hhave).
    rewrite M_bind_run. unfold getitem_mask. rewrite Hσ. simpl.
    rewrite decide_True by (by rewrite length_zip_with, !length_fmap, Nat.min_id).
    rewrite <- !list_fmap_compose, zip_with_orb_fmap. by rewrite select_fmap. }
  simpl. split; [apply ext_insert; [done | by apply ext_fresh]|].
  split; [by apply ext_fresh|].
  exists cols, rows. split; [done|]. by rewrite lookup_insert_eq.
Qed.

(** The orchestrator, whatever the store it runs in. *)
Lemma aplicar_extracao_post (σ0 : store) (df : loc) (d : DataFrame) (col : string) :
  σ0 !! df = Some d ->
  aplicar_post σ0 d col (aplicar_extracao_ao_dataframe df col σ0).1
                        (aplicar_extracao_ao_dataframe df col σ0).2.
Proof.
  intros Hdf. unfold aplicar_extracao_ao_dataframe.
  rewrite M_bind_run. unfold df_copy. rewrite Hdf.
  set (l1 := fresh (dom σ0)). cbv zeta.
  assert (after σ0 d l1 [] (df_columns d) (<[l1 := d]> σ0)) as H0.
  { split; [apply ext_insert; [apply ext_refl | apply is_fresh]|].
    split; [apply is_fresh|]. exists (df_columns d), (df_rows d).
    split; [rewrite lookup_insert_eq; by destruct d|]. split.
    - unfold run_steps. simpl. rewrite (mapR_pure id). by rewrite list_fmap_id.
    - by apply Forall_forall. }
  destruct (decide (col ∈ df_columns d)) as [Hcol|Hcol].
  - revert H0. generalize (<[l1 := d]> σ0). intros σ1 H1. revert σ1 H1.
    pose proof (aplicar_post_raise σ0 d col) as Hr.
    eapply (pass_rule σ0 d l1 _ Hr); [done|]. simpl app.
    eapply (pure_rule σ0 d l1); [by left|]. simpl app.
    eapply (pass_rule σ0 d l1 _ Hr); [by do 2 right|]. simpl app.
    eapply (pure_rule σ0 d l1); [by left|]. simpl app.
    eapply (pass_rule σ0 d l1 _ Hr); [by do 4 right|]. simpl app.
    eapply (for_each_rule σ0 d l1); [by left|].
    intros σ2 H2. eapply filtro_final; [| |exact H2].
    + unfold elementos. cbn [fmap list_fmap rev app]. by do 9 right; left.
    + unfold elementos. cbn [fmap list_fmap rev app]. by do 7 right; left.
  - rewrite M_bind_run. unfold getitem. rewrite lookup_insert_eq.
    rewrite decide_False by done. simpl. apply aplicar_post_raise.
    by destruct H0.
Qed.

(** *** The rows of the extended table *)

Lemma cell_set_cell_eq (c : string) (r : row) (v : value) : cell c (set_cell c r v) = v.
Proof. unfold cell, set_cell. simpl. by rewrite lookup_insert_eq. Qed.

Lemma cell_set_cell_ne (c c' : string) (r : row) (v : value) :
  c' <> c -> cell c (set_cell c' r v) = cell c r.
Proof. intros H. unfold cell, set_cell. simpl. by rewrite lookup_insert_ne. Qed.

Ltac cells :=
  repeat (rewrite cell_set_cell_eq || rewrite cell_set_cell_ne by done).

Lemma extrair_linha_inv (col : string) (r r' : row) :
  col ∉ colunas_derivadas -> extrair_linha col r = Ok r' ->
  exists pm vm dd,
    extrair_percentual_multa (cell col r) = Ok pm
    /\ extrair_valor_multa_reais (cell col r) = Ok vm
    /\ extrair_elementos_dosimetria (cell col r) = Ok dd
    /\ row_label r' = row_label r
    /\ cell "percentuais_multa" r' = value_of_floats pm
    /\ cell "percentual_multa" r' = primario pm
    /\ cell "valores_multa_reais" r' = value_of_floats vm
    /\ cell "valor_multa_reais" r' = primario vm
    /\ Forall (fun elemento => cell ("dosimetria_" +:+ elemento) r' = obter elemento (VDict dd))
              elementos
    /\ (forall c, c ∉ colunas_derivadas -> cell c r' = cell c r).
Proof.
  intros Hcol.
  assert (Forall (fun c => c <> col) colunas_derivadas) as Hne.
  { apply Forall_forall. by intros c Hc ->. }
  unfold colunas_derivadas, elementos in Hne.
  cbn [fmap list_fmap app String.app] in Hne.
  repeat (apply Forall_cons_1 in Hne as [? Hne]).
  unfold extrair_linha, run_steps, passos_linha, elementos.
  cbn [fmap list_fmap app foldl String.app].
  unfold passo_linha. cbn [mbind result_bind].
  destruct (extrair_percentual_multa (cell col r)) as [pm|] eqn:Epm; [|done].
  cbn [mbind result_bind fmap result_fmap].
  rewrite !(cell_set_cell_ne col) by done.
  destruct (extrair_valor_multa_reais (cell col r)) as [vm|] eqn:Evm; [|done].
  cbn [mbind result_bind fmap result_fmap].
  rewrite !(cell_set_cell_ne col) by done.
  destruct (extrair_elementos_dosimetria (cell col r)) as [dd|] eqn:Edd; [|done].
  cbn [mbind result_bind fmap result_fmap].
  intros [= <-]. exists pm, vm, dd. unfold primario.
  do 3 (split; [done|]). split; [done|].
  do 4 (split; [by cells|]).
  split.
  - repeat constructor; cbn [String.app]; by cells.
  - intros c Hc.
    assert (Forall (fun c' => c' <> c) colunas_derivadas) as Hnc.
    { apply Forall_forall. by intros c' Hc' ->. }
    unfold colunas_derivadas, elementos in Hnc.
    cbn [fmap list_fmap app String.app] in Hnc.
    repeat (apply Forall_cons_1 in Hnc as [? Hnc]).
    by rewrite !(cell_set_cell_ne c) by done.
Qed.

Lemma Forall2_elem_r {A B : Type} (P : A -> B -> Prop) (l1 : list A) (l2 : list B) :
  Forall2 P l1 l2 -> Forall2 (fun x y => P x y /\ y ∈ l2) l1 l2.
Proof.
  induction 1 as [|x y l1 l2 Hxy _ IH]; constructor.
  - split; [done | by left].
  - eapply Forall2_impl; [exact IH|]. intros a b [? ?]. split; [done | by right].
Qed.

Lemma mapR_Forall2 {A B : Type} (f : A -> result B) (xs : list A) (ys : list B) :
  mapR f xs = Ok ys -> Forall2 (fun x y => f x = Ok y) xs ys.
Proof.
  revert ys. induction xs as [|x xs IH]; intros ys; simpl.
  - intros [= <-]. constructor.
  - destruct (f x) as [y|] eqn:E; [|done]. simpl.
    destruct (mapR f xs) as [ys'|]; [|done]. simpl.
    intros [= <-]. constructor; [done | by apply IH].
Qed.

(** The primary values are numbers: for them, not null and present agree. *)
Lemma primario_percentual_notnull (texto : value) (pm : option (list float)) :
  extrair_percentual_multa texto = Ok pm -> notnull (primario pm) = presente (primario pm).
Proof.
  destruct texto as [| | | |t| |]; try (by intros [= <-]).
  rewrite extrair_percentual_multa_spec. intros H.
  replace pm with (nonempty (candidatos padroes_percentual valor_percentual (lower t)))
    by congruence. clear H.
  pose proof (candidatos_percentual_bounds (lower t)) as Hb.
  destruct (candidatos _ _ _) as [|v l]; [done|]. simpl.
  apply Forall_cons_1 in Hb as [[Hv _] _].
  by rewrite (float_nonneg_not_nan _ Hv).
Qed.

Lemma primario_reais_notnull (texto : value) (vm : option (list float)) :
  extrair_valor_multa_reais texto = Ok vm -> notnull (primario vm) = presente (primario vm).
Proof.
  destruct texto as [| | | |t| |]; try (by intros [= <-]).
  rewrite extrair_valor_multa_reais_spec. intros H.
  replace vm with (nonempty (candidatos padroes_reais valor_reais (lower t)))
    by congruence. clear H.
  pose proof (candidatos_reais_nonneg (lower t)) as Hb.
  destruct (candidatos _ _ _) as [|v l]; [done|]. simpl.
  apply Forall_cons_1 in Hb as [Hv _].
  by rewrite (float_nonneg_not_nan _ Hv).
Qed.

Lemma aplicar_linhas (σ0 : store) (df : loc) (d : DataFrame) (col : string) (l2 : loc) :
  σ0 !! df = Some d ->
  (aplicar_extracao_ao_dataframe df col σ0).1 = Ok l2 ->
  (l2 ∉ dom σ0)
  /\ exists cols linhas,
       Forall2 (fun r r' => extrair_linha col r = Ok r') (df_rows d) linhas
       /\ (aplicar_extracao_ao_dataframe df col σ0).2 !! l2
          = Some (Frame cols (List.filter admitida linhas)).
Proof.
  intros Hdf Hok. pose proof (aplicar_extracao_post σ0 df d col Hdf) as [_ H].
  rewrite Hok in H. destruct H as (Hl2 & cols & linhas & Hrows & Hout).
  split; [done|]. exists cols, linhas. split; [by apply mapR_Forall2 | done].
Qed.

Lemma admitida_tem_evidencia (col : string) (r r' : row) :
  col ∉ colunas_derivadas -> extrair_linha col r = Ok r' ->
  admitida r' = tem_evidencia r'.
Proof.
  intros Hcol (pm & vm & dd & Hpm & Hvm & _ & _ & _ & Hp & _ & Hv & _)%extrair_linha_inv;
    [|done].
  unfold admitida, tem_evidencia. rewrite Hp, Hv.
  by rewrite (primario_percentual_notnull _ _ Hpm), (primario_reais_notnull _ _ Hvm).
Qed.

Lemma filter_admitida (col : string) (rows linhas : list row) :
  col ∉ colunas_derivadas ->
  Forall2 (fun r r' => extrair_linha col r = Ok r') rows linhas ->
  List.filter admitida linhas = List.filter tem_evidencia linhas.
Proof.
  intros Hcol H. induction H as [|r r' rows linhas Hr _ IH]; [done|]. simpl.
  by rewrite IH, (admitida_tem_evidencia col r r').
Qed.

(** C1. When the orchestrator returns a table, its rows are, in order, the
    rows of the extended table whose primary percentage is present or whose
    primary amount is present: for every input row, with the primary values
    the two extractors give for its text, the extended row is in the output
    if and only if one of the two is present. *)
Theorem criterio_de_admissao (σ0 : store) (df : loc) (d : DataFrame) (col : string)
    (l2 : loc) :
  σ0 !! df = Some d ->
  col ∉ colunas_derivadas ->
  (aplicar_extracao_ao_dataframe df col σ0).1 = Ok l2 ->
  exists out linhas,
    (aplicar_extracao_ao_dataframe df col σ0).2 !! l2 = Some out
    /\ df_rows out = List.filter tem_evidencia linhas
    /\ Forall2 (fun r r' =>
         extrair_linha col r = Ok r'
         /\ exists pm vm,
              extrair_percentual_multa (cell col r) = Ok pm
              /\ extrair_valor_multa_reais (cell col r) = Ok vm
              /\ cell "percentual_multa" r' = primario pm
              /\ cell "valor_multa_reais" r' = primario vm
              /\ (r' ∈ df_rows out
                  <-> presente (primario pm) = true \/ presente (primario vm) = true))
         (df_rows d) linhas.
Proof.
  intros Hdf Hcol Hok.
  destruct (aplicar_linhas σ0 df d col l2 Hdf Hok) as (_ & cols & linhas & Hl & Hout).
  eexists _, linhas. split; [exact Hout|]. simpl.
  rewrite (filter_admitida col _ _ Hcol Hl). split; [done|].
  eapply Forall2_impl; [exact (Forall2_elem_r _ _ _ Hl)|].
  intros r r' [Hr Hin]. split; [done|].
  revert Hin. simpl. intros Hin.
    destruct (extrair_linha_inv col r r' Hcol Hr)
      as (pm & vm & dd & Hpm & Hvm & _ & _ & _ & Hp & _ & Hv & _).
  exists pm, vm. do 4 (split; [done|]).
  rewrite list_elem_of_In, filter_In, <- list_elem_of_In.
  unfold tem_evidencia. rewrite Hp, Hv, orb_true_iff. tauto.
Qed.

Lemma criterio_de_admissao_witness :
  exists out,
    (aplicar_extracao_ao_dataframe 5%positive "texto_completo" store_exemplo).2 !! 7%positive
    = Some out
    /\ row_label <$> df_rows out = [10; 13]%Z.
Proof.
  destruct (criterio_de_admissao store_exemplo 5%positive tabela_exemplo "texto_completo"
              7%positive) as (out & linhas & Hout & Hrows & _).
  - reflexivity.
  - apply (bool_decide_unpack _). vm_compute. exact I.
  - vm_compute. reflexivity.
  - exists out. split; [exact Hout|].
    assert ((aplicar_extracao_ao_dataframe 5%positive "texto_completo" store_exemplo).2
              !! 7%positive ≫= (fun o => Some (row_label <$> df_rows o))
            = Some [10; 13]%Z) as H by (vm_compute; reflexivity).
    rewrite Hout in H. simpl in H. congruence.
Defined.

(** C10. When the orchestrator returns a table, a row whose text cell is
    not a string has both lists of candidates and both primary values
    absent, and its extended row is not in the output; every row of the
    output has a string in its text cell. *)
Theorem linha_sem_texto_descartada (σ0 : store) (df : loc) (d : DataFrame) (col : string)
    (l2 : loc) :
  σ0 !! df = Some d ->
  col ∉ colunas_derivadas ->
  (aplicar_extracao_ao_dataframe df col σ0).1 = Ok l2 ->
  exists out,
    (aplicar_extracao_ao_dataframe df col σ0).2 !! l2 = Some out
    /\ Forall (fun r' => is_str (cell col r') = true) (df_rows out)
    /\ Forall (fun r =>
         is_str (cell col r) = false ->
         exists r', extrair_linha col r = Ok r'
           /\ cell "percentuais_multa" r' = VNone
           /\ cell "percentual_multa" r' = VNone
           /\ cell "valores_multa_reais" r' = VNone
           /\ cell "valor_multa_reais" r' = VNone
           /\ r' ∉ df_rows out) (df_rows d).
Proof.
  intros Hdf Hcol Hok.
  destruct (aplicar_linhas σ0 df d col l2 Hdf Hok) as (_ & cols & linhas & Hl & Hout).
  eexists. split; [exact Hout|]. simpl.
  assert (forall r r', extrair_linha col r = Ok r' -> is_str (cell col r) = false ->
            cell col r' = cell col r
            /\ cell "percentuais_multa" r' = VNone /\ cell "percentual_multa" r' = VNone
            /\ cell "valores_multa_reais" r' = VNone /\ cell "valor_multa_reais" r' = VNone
            /\ admitida r' = false) as Hns.
  { intros r r' Hr Hs.
    destruct (extrair_linha_inv col r r' Hcol Hr)
      as (pm & vm & dd & Hpm & Hvm & _ & _ & Hpp & Hp & Hvv & Hv & _ & Hc).
    destruct (extratores_nao_texto _ Hs) as (Epm & Evm & _).
    rewrite Epm in Hpm. rewrite Evm in Hvm. injection Hpm as <-. injection Hvm as <-.
    split; [by apply Hc|]. unfold admitida. by rewrite Hpp, Hp, Hvv, Hv. }
  split.
  - apply Forall_forall. intros r' Hin.
    apply list_elem_of_In, filter_In in Hin as [Hin Hadm].
    apply list_elem_of_In, list_elem_of_lookup in Hin as [i Hi].
    destruct (Forall2_lookup_r _ _ _ _ _ Hl Hi) as (r & _ & Hr).
    destruct (is_str (cell col r)) eqn:Es.
    + destruct (extrair_linha_inv col r r' Hcol Hr) as (pm & vm & dd & H).
      destruct H as (_ & _ & _ & _ & _ & _ & _ & _ & _ & Hc). by rewrite Hc.
    + destruct (Hns r r' Hr Es) as (_ & _ & _ & _ & _ & Hf). congruence.
  - apply Forall_forall. intros r Hin Hs.
    apply list_elem_of_lookup in Hin as [i Hi].
    destruct (Forall2_lookup_l _ _ _ _ _ Hl Hi) as (r' & _ & Hr).
    exists r'. split; [done|].
    destruct (Hns r r' Hr Hs) as (_ & H1 & H2 & H3 & H4 & Hf).
    do 4 (split; [done|]).
    intros Hin. apply list_elem_of_In, filter_In in Hin as [_ Hadm]. congruence.
Qed.

Lemma linha_sem_texto_descartada_witness :
  exists out,
    (aplicar_extracao_ao_dataframe 5%positive "texto_completo" store_exemplo).2 !! 7%positive
    = Some out
    /\ Forall (fun r' => is_str (cell "texto_completo" r') = true) (df_rows out).
Proof.
  destruct (linha_sem_texto_descartada store_exemplo 5%positive tabela_exemplo
              "texto_completo" 7%positive) as (out & Hout & Hstr & _).
  - reflexivity.
  - apply (bool_decide_unpack _). vm_compute. exact I.
  - vm_compute. reflexivity.
  - exists out. split; [exact Hout | exact Hstr].
Defined.

(** C8. A call of the orchestrator leaves the input table, and every other
    object of the store it was called in, as it was, whether it returns or
    raises; the table it returns is an object that did not exist before. *)
Theorem entrada_nao_modificada (σ0 : store) (df : loc) (d : DataFrame) (col : string) :
  σ0 !! df = Some d ->
  (aplicar_extracao_ao_dataframe df col σ0).2 !! df = Some d
  /\ ext σ0 (aplicar_extracao_ao_dataframe df col σ0).2
  /\ match (aplicar_extracao_ao_dataframe df col σ0).1 with
     | Ok l2 => l2 <> df /\ (l2 ∉ dom σ0)
                /\ is_Some ((aplicar_extracao_ao_dataframe df col σ0).2 !! l2)
     | Raise _ => True
     end.
Proof.
  intros Hdf. pose proof (aplicar_extracao_post σ0 df d col Hdf) as [Hext H].
  assert (df ∈ dom σ0) as Hin by (apply elem_of_dom; by rewrite Hdf).
  split; [by rewrite (Hext df Hin)|]. split; [done|].
  destruct (aplicar_extracao_ao_dataframe df col σ0).1 as [l2|]; [|done].
  destruct H as (Hl2 & cols & linhas & _ & Hout).
  split; [by intros ->|]. split; [done | by rewrite Hout].
Qed.

Lemma entrada_nao_modificada_witness :
  (aplicar_extracao_ao_dataframe 5%positive "texto_completo" store_exemplo).2 !! 5%positive
  = Some tabela_exemplo.
Proof.
  destruct (entrada_nao_modificada store_exemplo 5%positive tabela_exemplo "texto_completo")
    as [H _]; [reflexivity | exact H].
Defined.

(** C4. For the scenario text the list of percentages starts with 15.5, the
    value the point-decimal numeral "15.5" denotes; the dosimetry has
    recidivism and good faith true and bad faith false; and the row, here
    the row labelled 10 of the example table, is kept by the orchestrator
    with these values in its cells. *)
Theorem cenario_condenacao :
  percentual_de (VStr texto_condenacao) = Ok (VFloat (float_of_decimal false 155 (-1)))
  /\ py_float (u "15.5") = Ok (float_of_decimal false 155 (-1))
  /\ valor_percentual (u "12,5") = Some (float_of_decimal false 125 (-1))
  /\ fatores_de (VStr texto_condenacao)
     = Ok (Some (VBool true), Some (VBool true), Some (VBool false))
  /\ resumo_da_saida
       (aplicar_extracao_ao_dataframe 5%positive "texto_completo" store_exemplo)
     = Some [ (10%Z, VFloat (float_of_decimal false 155 (-1)), VNone,
               VBool true, VBool true, VBool false);
              (13%Z, VNone, VFloat (float_of_Z 1500000),
               VBool false, VBool false, VBool false) ].
Proof. repeat split; vm_compute; reflexivity. Qed.

(** ** The duration of the conduct *)

Lemma ascii_fold_decimal (c : N) :
  py_isdecimal c = true -> exists c', ascii_fold c = Some c' /\ is_c_digit c' = true.
Proof.
  intros Hc.
  assert (plain_char c = true) as Hp by (unfold plain_char; by rewrite Hc).
  unfold py_isdecimal in Hc. destruct (py_decimal c) as [d|] eqn:Ed; [|done].
  unfold ascii_fold. destruct (c <? 127) eqn:Elt.
  - exists c. split; [done|]. apply N.ltb_lt in Elt.
    apply digit_in_spec in Ed as (z & Hin & H1 & H2 & _).
    pose proof nd_zeros_ascii as H. rewrite Forall_forall in H.
    destruct (H z Hin) as [->|?]; [|lia].
    unfold is_c_digit. apply andb_true_iff. split; apply N.leb_le; lia.
  - rewrite (decimal_not_space c d Ed), Ed. simpl. eexists. split; [done|].
    apply digit_in_spec in Ed as (z & _ & H1 & H2 & ->).
    unfold is_c_digit. apply andb_true_iff. split; apply N.leb_le; lia.
Qed.

Lemma mapM_ascii_fold_decimal (w : str) :
  Forall (fun c => py_isdecimal c = true) w ->
  exists a, mapM ascii_fold w = Some a /\ length a = length w
            /\ Forall (fun c => is_c_digit c = true) a.
Proof.
  intros Hw.
  assert (exists a, Forall2 (fun c c' => ascii_fold c = Some c') w a
                    /\ Forall (fun c => is_c_digit c = true) a) as (a & Ha & Hd).
  { induction Hw as [|c w Hc Hw (a & Ha & Hd)]; [by exists []|].
    destruct (ascii_fold_decimal c Hc) as (c' & Hc' & Hd').
    exists (c' :: a). split; by constructor. }
  exists a. split; [by apply mapM_Some|]. split; [|done].
  symmetry. by eapply Forall2_length.
Qed.

Lemma c_digit_cases (c : N) : is_c_digit c = true -> 48 <= c /\ c <= 57.
Proof.
  unfold is_c_digit. intros [H1 H2]%andb_prop. by apply N.leb_le in H1, H2.
Qed.

Lemma drop_while_head {T : Type} (p : T -> bool) (l : list T) :
  match l with x :: _ => p x = false | [] => True end -> drop_while p l = l.
Proof. destruct l as [|x l]; [done|]. simpl. by intros ->. Qed.

Lemma c_strip_digits (a : str) : Forall (fun c => is_c_digit c = true) a -> c_strip a = a.
Proof.
  intros Ha. unfold c_strip.
  assert (forall l, Forall (fun c => is_c_digit c = true) l ->
                    match l with x :: _ => is_c_space x = false | [] => True end) as Hh.
  { intros l [|c l' Hc _]; [done|]. apply c_digit_cases in Hc as [H1 H2].
    unfold is_c_space. apply orb_false_iff. split.
    - apply andb_false_iff. right. apply N.leb_gt. lia.
    - apply N.eqb_neq. lia. }
  rewrite (drop_while_head _ a) by (by apply Hh).
  rewrite (drop_while_head _ (rev a)) by (by apply Hh, Forall_rev).
  apply rev_involutive.
Qed.

Lemma drop_underscores_digits (a : str) (prev : N) :
  Forall (fun c => is_c_digit c = true) a ->
  prev <> ch "_" \/ a <> [] -> drop_underscores prev a = Some a.
Proof.
  intros Ha. revert prev. induction Ha as [|c a Hc Ha IH]; intros prev Hp.
  - cbn [drop_underscores]. destruct Hp as [Hp|Hp]; [|done].
    by apply N.eqb_neq in Hp as ->.
  - cbn [drop_underscores]. pose proof (c_digit_cases c Hc) as [H1 H2].
    assert ((c =? ch "_") = false) as -> by (apply N.eqb_neq; vm_compute (ch "_"); lia).
    rewrite Hc, andb_false_r. rewrite IH; [done|]. left. vm_compute (ch "_"). lia.
Qed.

Lemma digits_val_nonneg (ds : str) : (0 <= digits_val ds)%Z.
Proof.
  unfold digits_val.
  assert (forall acc, (0 <= acc)%Z ->
    (0 <= fold_left (fun acc d => acc * 10 + Z.of_N (d - 48)) ds acc)%Z) as H.
  { induction ds as [|d ds IH]; intros acc Hacc; simpl; [done|]. apply IH. lia. }
  by apply H.
Qed.

(** [int] succeeds on a non-empty run of decimal digits. *)
Lemma py_int_digits (w : str) :
  w <> [] -> Forall (fun c => py_isdecimal c = true) w ->
  exists n, (0 <= n)%Z
    /\ py_int w = if int_max_str_digits <? N.of_nat (length w)
                  then Raise ValueError else Ok n.
Proof.
  intros Hne Hw. destruct (mapM_ascii_fold_decimal w Hw) as (a & Ha & Hlen & Hd).
  unfold py_int. rewrite Ha, (c_strip_digits a Hd).
  destruct a as [|c a]; [by destruct w|].
  assert (take_sign (c :: a) = (false, c :: a)) as ->.
  { cbn [take_sign]. apply Forall_cons_1 in Hd as [Hc _].
    apply c_digit_cases in Hc as [H1 H2].
    assert ((c =? ch "-") = false) as -> by (apply N.eqb_neq; vm_compute (ch "-"); lia).
    by assert ((c =? ch "+") = false) as -> by (apply N.eqb_neq; vm_compute (ch "+"); lia). }
  rewrite (drop_underscores_digits (c :: a) 0 Hd) by (by right).
  assert (forallb is_c_digit (c :: a) = true) as ->.
  { apply forallb_forall. intros x Hx. rewrite Forall_forall in Hd.
    by apply Hd, list_elem_of_In. }
  rewrite Hlen. eexists. split; [apply digits_val_nonneg | done].
Qed.

(** Inversion of the denotation for the shapes the patterns use. *)
Lemma matches_char (c : N) (w : str) : matches (RChar c) w -> w = [c].
Proof. by inversion 1. Qed.

Lemma matches_seq (a b : re) (w : str) :
  matches (RSeq a b) w -> exists w1 w2, w = w1 ++ w2 /\ matches a w1 /\ matches b w2.
Proof. inversion 1; subst. eauto. Qed.

Lemma matches_alt (a b : re) (w : str) :
  matches (RAlt a b) w -> matches a w \/ matches b w.
Proof. inversion 1; subst; auto. Qed.

Lemma matches_opt (a : re) (w : str) : matches (ROpt a) w -> w = [] \/ matches a w.
Proof. inversion 1; subst; auto. Qed.

Lemma matches_set (cs : list cset) (w : str) :
  matches (RSet cs) w -> exists c, w = [c] /\ existsb (cset_mem c) cs = true.
Proof. inversion 1; subst. eauto. Qed.

Lemma matches_star_digits (w : str) :
  matches (RStar (RSet [CsDigit])) w -> Forall (fun c => py_isdecimal c = true) w.
Proof.
  remember (RStar (RSet [CsDigit])) as r eqn:Er. intros H.
  induction H as [| | | | | | |a w1 w2 H1 _ H2 IH| | | |]; try discriminate; [constructor|].
  injection Er as ->. apply Forall_app. split; [|by apply IH].
  apply matches_set in H1 as (c & -> & Hc). simpl in Hc.
  rewrite orb_false_r in Hc. by repeat constructor.
Qed.

Lemma matches_plus_digits (w : str) :
  matches (RPlus (RSet [CsDigit])) w ->
  w <> [] /\ Forall (fun c => py_isdecimal c = true) w.
Proof.
  inversion 1 as [| | | | | | | |a w1 w2 H1 H2| | |]; subst.
  apply matches_set in H1 as (c & -> & Hc). simpl in Hc. rewrite orb_false_r in Hc.
  split; [done|]. constructor; [done | by apply matches_star_digits].
Qed.

Ltac inv_matches :=
  repeat match goal with
    | H : matches (RAlt _ _) _ |- _ => apply matches_alt in H as [H|H]
    | H : matches (RSeq _ _) _ |- _ =>
        let H1 := fresh "H" in apply matches_seq in H as (? & ? & -> & H1 & H)
    | H : matches (RChar _) _ |- _ => apply matches_char in H as ->
    | H : matches (ROpt _) _ |- _ => apply matches_opt in H as [->|H]
    end.

(** The first group of the duration pattern captures a non-empty run of
    digits and the second one of the six unit texts. *)
Lemma padrao_duracao_grupos : groups_sat captura_duracao (re_compile padrao_duracao).
Proof.
  let r := eval vm_compute in (re_compile padrao_duracao) in
  change (re_compile padrao_duracao) with r.
  simpl groups_sat. repeat split.
  - by apply matches_plus_digits.
  - by apply matches_plus_digits.
  - intros w H. inv_matches; vm_compute; by eexists.
Qed.

Lemma lookup_if_insert (b : bool) (k k' : string) (v : value) (m : gmap string value) :
  k <> k' -> (if b then <[k := v]> m else m) !! k' = m !! k'.
Proof. intros H. destruct b; [by rewrite lookup_insert_ne | done]. Qed.

Lemma lookup_match_insert {T : Type} (o : option T) (k k' : string) (f : T -> value)
    (m : gmap string value) :
  k <> k' ->
  (match o with Some x => <[k := f x]> m | None => m end) !! k' = m !! k'.
Proof. intros H. destruct o; [by rewrite lookup_insert_ne | done]. Qed.

Lemma normalizacao (n : Z) (w : str) (un : unidade_tempo) :
  unidade_de w = Some un ->
  (tem_ano ← value_contains (u "ano") (VStr w);
   if tem_ano : bool then Ok (VInt (n * 12)%Z)
   else
     tem_dia ← value_contains (u "dia") (VStr w);
     if tem_dia : bool then VFloat <$> int_truediv n 30
     else Ok (VInt n)) = em_meses n un.
Proof.
  unfold unidade_de, unidades. cbn [List.find fst snd].
  repeat (case_bool_decide as Hw;
          [intros [= <-]; rewrite <- Hw; cbn [value_contains mbind result_bind]
          | clear Hw]); try done.
  all: match goal with
       | |- context [contains (u "ano") ?x] =>
           let b := eval vm_compute in (contains (u "ano") x) in
           change (contains (u "ano") x) with b
       end; cbv iota; try reflexivity.
  all: match goal with
       | |- context [contains (u "dia") ?x] =>
           let b := eval vm_compute in (contains (u "dia") x) in
           change (contains (u "dia") x) with b
       end; cbv iota; reflexivity.
Qed.

(** C6. The duration field, for every text: absent when the duration
    pattern finds nothing; otherwise the pattern has captured a run of digits
    and one of the unit texts, [int] reads the digits as a number [n] that is
    not negative (and raises beyond the interpreter's limit of digits), and
    the field holds [n] in months: [n * 12] for a year unit, [n] for a month
    unit, [n / 30] for a day unit.  In particular "12 meses" gives 12,
    "1 ano" gives 12 and "30 dias" gives the float 1.0. *)
Theorem duracao_em_meses (t : str) :
  match re_search padrao_duracao (lower t) with
  | None => duracao_de (VStr t) = Ok (Some VNone)
  | Some m =>
      exists num w un n,
        group m 1 = Some num /\ group m 2 = Some w
        /\ unidade_de w = Some un /\ (0 <= n)%Z
        /\ py_int num = (if int_max_str_digits <? N.of_nat (length num)
                         then Raise ValueError else Ok n)
        /\ duracao_de (VStr t) = (n ← py_int num; v ← em_meses n un; Ok (Some v))
  end
  /\ duracao_de (VStr (u "conduta por 12 meses")) = Ok (Some (VInt 12))
  /\ duracao_de (VStr (u "conduta por 1 ano")) = Ok (Some (VInt 12))
  /\ duracao_de (VStr (u "conduta durante 30 dias")) = Ok (Some (VFloat (float_of_Z 1)))
  /\ duracao_de (VStr (u "não houve conduta ilícita")) = Ok (Some VNone).
Proof.
  split; [|repeat split; vm_compute; reflexivity].
  unfold duracao_de, extrair_elementos_dosimetria. cbv zeta.
  destruct (re_search padrao_duracao (lower t)) as [m|] eqn:Em.
  - destruct (re_search_groups _ _ _ _ padrao_duracao_grupos Em) as [Hq Hset].
    destruct (Hset 1%nat) as [num Hnum]; [by vm_compute|].
    destruct (Hset 2%nat) as [w Hw]; [by vm_compute|].
    destruct (Hq 1%nat num Hnum) as [Hne Hdig].
    destruct (Hq 2%nat w Hw) as [un Hun].
    destruct (py_int_digits num Hne Hdig) as (n & Hpos & Hn).
    exists num, w, un, n. do 5 (split; [done|]).
    unfold group_value. rewrite Hnum, Hw. cbn [int_of_value].
    destruct (py_int num) as [n'|]; cbn [mbind result_bind]; [|done].
    rewrite <- (normalizacao n' w un Hun).
    cbn [value_contains mbind result_bind].
    destruct (contains (u "ano") w); cbn [mbind result_bind].
    + by rewrite lookup_insert_eq.
    + destruct (contains (u "dia") w); cbn [mbind result_bind fmap result_fmap].
      * destruct (int_truediv n' 30); cbn [mbind result_bind fmap result_fmap]; [|done].
        f_equal; apply lookup_insert_eq.
      * f_equal; apply lookup_insert_eq.
  - cbn [mbind result_bind].
    by rewrite lookup_match_insert, !lookup_if_insert.
Qed.

(** ** The inference entry point *)

Lemma astype_float_float (v w : value) : astype_float v = Ok w -> exists f, w = VFloat f.
Proof.
  destruct v as [|b|z|f|t|l|d]; simpl; try (intros [= <-]; by eexists); try done.
  - destruct (float_of_int z); [|done]. intros [= <-]. by eexists.
  - destruct (py_float t); [|done]. intros [= <-]. by eexists.
Qed.

Lemma convertivel_float (f : float) : convertivel (VFloat f).
Proof. by exists f. Qed.

Lemma mapR_convertivel (vs : list value) :
  Forall convertivel vs ->
  exists s, mapR astype_float vs = Ok s /\ length s = length vs /\ Forall convertivel s.
Proof.
  induction 1 as [|v vs [f Hv] _ (s & Hs & Hlen & Hall)].
  - by exists [].
  - exists (VFloat f :: s). simpl. rewrite Hv, Hs. simpl.
    repeat split; [by f_equal | constructor; [apply convertivel_float | done]].
Qed.

Lemma elem_of_zip_with_set_cell (c : string) (rs : list row) (s : list value) (r' : row) :
  r' ∈ zip_with (set_cell c) rs s -> exists r v, r ∈ rs /\ v ∈ s /\ r' = set_cell c r v.
Proof.
  revert s. induction rs as [|r rs IH]; intros [|v s]; simpl; try by intros ?%elem_of_nil.
  intros [->|H]%elem_of_cons.
  - exists r, v. repeat split; by left.
  - destruct (IH _ H) as (r0 & v0 & ? & ? & ->).
    exists r0, v0. repeat split; by right.
Qed.

Lemma assign_convertiveis (d : DataFrame) (c : string) (s : list value) :
  binarias_convertiveis d ->
  (c ∈ features_binarias -> Forall convertivel s) ->
  binarias_convertiveis (assign d c s).
Proof.
  intros Hd Hs r' col Hr' Hcol. simpl in Hr'.
  destruct (elem_of_zip_with_set_cell _ _ _ _ Hr') as (r & v & Hr & Hv & ->).
  destruct (decide (col = c)) as [->|Hne].
  - rewrite cell_set_cell_eq.
    specialize (Hs Hcol). rewrite Forall_forall in Hs. by apply Hs.
  - rewrite cell_set_cell_ne by done. by apply Hd.
Qed.

Lemma assign_length (d : DataFrame) (c : string) (s : list value) :
  length s = length (df_rows d) ->
  length (df_rows (assign d c s)) = length (df_rows d).
Proof. intros H. simpl. rewrite length_zip_with. lia. Qed.

Lemma converter_binaria_ok (d : DataFrame) (col : string) :
  binarias_convertiveis d -> col ∈ features_binarias ->
  exists d', converter_binaria d col = Ok d'
    /\ binarias_convertiveis d' /\ length (df_rows d') = length (df_rows d).
Proof.
  intros Hd Hcol. unfold converter_binaria.
  destruct (mapR_convertivel (cell col <$> df_rows d)) as (s & -> & Hlen & Hs).
  { rewrite Forall_fmap, Forall_forall. intros r Hr. by apply Hd. }
  rewrite length_fmap in Hlen.
  exists (assign d col s). repeat split.
  - by apply assign_convertiveis.
  - by apply assign_length.
Qed.

Lemma foldR_converter_binaria (cols : list string) (d : DataFrame) :
  binarias_convertiveis d -> Forall (fun col => col ∈ features_binarias) cols ->
  exists d', foldR converter_binaria d cols = Ok d'
    /\ length (df_rows d') = length (df_rows d).
Proof.
  intros Hd Hcols. revert d Hd.
  induction Hcols as [|col cols Hcol _ IH]; intros d Hd; simpl.
  - by exists d.
  - destruct (converter_binaria_ok d col Hd Hcol) as (d1 & -> & Hd1 & Hlen1).
    cbn [mbind result_bind].
    destruct (IH d1 Hd1) as (d' & -> & Hlen). exists d'. split; [done | congruence].
Qed.


Lemma existentes_binarias (d : DataFrame) :
  Forall (fun col => col ∈ features_binarias) (existentes d features_binarias).
Proof.
  unfold existentes. rewrite Forall_forall. intros col Hcol.
  by apply list_elem_of_filter in Hcol as [_ ?].
Qed.

Lemma assign_columns_inv (d : DataFrame) (c c' : string) (s : list value) :
  c ∈ df_columns (assign d c' s) -> c ∈ df_columns d \/ c = c'.
Proof.
  unfold assign. simpl. case_decide; [by left|].
  intros [?|?%list_elem_of_singleton]%elem_of_app; [by left | by right].
Qed.







(** ** The orchestrator as a function of the input table *)

Lemma pass_run {B : Type} (σ : store) (l1 : loc) (d1 : DataFrame) (c c' : string)
    (g : value -> result value) (rest : M B) :
  σ !! l1 = Some d1 -> c ∈ df_columns d1 ->
  (s ← getitem l1 c; s' ← lift (mapR g s); _ ← setitem l1 c' s'; rest) σ
  = match mapR g (cell c <$> df_rows d1) with
    | Ok s => rest (<[l1 := assign d1 c' s]> σ)
    | Raise e => (Raise e, σ)
    end.
Proof.
  intros Hσ Hc. rewrite M_bind_run, (getitem_run _ _ _ _ Hσ Hc).
  rewrite M_bind_run. unfold lift.
  destruct (mapR g (cell c <$> df_rows d1)) as [s|e] eqn:Es; [|done].
  rewrite M_bind_run. unfold setitem. rewrite Hσ.
  rewrite decide_True; [done|].
  apply mapR_length in Es. by rewrite Es, length_fmap.
Qed.

Lemma pure_run {B : Type} (σ : store) (l1 : loc) (d1 : DataFrame) (c c' : string)
    (h : value -> value) (rest : M B) :
  σ !! l1 = Some d1 -> c ∈ df_columns d1 ->
  (s ← getitem l1 c; _ ← setitem l1 c' (h <$> s); rest) σ
  = rest (<[l1 := assign d1 c' (h <$> (cell c <$> df_rows d1))]> σ).
Proof.
  intros Hσ Hc. rewrite M_bind_run, (getitem_run _ _ _ _ Hσ Hc).
  rewrite M_bind_run. unfold setitem. rewrite Hσ.
  rewrite decide_True; [done|]. by rewrite !length_fmap.
Qed.

Lemma filtro_run (σ : store) (l1 : loc) (d1 : DataFrame) :
  σ !! l1 = Some d1 ->
  "percentual_multa" ∈ df_columns d1 -> "valor_multa_reais" ∈ df_columns d1 ->
  (a ← getitem l1 "percentual_multa";
   b ← getitem l1 "valor_multa_reais";
   df_condenados ← getitem_mask l1 (zip_with orb (notnull <$> a) (notnull <$> b));
   mret df_condenados) σ
  = (Ok (fresh (dom σ)),
     <[fresh (dom σ) := Frame (df_columns d1) (List.filter admitida (df_rows d1))]> σ).
Proof.
  intros Hσ Ha Hb.
  rewrite M_bind_run, (getitem_run _ _ _ _ Hσ Ha).
  rewrite M_bind_run, (getitem_run _ _ _ _ Hσ Hb).
  rewrite M_bind_run. unfold getitem_mask. rewrite Hσ.
  rewrite decide_True by (by rewrite length_zip_with, !length_fmap, Nat.min_id).
  rewrite <- !list_fmap_compose, zip_with_orb_fmap. by rewrite select_fmap.
Qed.

Lemma run_steps_cons (p : row -> result row) (ps : list (row -> result row)) (r : row) :
  run_steps (p :: ps) r = (r' ← p r; run_steps ps r').
Proof.
  unfold run_steps. simpl. destruct (p r) as [r'|e]; [done|]. simpl.
  induction ps as [|q ps IH]; [done|]. simpl. exact IH.
Qed.

Lemma run_steps_app_all (ps qs : list (row -> result row)) (r : row) :
  run_steps (ps ++ qs) r = (r' ← run_steps ps r; run_steps qs r').
Proof.
  revert r. induction ps as [|p ps IH]; intros r; [done|].
  rewrite <- app_comm_cons, !run_steps_cons.
  destruct (p r) as [r'|e]; [|done]. simpl. apply IH.
Qed.

Lemma mapR_raise_elem {A B : Type} (f : A -> result B) (xs : list A) (x : A) (e : exn) :
  x ∈ xs -> f x = Raise e -> exists e', mapR f xs = Raise e'.
Proof.
  induction 1 as [x xs|x y xs _ IH]; intros Hx; simpl.
  - rewrite Hx. by eexists.
  - destruct (f y); [|by eexists]. simpl.
    destruct (IH Hx) as [e' ->]. by eexists.
Qed.

Lemma mapR_raise_inv {A B : Type} (f : A -> result B) (xs : list A) (e : exn) :
  mapR f xs = Raise e -> exists x, x ∈ xs /\ f x = Raise e.
Proof.
  induction xs as [|x xs IH]; simpl; [done|].
  destruct (f x) as [y|e0] eqn:Ex; simpl.
  - destruct (mapR f xs) as [ys|e1]; simpl; [done|].
    intros [= ->]. destruct (IH eq_refl) as (x' & ? & ?).
    exists x'. split; [by right | done].
  - intros [= ->]. exists x. split; [by left | done].
Qed.

Lemma mapR_total {A B : Type} (f : A -> result B) (xs : list A) :
  (forall x, x ∈ xs -> exists y, f x = Ok y) -> exists ys, mapR f xs = Ok ys.
Proof.
  intros H. destruct (mapR f xs) as [ys|e] eqn:E; [by eexists|].
  apply mapR_raise_inv in E as (x & Hx & Ex).
  destruct (H x Hx) as [y Hy]. congruence.
Qed.

Lemma mapR_pass_raise (ps qs : list (row -> result row)) (c c' : string)
    (g : value -> result value) (rows0 rows : list row) (e : exn) :
  mapR (run_steps ps) rows0 = Ok rows ->
  mapR g (cell c <$> rows) = Raise e ->
  exists e', mapR (run_steps (ps ++ passo_linha c g c' :: qs)) rows0 = Raise e'.
Proof.
  intros Hrows Hg.
  apply mapR_raise_inv in Hg as (v & Hv & Hgv).
  apply list_elem_of_fmap in Hv as (r & -> & Hr).
  apply mapR_Forall2 in Hrows.
  destruct (proj1 (list_elem_of_lookup _ _) Hr) as [i Hi].
  destruct (Forall2_lookup_r _ _ _ _ _ Hrows Hi) as (r0 & Hi0 & Hr0).
  apply (mapR_raise_elem _ _ r0 e); [by eapply list_elem_of_lookup_2|].
  rewrite run_steps_app_all, Hr0. cbn [mbind result_bind].
  rewrite run_steps_cons. unfold passo_linha. by rewrite Hgv.
Qed.

Lemma extrair_percentual_multa_total (texto : value) :
  exists pm, extrair_percentual_multa texto = Ok pm.
Proof.
  destruct texto; try by eexists.
  rewrite extrair_percentual_multa_spec. by eexists.
Qed.

Lemma extrair_valor_multa_reais_total (texto : value) :
  exists vm, extrair_valor_multa_reais texto = Ok vm.
Proof.
  destruct texto; try by eexists.
  rewrite extrair_valor_multa_reais_spec. by eexists.
Qed.

Lemma py_int_raise (s : str) (e : exn) : py_int s = Raise e -> e = ValueError.
Proof.
  unfold py_int. destruct (mapM ascii_fold s) as [a|]; [|by intros [= <-]].
  destruct (take_sign (c_strip a)) as [neg body].
  destruct (drop_underscores 0 body) as [[|d ds]|]; try by intros [= <-].
  destruct (forallb is_c_digit (d :: ds)); [|by intros [= <-]].
  destruct (int_max_str_digits <? _); [by intros [= <-] | done].
Qed.

Lemma int_truediv_raise (a b : Z) (e : exn) :
  b <> 0%Z -> int_truediv a b = Raise e -> e = OverflowError.
Proof.
  intros Hb. unfold int_truediv. destruct b; [done| |]; destruct a; try done;
    cbv zeta; destruct (float_of_ratio _ _ _); try done; by intros [= <-].
Qed.

Lemma extrair_elementos_dosimetria_raise (texto : value) (e : exn) :
  extrair_elementos_dosimetria texto = Raise e -> erro_de_extracao e.
Proof.
  destruct texto as [| | | |t| |]; try done.
  unfold extrair_elementos_dosimetria. cbv zeta.
  destruct (re_search padrao_duracao (lower t)) as [m|] eqn:Em; [|done].
  destruct (re_search_groups _ _ _ _ padrao_duracao_grupos Em) as [_ Hset].
  destruct (Hset 1%nat) as [num Hnum]; [by vm_compute|].
  destruct (Hset 2%nat) as [w Hw]; [by vm_compute|].
  unfold group_value. rewrite Hnum, Hw. cbn [int_of_value].
  destruct (py_int num) as [n|e0] eqn:En; cbn [mbind result_bind].
  - cbn [value_contains mbind result_bind].
    destruct (contains (u "ano") w); cbn [mbind result_bind]; [done|].
    destruct (contains (u "dia") w); cbn [mbind result_bind]; [|done].
    destruct (int_truediv n 30) as [f|e1] eqn:Ed; cbn [mbind result_bind fmap result_fmap];
      [done|].
    intros [= <-]. right. by apply (int_truediv_raise n 30).
  - intros [= <-]. left. by apply (py_int_raise num).
Qed.

Lemma pass_run_ins {B : Type} (σ : store) (l1 : loc) (d1 : DataFrame) (c c' : string)
    (g : value -> result value) (rest : M B) :
  c ∈ df_columns d1 ->
  (s ← getitem l1 c; s' ← lift (mapR g s); _ ← setitem l1 c' s'; rest) (<[l1 := d1]> σ)
  = match mapR g (cell c <$> df_rows d1) with
    | Ok s => rest (<[l1 := assign d1 c' s]> σ)
    | Raise e => (Raise e, <[l1 := d1]> σ)
    end.
Proof.
  intros Hc. rewrite (pass_run _ l1 d1) by (done || by rewrite lookup_insert_eq).
  destruct (mapR g _); [|done]. by rewrite insert_insert_eq.
Qed.

Lemma pure_run_ins {B : Type} (σ : store) (l1 : loc) (d1 : DataFrame) (c c' : string)
    (h : value -> value) (rest : M B) :
  c ∈ df_columns d1 ->
  (s ← getitem l1 c; _ ← setitem l1 c' (h <$> s); rest) (<[l1 := d1]> σ)
  = rest (<[l1 := assign d1 c' (h <$> (cell c <$> df_rows d1))]> σ).
Proof.
  intros Hc. rewrite (pure_run _ l1 d1) by (done || by rewrite lookup_insert_eq).
  by rewrite insert_insert_eq.
Qed.

Lemma expandir_run_ins {B : Type} (σ : store) (l1 : loc) (d1 : DataFrame) (x : string)
    (els : list string) (rest : M B) :
  "elementos_dosimetria" ∈ df_columns d1 ->
  (_ ← for_each (x :: els) (expandir l1); rest) (<[l1 := d1]> σ)
  = (_ ← for_each els (expandir l1); rest)
      (<[l1 := assign d1 ("dosimetria_" +:+ x)
                 (obter x <$> (cell "elementos_dosimetria" <$> df_rows d1))]> σ).
Proof. intros Hc. rewrite for_each_cons_run. by apply pure_run_ins. Qed.

Lemma estado_assign (d dk : DataFrame) (ps : list (row -> result row)) (c c' : string)
    (g : value -> result value) (s : list value) :
  mapR (run_steps ps) (df_rows d) = Ok (df_rows dk) ->
  mapR g (cell c <$> df_rows dk) = Ok s ->
  mapR (run_steps (ps ++ [passo_linha c g c'])) (df_rows d) = Ok (df_rows (assign dk c' s)).
Proof. apply mapR_pass. Qed.

Lemma estado_pure (d dk : DataFrame) (ps : list (row -> result row)) (c c' : string)
    (h : value -> value) :
  mapR (run_steps ps) (df_rows d) = Ok (df_rows dk) ->
  mapR (run_steps (ps ++ [passo_linha c (fun x => Ok (h x)) c'])) (df_rows d)
  = Ok (df_rows (assign dk c' (h <$> (cell c <$> df_rows dk)))).
Proof. intros H. eapply estado_assign; [done|]. apply mapR_pure. Qed.

Lemma run_steps_nil (rows : list row) : mapR (run_steps []) rows = Ok rows.
Proof. unfold run_steps. simpl. rewrite (mapR_pure id). by rewrite list_fmap_id. Qed.

Lemma colunas_assign (d dk : DataFrame) (cs : list string) (c : string) (s : list value) :
  df_columns dk = foldl com_coluna (df_columns d) cs ->
  df_columns (assign dk c s) = foldl com_coluna (df_columns d) (cs ++ [c]).
Proof. intros H. rewrite foldl_app. simpl. unfold assign, com_coluna. simpl. by rewrite H. Qed.

Lemma elem_of_com_coluna (cols : list string) (c c' : string) :
  c ∈ cols \/ c = c' -> c ∈ com_coluna cols c'.
Proof.
  unfold com_coluna. intros [H| ->]; case_decide; try done;
    apply elem_of_app; [by left | right; by apply list_elem_of_singleton].
Qed.

Lemma elem_of_foldl_com_coluna (cs cols : list string) (c : string) :
  c ∈ cols \/ c ∈ cs -> c ∈ foldl com_coluna cols cs.
Proof.
  revert cols. induction cs as [|c' cs IH]; intros cols; simpl.
  - by intros [?|?%elem_of_nil].
  - intros [H|[->|H]%elem_of_cons]; apply IH.
    + left. apply elem_of_com_coluna. by left.
    + left. apply elem_of_com_coluna. by right.
    + by right.
Qed.

Ltac coluna_presente C :=
  rewrite C; apply elem_of_foldl_com_coluna;
  ((by left) || (right; repeat ((by left) || right))).

Lemma aplicar_run (σ0 : store) (df : loc) (d : DataFrame) (col : string) :
  σ0 !! df = Some d -> col ∈ df_columns d ->
  match mapR (extrair_linha col) (df_rows d) with
  | Ok rows =>
      aplicar_extracao_ao_dataframe df col σ0
      = (Ok (fresh (dom (<[fresh (dom σ0) := d]> σ0))),
         <[fresh (dom (<[fresh (dom σ0) := d]> σ0))
             := Frame (colunas_da_saida (df_columns d)) (List.filter admitida rows)]>
           (<[fresh (dom σ0) := Frame (colunas_da_saida (df_columns d)) rows]> σ0))
  | Raise _ =>
      exists e, (aplicar_extracao_ao_dataframe df col σ0).1 = Raise e /\ erro_de_extracao e
  end.
Proof.
  intros Hdf Hcol. unfold aplicar_extracao_ao_dataframe.
  rewrite M_bind_run. unfold df_copy. rewrite Hdf. cbv zeta.
  set (l1 := fresh (dom σ0)).
  pose proof (run_steps_nil (df_rows d)) as H0.
  assert (df_columns d = foldl com_coluna (df_columns d) []) as C0 by reflexivity.
  (* percentuais_multa *)
  rewrite pass_run_ins by done.
  destruct (mapR_total (fun x => value_of_floats <$> extrair_percentual_multa x)
              (cell col <$> df_rows d)) as [s1 E1].
  { intros x _. destruct (extrair_percentual_multa_total x) as [pm ->]. by eexists. }
  rewrite E1. pose proof (estado_assign _ _ _ _ "percentuais_multa" _ _ H0 E1) as H1.
  pose proof (colunas_assign _ _ _ "percentuais_multa" s1 C0) as C1.
  set (d1 := assign d "percentuais_multa" s1) in *. clearbody d1.
  (* percentual_multa *)
  rewrite pure_run_ins by coluna_presente C1.
  pose proof (estado_pure _ _ _ "percentuais_multa" "percentual_multa" primeiro H1) as H2.
  pose proof (colunas_assign _ _ _ "percentual_multa"
                (primeiro <$> (cell "percentuais_multa" <$> df_rows d1)) C1) as C2.
  set (d2 := assign d1 "percentual_multa" _) in *. clearbody d2.
  (* valores_multa_reais *)
  rewrite pass_run_ins by coluna_presente C2.
  destruct (mapR_total (fun x => value_of_floats <$> extrair_valor_multa_reais x)
              (cell col <$> df_rows d2)) as [s3 E3].
  { intros x _. destruct (extrair_valor_multa_reais_total x) as [vm ->]. by eexists. }
  rewrite E3. pose proof (estado_assign _ _ _ _ "valores_multa_reais" _ _ H2 E3) as H3.
  pose proof (colunas_assign _ _ _ "valores_multa_reais" s3 C2) as C3.
  set (d3 := assign d2 "valores_multa_reais" s3) in *. clearbody d3.
  (* valor_multa_reais *)
  rewrite pure_run_ins by coluna_presente C3.
  pose proof (estado_pure _ _ _ "valores_multa_reais" "valor_multa_reais" primeiro H3) as H4.
  pose proof (colunas_assign _ _ _ "valor_multa_reais"
                (primeiro <$> (cell "valores_multa_reais" <$> df_rows d3)) C3) as C4.
  set (d4 := assign d3 "valor_multa_reais" _) in *. clearbody d4.
  (* elementos_dosimetria *)
  rewrite pass_run_ins by coluna_presente C4.
  destruct (mapR (fun x => VDict <$> extrair_elementos_dosimetria x) (cell col <$> df_rows d4))
    as [s5|e] eqn:E5.
  - pose proof (estado_assign _ _ _ _ "elementos_dosimetria" _ _ H4 E5) as H5.
    pose proof (colunas_assign _ _ _ "elementos_dosimetria" s5 C4) as C5.
    set (d5 := assign d4 "elementos_dosimetria" s5) in *. clearbody d5.
    unfold elementos.
    rewrite expandir_run_ins by coluna_presente C5.
    pose proof (estado_pure _ _ _ "elementos_dosimetria" "dosimetria_reincidencia"
                  (obter "reincidencia") H5) as H6.
    pose proof (colunas_assign _ _ _ "dosimetria_reincidencia"
                  (obter "reincidencia" <$> (cell "elementos_dosimetria" <$> df_rows d5)) C5)
      as C6.
    set (d6 := assign d5 _ _) in *. clearbody d6.
    rewrite expandir_run_ins by coluna_presente C6.
    pose proof (estado_pure _ _ _ "elementos_dosimetria" "dosimetria_boa_fe"
                  (obter "boa_fe") H6) as H7.
    pose proof (colunas_assign _ _ _ "dosimetria_boa_fe"
                  (obter "boa_fe" <$> (cell "elementos_dosimetria" <$> df_rows d6)) C6) as C7.
    set (d7 := assign d6 _ _) in *. clearbody d7.
    rewrite expandir_run_ins by coluna_presente C7.
    pose proof (estado_pure _ _ _ "elementos_dosimetria" "dosimetria_ma_fe"
                  (obter "ma_fe") H7) as H8.
    pose proof (colunas_assign _ _ _ "dosimetria_ma_fe"
                  (obter "ma_fe" <$> (cell "elementos_dosimetria" <$> df_rows d7)) C7) as C8.
    set (d8 := assign d7 _ _) in *. clearbody d8.
    rewrite expandir_run_ins by coluna_presente C8.
    pose proof (estado_pure _ _ _ "elementos_dosimetria" "dosimetria_cooperacao"
                  (obter "cooperacao") H8) as H9.
    pose proof (colunas_assign _ _ _ "dosimetria_cooperacao"
                  (obter "cooperacao" <$> (cell "elementos_dosimetria" <$> df_rows d8)) C8)
      as C9.
    set (d9 := assign d8 _ _) in *. clearbody d9.
    rewrite expandir_run_ins by coluna_presente C9.
    pose proof (estado_pure _ _ _ "elementos_dosimetria" "dosimetria_gravidade"
                  (obter "gravidade") H9) as H10.
    pose proof (colunas_assign _ _ _ "dosimetria_gravidade"
                  (obter "gravidade" <$> (cell "elementos_dosimetria" <$> df_rows d9)) C9)
      as C10.
    set (d10 := assign d9 _ _) in *. clearbody d10.
    rewrite expandir_run_ins by coluna_presente C10.
    pose proof (estado_pure _ _ _ "elementos_dosimetria" "dosimetria_duracao_conduta"
                  (obter "duracao_conduta") H10) as H11.
    pose proof (colunas_assign _ _ _ "dosimetria_duracao_conduta"
                  (obter "duracao_conduta" <$> (cell "elementos_dosimetria" <$> df_rows d10))
                  C10) as C11.
    set (d11 := assign d10 _ _) in *. clearbody d11.
    assert (mapR (extrair_linha col) (df_rows d) = Ok (df_rows d11)) as -> by exact H11.
    rewrite M_bind_run. cbn [for_each mret M_ret].
    rewrite (filtro_run _ l1 d11);
      [ | by rewrite lookup_insert_eq | coluna_presente C11 | coluna_presente C11 ].
    cbn [app] in C11.
    unfold colunas_da_saida.
    let l := eval vm_compute in colunas_derivadas in change colunas_derivadas with l.
    rewrite <- C11.
    rewrite !dom_insert_L. by destruct d11.
  - destruct (mapR_pass_raise _
                ((fun elemento =>
                    passo_linha "elementos_dosimetria" (fun x => Ok (obter elemento x))
                      ("dosimetria_" +:+ elemento)) <$> elementos)
                _ "elementos_dosimetria" _ _ _ _ H4 E5) as [e' He'].
    assert (mapR (extrair_linha col) (df_rows d) = Raise e') as -> by exact He'.
    exists e. split; [done|].
    apply mapR_raise_inv in E5 as (x & _ & Hx).
    destruct (extrair_elementos_dosimetria x) as [dd|e0] eqn:Ex; [done|].
    injection Hx as ->. by eapply extrair_elementos_dosimetria_raise.
Qed.

(** ** Rows of the extended table *)

Lemma passo_linha_fixo (c c' : string) (g : value -> result value) (r : row) (v : value) :
  g (cell c r) = Ok v -> row_cells r !! c' = Some v -> passo_linha c g c' r = Ok r.
Proof.
  intros Hg Hv. unfold passo_linha. rewrite Hg. cbn [mbind result_bind].
  unfold set_cell. rewrite insert_id by done. by destruct r.
Qed.

Lemma run_steps_fixo (ps : list (row -> result row)) (r : row) :
  Forall (fun p => p r = Ok r) ps -> run_steps ps r = Ok r.
Proof.
  induction 1 as [|p ps Hp _ IH]; [done|]. rewrite run_steps_cons, Hp. exact IH.
Qed.

Ltac chave :=
  cbn [set_cell row_cells String.app];
  repeat (rewrite lookup_insert_ne by done); apply lookup_insert_eq.

Lemma extrair_linha_fixo (col : string) (r r' : row) :
  col ∉ colunas_derivadas -> extrair_linha col r = Ok r' -> extrair_linha col r' = Ok r'.
Proof.
  intros Hcol.
  assert (Forall (fun c => c <> col) colunas_derivadas) as Hne.
  { apply Forall_forall. by intros c Hc ->. }
  unfold colunas_derivadas, elementos in Hne.
  cbn [fmap list_fmap app String.app] in Hne.
  repeat (apply Forall_cons_1 in Hne as [? Hne]).
  unfold extrair_linha at 1. unfold run_steps, passos_linha, elementos.
  cbn [fmap list_fmap app foldl String.app].
  unfold passo_linha. cbn [mbind result_bind].
  destruct (extrair_percentual_multa (cell col r)) as [pm|] eqn:Epm; [|done].
  cbn [mbind result_bind fmap result_fmap].
  rewrite !(cell_set_cell_ne col) by done.
  destruct (extrair_valor_multa_reais (cell col r)) as [vm|] eqn:Evm; [|done].
  cbn [mbind result_bind fmap result_fmap].
  rewrite !(cell_set_cell_ne col) by done.
  destruct (extrair_elementos_dosimetria (cell col r)) as [dd|] eqn:Edd; [|done].
  cbn [mbind result_bind fmap result_fmap].
  intros [= <-]. apply run_steps_fixo.
  unfold passos_linha, elementos. cbn [fmap list_fmap app String.app].
  repeat apply Forall_cons_2; [..|apply Forall_nil_2].
  - eapply passo_linha_fixo; [|chave]. cells. by rewrite Epm.
  - eapply passo_linha_fixo; [|chave]. by cells.
  - eapply passo_linha_fixo; [|chave]. cells. by rewrite Evm.
  - eapply passo_linha_fixo; [|chave]. by cells.
  - eapply passo_linha_fixo; [|chave]. cells. by rewrite Edd.
  - eapply passo_linha_fixo; [|chave]. by cells.
  - eapply passo_linha_fixo; [|chave]. by cells.
  - eapply passo_linha_fixo; [|chave]. by cells.
  - eapply passo_linha_fixo; [|chave]. by cells.
  - eapply passo_linha_fixo; [|chave]. by cells.
  - eapply passo_linha_fixo; [|chave]. by cells.
Qed.

Lemma extrair_linha_ok (col : string) (r : row) (dd : gmap string value) :
  col ∉ colunas_derivadas ->
  extrair_elementos_dosimetria (cell col r) = Ok dd -> exists r', extrair_linha col r = Ok r'.
Proof.
  intros Hcol Edd.
  assert (Forall (fun c => c <> col) colunas_derivadas) as Hne.
  { apply Forall_forall. by intros c Hc ->. }
  unfold colunas_derivadas, elementos in Hne.
  cbn [fmap list_fmap app String.app] in Hne.
  repeat (apply Forall_cons_1 in Hne as [? Hne]).
  unfold extrair_linha, run_steps, passos_linha, elementos.
  cbn [fmap list_fmap app foldl String.app].
  unfold passo_linha. cbn [mbind result_bind].
  destruct (extrair_percentual_multa_total (cell col r)) as [pm ->].
  cbn [mbind result_bind fmap result_fmap].
  rewrite !(cell_set_cell_ne col) by done.
  destruct (extrair_valor_multa_reais_total (cell col r)) as [vm ->].
  cbn [mbind result_bind fmap result_fmap].
  rewrite !(cell_set_cell_ne col) by done.
  rewrite Edd. cbn [mbind result_bind fmap result_fmap]. by eexists.
Qed.

Lemma mapR_fixo {A : Type} (f : A -> result A) (xs : list A) :
  Forall (fun x => f x = Ok x) xs -> mapR f xs = Ok xs.
Proof. induction 1 as [|x xs Hx _ IH]; [done|]. simpl. by rewrite Hx, IH. Qed.

Lemma foldl_com_coluna_presentes (cs cols : list string) :
  Forall (fun c => c ∈ cols) cs -> foldl com_coluna cols cs = cols.
Proof.
  induction 1 as [|c cs Hc _ IH]; [done|]. simpl.
  unfold com_coluna at 2. by rewrite decide_True.
Qed.

Lemma filter_fora (cols cs : list string) (c : string) :
  c ∉ cs -> filter (fun x => x ∉ cols ++ [c]) cs = filter (fun x => x ∉ cols) cs.
Proof.
  induction cs as [|x cs IH]; intros Hc; [done|].
  apply not_elem_of_cons in Hc as [Hx Hc].
  rewrite !filter_cons, (IH Hc).
  destruct (decide (x ∉ cols ++ [c])) as [H1|H1], (decide (x ∉ cols)) as [H2|H2];
    try done; exfalso.
  - apply H2. intros ?. apply H1. apply elem_of_app. by left.
  - apply H1. intros [?|?%list_elem_of_singleton]%elem_of_app; [done|]. by subst.
Qed.

Lemma foldl_com_coluna_novas (cs cols : list string) :
  NoDup cs -> foldl com_coluna cols cs = cols ++ filter (fun c => c ∉ cols) cs.
Proof.
  intros Hnd. revert cols. induction Hnd as [|c cs Hc _ IH]; intros cols; simpl.
  - by rewrite app_nil_r.
  - rewrite IH. unfold com_coluna. rewrite filter_cons. case_decide as Hin.
    + by rewrite decide_False by (by intros ?).
    + rewrite decide_True by done. rewrite <- app_assoc. simpl. do 2 f_equal.
      by apply filter_fora.
Qed.

Lemma colunas_derivadas_NoDup : NoDup colunas_derivadas.
Proof. apply (bool_decide_unpack _). by vm_compute. Qed.

Lemma Forall2_filter_sublist {A B : Type} (R : A -> B -> Prop) (f : B -> bool)
    (xs : list A) (ys : list B) :
  Forall2 R xs ys ->
  exists kept, sublist kept xs /\ Forall2 R kept (List.filter f ys).
Proof.
  induction 1 as [|x y xs ys Hxy _ (kept & Hsub & Hk)]; simpl.
  - exists []. by split.
  - destruct (f y).
    + exists (x :: kept). split; [by constructor | by constructor].
    + exists kept. split; [by constructor | done].
Qed.

Lemma aplicar_sem_coluna (σ0 : store) (df : loc) (d : DataFrame) (col : string) :
  σ0 !! df = Some d -> col ∉ df_columns d ->
  aplicar_extracao_ao_dataframe df col σ0 = (Raise KeyError, <[fresh (dom σ0) := d]> σ0).
Proof.
  intros Hdf Hcol. unfold aplicar_extracao_ao_dataframe.
  rewrite M_bind_run. unfold df_copy. rewrite Hdf. cbv zeta.
  rewrite M_bind_run. unfold getitem. rewrite lookup_insert_eq.
  by rewrite decide_False.
Qed.

Lemma aplicar_ok_inv (σ0 : store) (df : loc) (d : DataFrame) (col : string) (l2 : loc) :
  σ0 !! df = Some d ->
  (aplicar_extracao_ao_dataframe df col σ0).1 = Ok l2 ->
  col ∈ df_columns d
  /\ l2 = fresh (dom (<[fresh (dom σ0) := d]> σ0))
  /\ exists rows,
       mapR (extrair_linha col) (df_rows d) = Ok rows
       /\ (aplicar_extracao_ao_dataframe df col σ0).2
          = <[l2 := Frame (colunas_da_saida (df_columns d)) (List.filter admitida rows)]>
              (<[fresh (dom σ0) := Frame (colunas_da_saida (df_columns d)) rows]> σ0).
Proof.
  intros Hdf Hok.
  destruct (decide (col ∈ df_columns d)) as [Hcol|Hcol];
    [|by rewrite (aplicar_sem_coluna _ _ _ _ Hdf Hcol) in Hok].
  split; [done|].
  pose proof (aplicar_run σ0 df d col Hdf Hcol) as H.
  destruct (mapR (extrair_linha col) (df_rows d)) as [rows|e].
  - rewrite H in Hok |- *. injection Hok as <-. split; [done|]. by exists rows.
  - destruct H as (e' & He' & _). congruence.
Qed.

(** When the text column is not a column of the input table, the call ends
    with [KeyError] at the first read of the column: no table is returned,
    and the store holds nothing new but the working copy. *)
Theorem coluna_de_texto_ausente (σ0 : store) (df : loc) (d : DataFrame) (col : string) :
  σ0 !! df = Some d -> col ∉ df_columns d ->
  aplicar_extracao_ao_dataframe df col σ0 = (Raise KeyError, <[fresh (dom σ0) := d]> σ0).
Proof. apply aplicar_sem_coluna. Qed.

Lemma coluna_de_texto_ausente_witness :
  aplicar_extracao_ao_dataframe 5%positive "texto" store_exemplo
  = (Raise KeyError, <[fresh (dom store_exemplo) := tabela_exemplo]> store_exemplo).
Proof.
  apply (coluna_de_texto_ausente store_exemplo 5%positive tabela_exemplo "texto").
  - reflexivity.
  - apply (bool_decide_unpack _). vm_compute. exact I.
Defined.

(** The outcome of a call, read off the input table: a table is returned
    exactly when the text column exists and the dosimetry extractor raises on
    the text of no row; otherwise the call ends with [KeyError] (no such
    column) or with the [ValueError] or [OverflowError] of a duration the
    dosimetry extractor could not convert.  The two numeric extractors never
    make the call fail. *)
Theorem retorno_da_extracao (σ0 : store) (df : loc) (d : DataFrame) (col : string) :
  σ0 !! df = Some d -> col ∉ colunas_derivadas ->
  match (aplicar_extracao_ao_dataframe df col σ0).1 with
  | Ok _ =>
      col ∈ df_columns d
      /\ Forall (fun r => exists dd, extrair_elementos_dosimetria (cell col r) = Ok dd)
                (df_rows d)
  | Raise e =>
      (e = KeyError /\ col ∉ df_columns d)
      \/ (erro_de_extracao e /\ col ∈ df_columns d
          /\ Exists (fun r => exists e', extrair_elementos_dosimetria (cell col r) = Raise e')
                    (df_rows d))
  end.
Proof.
  intros Hdf Hder.
  destruct (decide (col ∈ df_columns d)) as [Hcol|Hcol];
    [|rewrite (aplicar_sem_coluna _ _ _ _ Hdf Hcol); by left].
  pose proof (aplicar_run σ0 df d col Hdf Hcol) as H.
  destruct (mapR (extrair_linha col) (df_rows d)) as [rows|e0] eqn:E.
  - rewrite H. simpl. split; [done|].
    apply mapR_Forall2 in E. apply Forall_forall. intros r Hr.
    apply list_elem_of_lookup in Hr as [i Hi].
    destruct (Forall2_lookup_l _ _ _ _ _ E Hi) as (r' & _ & Hr').
    destruct (extrair_linha_inv col r r' Hder Hr') as (_ & _ & dd & _ & _ & Hdd & _).
    by exists dd.
  - destruct H as (e & -> & He). right. do 2 (split; [done|]).
    apply mapR_raise_inv in E as (r & Hr & Er).
    apply Exists_exists. exists r. split; [done|].
    destruct (extrair_elementos_dosimetria (cell col r)) as [dd|e'] eqn:Edd; [|by eexists].
    destruct (extrair_linha_ok col r dd Hder Edd) as [r' Hr']. congruence.
Qed.

Lemma retorno_da_extracao_witness :
  match (aplicar_extracao_ao_dataframe 5%positive "texto_completo" store_exemplo).1 with
  | Ok _ =>
      "texto_completo" ∈ df_columns tabela_exemplo
      /\ Forall (fun r => exists dd,
                   extrair_elementos_dosimetria (cell "texto_completo" r) = Ok dd)
                (df_rows tabela_exemplo)
  | Raise e =>
      (e = KeyError /\ "texto_completo" ∉ df_columns tabela_exemplo)
      \/ (erro_de_extracao e /\ "texto_completo" ∈ df_columns tabela_exemplo
          /\ Exists (fun r => exists e',
                       extrair_elementos_dosimetria (cell "texto_completo" r) = Raise e')
                    (df_rows tabela_exemplo))
  end.
Proof.
  apply (retorno_da_extracao store_exemplo 5%positive tabela_exemplo "texto_completo").
  - reflexivity.
  - apply (bool_decide_unpack _). vm_compute. exact I.
Defined.

(** The columns of the table returned: the columns of the input, in their
    order, followed by those of the eleven derived columns that the input did
    not have, in the order in which the orchestrator writes them. *)
Theorem colunas_da_tabela_extraida (σ0 : store) (df : loc) (d : DataFrame) (col : string)
    (l2 : loc) :
  σ0 !! df = Some d ->
  (aplicar_extracao_ao_dataframe df col σ0).1 = Ok l2 ->
  exists out,
    (aplicar_extracao_ao_dataframe df col σ0).2 !! l2 = Some out
    /\ df_columns out
       = df_columns d ++ filter (fun c => c ∉ df_columns d) colunas_derivadas
    /\ Forall (fun c => c ∈ df_columns out) colunas_derivadas.
Proof.
  intros Hdf Hok.
  destruct (aplicar_ok_inv σ0 df d col l2 Hdf Hok) as (_ & _ & rows & _ & ->).
  eexists. split; [by rewrite lookup_insert_eq|]. simpl. split.
  - apply foldl_com_coluna_novas, colunas_derivadas_NoDup.
  - apply Forall_forall. intros c Hc. apply elem_of_foldl_com_coluna. by right.
Qed.

Lemma colunas_da_tabela_extraida_witness :
  exists out,
    (aplicar_extracao_ao_dataframe 5%positive "texto_completo" store_exemplo).2 !! 7%positive
    = Some out
    /\ df_columns out
       = df_columns tabela_exemplo
         ++ filter (fun c => c ∉ df_columns tabela_exemplo) colunas_derivadas
    /\ Forall (fun c => c ∈ df_columns out) colunas_derivadas.
Proof.
  apply (colunas_da_tabela_extraida store_exemplo 5%positive tabela_exemplo
           "texto_completo" 7%positive).
  - reflexivity.
  - vm_compute. reflexivity.
Defined.

(** The rows of the table returned are, in the order of the input, extended
    copies of some of its rows: each keeps the index label of the input row
    it comes from and the value of every column that is not a derived
    column. *)
Theorem linhas_preservadas (σ0 : store) (df : loc) (d : DataFrame) (col : string)
    (l2 : loc) :
  σ0 !! df = Some d -> col ∉ colunas_derivadas ->
  (aplicar_extracao_ao_dataframe df col σ0).1 = Ok l2 ->
  exists out kept,
    (aplicar_extracao_ao_dataframe df col σ0).2 !! l2 = Some out
    /\ sublist kept (df_rows d)
    /\ Forall2 (fun r r' =>
                  row_label r' = row_label r
                  /\ forall c, c ∉ colunas_derivadas -> cell c r' = cell c r)
               kept (df_rows out).
Proof.
  intros Hdf Hder Hok.
  destruct (aplicar_ok_inv σ0 df d col l2 Hdf Hok) as (_ & _ & rows & Hrows & ->).
  apply mapR_Forall2 in Hrows.
  destruct (Forall2_filter_sublist _ admitida _ _ Hrows) as (kept & Hsub & Hk).
  eexists _, kept. split; [by rewrite lookup_insert_eq|]. split; [done|]. simpl.
  eapply Forall2_impl; [exact Hk|]. intros r r' Hr.
  destruct (extrair_linha_inv col r r' Hder Hr)
    as (_ & _ & _ & _ & _ & _ & Hl & _ & _ & _ & _ & _ & Hc).
  by split.
Qed.

Lemma linhas_preservadas_witness :
  exists out kept,
    (aplicar_extracao_ao_dataframe 5%positive "texto_completo" store_exemplo).2 !! 7%positive
    = Some out
    /\ sublist kept (df_rows tabela_exemplo)
    /\ Forall2 (fun r r' =>
                  row_label r' = row_label r
                  /\ forall c, c ∉ colunas_derivadas -> cell c r' = cell c r)
               kept (df_rows out).
Proof.
  apply (linhas_preservadas store_exemplo 5%positive tabela_exemplo "texto_completo"
           7%positive).
  - reflexivity.
  - apply (bool_decide_unpack _). vm_compute. exact I.
  - vm_compute. reflexivity.
Defined.

(** Applying the orchestrator to the table it returned gives that table
    again, as a new object: the same columns, and the same rows with the same
    values; nothing is dropped and the call does not fail. *)
Theorem extracao_idempotente (σ0 : store) (df : loc) (d : DataFrame) (col : string)
    (l2 : loc) :
  σ0 !! df = Some d -> col ∉ colunas_derivadas ->
  (aplicar_extracao_ao_dataframe df col σ0).1 = Ok l2 ->
  exists out l3,
    (aplicar_extracao_ao_dataframe df col σ0).2 !! l2 = Some out
    /\ (aplicar_extracao_ao_dataframe l2 col (aplicar_extracao_ao_dataframe df col σ0).2).1
       = Ok l3
    /\ (aplicar_extracao_ao_dataframe l2 col (aplicar_extracao_ao_dataframe df col σ0).2).2
         !! l3 = Some out
    /\ l3 <> l2.
Proof.
  intros Hdf Hder Hok.
  destruct (aplicar_ok_inv σ0 df d col l2 Hdf Hok) as (Hcol & _ & rows & Hrows & ->).
  set (cs := colunas_da_saida (df_columns d)).
  set (out := Frame cs (List.filter admitida rows)).
  set (σ1 := <[l2 := out]> _).
  assert (σ1 !! l2 = Some out) as Hout by apply lookup_insert_eq.
  assert (col ∈ df_columns out) as Hcol'.
  { apply elem_of_foldl_com_coluna. by left. }
  assert (mapR (extrair_linha col) (df_rows out) = Ok (df_rows out)) as Hfix.
  { apply mapR_fixo, Forall_forall. intros r' Hr'.
    apply list_elem_of_In, filter_In in Hr' as [Hr' _].
    apply list_elem_of_In, list_elem_of_lookup in Hr' as [i Hi].
    apply mapR_Forall2 in Hrows.
    destruct (Forall2_lookup_r _ _ _ _ _ Hrows Hi) as (r & _ & Hr).
    by eapply extrair_linha_fixo. }
  pose proof (aplicar_run σ1 l2 out col Hout Hcol') as H. rewrite Hfix in H.
  exists out, (fresh (dom (<[fresh (dom σ1) := out]> σ1))).
  split; [done|]. rewrite H. cbn [fst snd]. split; [done|]. split.
  - rewrite lookup_insert_eq. f_equal. subst out. cbn [df_columns df_rows]. f_equal.
    + apply foldl_com_coluna_presentes, Forall_forall. intros c Hc.
      apply elem_of_foldl_com_coluna. by right.
    + clear. induction rows as [|r rows IH]; [done|]. simpl.
      destruct (admitida r) eqn:E; [|done]. simpl. by rewrite E, IH.
  - intros Heq. pose proof (is_fresh (dom (<[fresh (dom σ1) := out]> σ1))) as Hf.
    rewrite Heq in Hf. apply Hf. rewrite dom_insert. apply elem_of_union. right.
    apply elem_of_dom. by eexists.
Qed.

Lemma extracao_idempotente_witness :
  exists out l3,
    (aplicar_extracao_ao_dataframe 5%positive "texto_completo" store_exemplo).2 !! 7%positive
    = Some out
    /\ (aplicar_extracao_ao_dataframe 7%positive "texto_completo"
          (aplicar_extracao_ao_dataframe 5%positive "texto_completo" store_exemplo).2).1
       = Ok l3
    /\ (aplicar_extracao_ao_dataframe 7%positive "texto_completo"
          (aplicar_extracao_ao_dataframe 5%positive "texto_completo" store_exemplo).2).2
         !! l3 = Some out
    /\ l3 <> 7%positive.
Proof.
  apply (extracao_idempotente store_exemplo 5%positive tabela_exemplo "texto_completo"
           7%positive).
  - reflexivity.
  - apply (bool_decide_unpack _). vm_compute. exact I.
  - vm_compute. reflexivity.
Defined.

(** ** The dosimetry record of a text *)

Lemma padrao_gravidade_grupos : groups_sat captura_gravidade (re_compile padrao_gravidade).
Proof.
  let r := eval vm_compute in (re_compile padrao_gravidade) in
  change (re_compile padrao_gravidade) with r.
  simpl groups_sat. repeat split.
  intros w H. inv_matches; apply (bool_decide_unpack _); by vm_compute.
Qed.

Lemma lookup_if_insert_eq (b : bool) (k : string) (m : gmap string value) :
  m !! k = Some (VBool false) ->
  (if b then <[k := VBool true]> m else m) !! k = Some (VBool b).
Proof. intros H. destruct b; [apply lookup_insert_eq | done]. Qed.

Lemma dom_if_insert (b : bool) (k : string) (v : value) (m : gmap string value) :
  is_Some (m !! k) -> dom (if b then <[k := v]> m else m) = dom m.
Proof. intros H. destruct b; [by apply dom_insert_lookup_L | done]. Qed.

Lemma dom_match_insert {T : Type} (o : option T) (k : string) (f : T -> value)
    (m : gmap string value) :
  is_Some (m !! k) ->
  dom (match o with Some x => <[k := f x]> m | None => m end) = dom m.
Proof. intros H. destruct o; [by apply dom_insert_lookup_L | done]. Qed.

Lemma int_truediv_nonneg (n : Z) (f : float) :
  (0 <= n)%Z -> int_truediv n 30 = Ok f -> float_nonneg f = true.
Proof.
  intros Hn. unfold int_truediv. destruct n as [|p|p]; [by intros [= <-]| |lia].
  cbv zeta. assert ((Z.pos p <? 0)%Z = false) as -> by (apply Z.ltb_ge; lia).
  change (xorb false (30 <? 0)%Z) with false.
  pose proof (float_of_ratio_nonneg (Z.to_pos (Z.abs (Z.pos p))) (Z.to_pos (Z.abs 30))) as H.
  destruct (float_of_ratio false _ _); try done; by intros [= <-].
Qed.

Lemma em_meses_valida (n : Z) (un : unidade_tempo) (v : value) :
  (0 <= n)%Z -> em_meses n un = Ok v -> duracao_valida v.
Proof.
  intros Hn. destruct un; cbn [em_meses].
  - intros [= <-]. right; left. exists (n * 12)%Z. split; [lia | done].
  - intros [= <-]. right; left. by exists n.
  - destruct (int_truediv n 30) as [f|] eqn:E; simpl; [|done].
    intros [= <-].
    right; right. exists f. split; [by eapply int_truediv_nonneg | done].
Qed.

Lemma normalizacao_bind {B : Type} (n : Z) (w : str) (un : unidade_tempo)
    (k : value -> result B) :
  unidade_de w = Some un ->
  (tem_ano ← value_contains (u "ano") (VStr w);
   valor ← (if tem_ano : bool then Ok (VInt (n * 12)%Z)
            else
              tem_dia ← value_contains (u "dia") (VStr w);
              if tem_dia : bool then VFloat <$> int_truediv n 30
              else Ok (VInt n));
   k valor) = (v ← em_meses n un; k v).
Proof.
  intros H. rewrite <- (normalizacao n w un H).
  by cbn [value_contains mbind result_bind].
Qed.

Lemma dosimetria_forma (t : str) :
  match extrair_elementos_dosimetria (VStr t) with
  | Ok dd =>
      dom dd = list_to_set elementos
      /\ dd !! "reincidencia"
         = Some (VBool (found "reincid[êe]ncia" (lower t) || found "reincidente" (lower t)))
      /\ dd !! "boa_fe" = Some (VBool (found "boa[- ]f[ée]" (lower t)))
      /\ dd !! "ma_fe" = Some (VBool (found "m[áa][- ]f[ée]" (lower t)))
      /\ dd !! "cooperacao"
         = Some (VBool (found "cooper[ao][çc][ãa]o" (lower t)
                        || found "colabor[ao][çc][ãa]o" (lower t)))
      /\ (exists g, dd !! "gravidade" = Some g /\ gravidade_valida g)
      /\ (exists v, dd !! "duracao_conduta" = Some v /\ duracao_valida v)
  | Raise e => erro_de_extracao e /\ is_Some (re_search padrao_duracao (lower t))
  end.
Proof.
  unfold extrair_elementos_dosimetria. cbv zeta.
  match goal with
  | |- context [<["duracao_conduta" := _]> ?m] => set (M := m)
  end.
  assert (dom M = list_to_set elementos
          /\ M !! "reincidencia"
             = Some (VBool (found "reincid[êe]ncia" (lower t) || found "reincidente" (lower t)))
          /\ M !! "boa_fe" = Some (VBool (found "boa[- ]f[ée]" (lower t)))
          /\ M !! "ma_fe" = Some (VBool (found "m[áa][- ]f[ée]" (lower t)))
          /\ M !! "cooperacao"
             = Some (VBool (found "cooper[ao][çc][ãa]o" (lower t)
                            || found "colabor[ao][çc][ãa]o" (lower t)))
          /\ (exists g, M !! "gravidade" = Some g /\ gravidade_valida g)
          /\ M !! "duracao_conduta" = Some VNone) as HM.
  { subst M. repeat split.
    - rewrite dom_match_insert.
      + rewrite !dom_if_insert; [done|..]; rewrite ?lookup_if_insert by done; by eexists.
      + rewrite !lookup_if_insert by done. by eexists.
    - rewrite lookup_match_insert, !lookup_if_insert by done.
      by apply lookup_if_insert_eq.
    - rewrite lookup_match_insert, !lookup_if_insert by done.
      apply lookup_if_insert_eq. by rewrite lookup_if_insert.
    - rewrite lookup_match_insert, lookup_if_insert by done.
      apply lookup_if_insert_eq. by rewrite !lookup_if_insert.
    - rewrite lookup_match_insert by done.
      apply lookup_if_insert_eq. by rewrite !lookup_if_insert.
    - destruct (re_search _ (lower t)) as [m|] eqn:Em.
      + destruct (re_search_groups _ _ _ _ padrao_gravidade_grupos Em) as [Hq Hset].
        destruct (Hset 1%nat) as [w Hw]; [by vm_compute|].
        eexists. split; [apply lookup_insert_eq|].
        unfold group_value. rewrite Hw. right. exists w. split; [|done].
        apply (Hq 1%nat w Hw).
      + exists VNone. split; [by rewrite !lookup_if_insert | by left].
    - by rewrite lookup_match_insert, !lookup_if_insert. }
  clearbody M. destruct HM as (Hdom & H1 & H2 & H3 & H4 & H5 & H6).
  destruct (re_search padrao_duracao (lower t)) as [m|] eqn:Em.
  - destruct (re_search_groups _ _ _ _ padrao_duracao_grupos Em) as [Hq Hset].
    destruct (Hset 1%nat) as [num Hnum]; [by vm_compute|].
    destruct (Hset 2%nat) as [w Hw]; [by vm_compute|].
    destruct (Hq 1%nat num Hnum) as [Hne Hdig].
    destruct (Hq 2%nat w Hw) as [un Hun].
    destruct (py_int_digits num Hne Hdig) as (n & Hpos & Hn).
    unfold group_value. rewrite Hnum, Hw. cbn [int_of_value]. rewrite Hn.
    destruct (int_max_str_digits <? N.of_nat (length num)); cbn [mbind result_bind].
    { split; [by left | by eexists]. }
    rewrite (normalizacao_bind n w un _ Hun).
    destruct (em_meses n un) as [v|e] eqn:Ev; cbn [mbind result_bind].
    + split; [by rewrite dom_insert_lookup_L by (by eexists)|].
      rewrite !lookup_insert_ne by done. do 4 (split; [done|]). split; [done|].
      exists v. split; [apply lookup_insert_eq | by eapply em_meses_valida].
    + split; [|by eexists]. destruct un; try done. cbn [em_meses] in Ev.
      destruct (int_truediv n 30) eqn:Ed; simpl in Ev; [done|]. injection Ev as <-.
      right. by apply (int_truediv_raise n 30).
  - do 5 (split; [done|]). split; [done|]. exists VNone. split; [done | by left].
Qed.

(** ** The preparation of the data for the model *)

Lemma zip_with_set_cell_Forall2 (P : value -> value -> Prop) (c : string)
    (rows : list row) (s : list value) :
  Forall2 P (cell c <$> rows) s ->
  Forall2 (fun r r' => exists w, P (cell c r) w /\ r' = set_cell c r w)
          rows (zip_with (set_cell c) rows s).
Proof.
  revert s. induction rows as [|r rows IH]; intros s H.
  - apply Forall2_nil_inv_l in H as ->. constructor.
  - apply Forall2_cons_inv_l in H as (w & s' & Hw & Hs & ->). simpl.
    constructor; [by exists w | by apply IH].
Qed.

Lemma convertida_nil (r : row) : convertida [] r r.
Proof. split; [done|]. split; [done|]. by intros c ?%elem_of_nil. Qed.

Lemma convertida_cons (c : string) (cols : list string) (r ra r' : row) :
  c ∉ cols -> convertida [c] r ra -> convertida cols ra r' -> convertida (c :: cols) r r'.
Proof.
  intros Hc (Hl1 & Hn1 & Hc1) (Hl2 & Hn2 & Hc2). split; [congruence|]. split.
  - intros x Hx. apply not_elem_of_cons in Hx as [Hxc Hx].
    rewrite (Hn2 x Hx). apply Hn1. by intros ?%list_elem_of_singleton.
  - intros x [->|Hx]%elem_of_cons.
    + rewrite (Hn2 c Hc). apply Hc1. by left.
    + rewrite <- (Hn1 x); [by apply Hc2|].
      intros ->%list_elem_of_singleton. done.
Qed.

Lemma converter_binaria_rel (d d' : DataFrame) (col : string) :
  converter_binaria d col = Ok d' ->
  df_columns d' = com_coluna (df_columns d) col
  /\ Forall2 (convertida [col]) (df_rows d) (df_rows d').
Proof.
  unfold converter_binaria.
  destruct (mapR astype_float (cell col <$> df_rows d)) as [s|] eqn:Es; [|done].
  cbn [mbind result_bind]. intros [= <-]. split; [done|].
  apply mapR_Forall2, zip_with_set_cell_Forall2 in Es. cbn [assign df_rows].
  eapply Forall2_impl; [exact Es|]. intros r r' (w & Hw & ->).
  split; [done|]. split.
  - intros c Hc. apply cell_set_cell_ne. intros ->. apply Hc. by left.
  - intros c ->%list_elem_of_singleton. by rewrite cell_set_cell_eq.
Qed.

Lemma foldR_converter_rel (cols : list string) :
  NoDup cols -> forall d d',
  foldR converter_binaria d cols = Ok d' ->
  df_columns d' = foldl com_coluna (df_columns d) cols
  /\ Forall2 (convertida cols) (df_rows d) (df_rows d').
Proof.
  induction 1 as [|c cols Hc _ IH]; intros d d'; simpl.
  - intros [= <-]. split; [done|]. apply Forall_Forall2_diag, Forall_forall.
    intros r _. apply convertida_nil.
  - destruct (converter_binaria d c) as [da|] eqn:Ea; [|done]. cbn [mbind result_bind].
    intros Hrest. apply converter_binaria_rel in Ea as [Ca Ra].
    destruct (IH da d' Hrest) as [C' R']. split; [by rewrite C', Ca|].
    eapply Forall2_trans; [|exact Ra|exact R'].
    intros r ra r' H1 H2. by apply (convertida_cons c cols r ra r').
Qed.

Lemma existentes_assign (d : DataFrame) (c : string) (s : list value) (cols : list string) :
  c ∉ cols -> existentes (assign d c s) cols = existentes d cols.
Proof.
  intros Hc. unfold existentes. induction cols as [|x cols IH]; [done|].
  apply not_elem_of_cons in Hc as [Hx Hc]. rewrite !filter_cons, (IH Hc).
  destruct (decide (x ∈ df_columns (assign d c s))) as [H1|H1],
           (decide (x ∈ df_columns d)) as [H2|H2]; try done; exfalso.
  - apply assign_columns_inv in H1 as [?|?]; [done | by subst].
  - apply H1, assign_columns. by left.
Qed.

Lemma select_all {A : Type} (mask : list bool) (xs : list A) :
  length mask = length xs -> Forall (fun b => b = true) mask -> select mask xs = xs.
Proof.
  revert xs. induction mask as [|b mask IH]; intros [|x xs] Hlen Hall; try done.
  apply Forall_cons_1 in Hall as [-> Hall]. simpl. f_equal. apply IH; [|done].
  simpl in Hlen. lia.
Qed.

Lemma rotulo_condenacao_casos (py_str : value -> str) (x : value) :
  rotulo_condenacao py_str x = VInt 0 \/ rotulo_condenacao py_str x = VInt 1.
Proof.
  destruct x; try by left. simpl. destruct (existsb _ _); [by right | by left].
Qed.

Lemma fmap_cell_zip_with (c : string) (rows : list row) (s : list value) :
  length s = length rows -> cell c <$> zip_with (set_cell c) rows s = s.
Proof.
  revert s. induction rows as [|r rows IH]; intros [|v s] Hlen; try done.
  simpl. rewrite cell_set_cell_eq. f_equal. apply IH. simpl in Hlen. lia.
Qed.

Lemma Forall2_fmap_eq {A B : Type} (f : A -> B) (xs ys : list A) :
  Forall2 (fun x y => f y = f x) xs ys -> f <$> ys = f <$> xs.
Proof. induction 1 as [|x y xs ys H _ IH]; [done|]. csimpl. by rewrite H, IH. Qed.

Lemma cell_restrita (cols : list string) (c : string) (r : row) :
  cell c (Row (row_label r) (filter (fun kv => kv.1 ∈ cols) (row_cells r)))
  = if decide (c ∈ cols) then cell c r else VNone.
Proof.
  unfold cell. cbn [row_cells]. rewrite map_lookup_filter.
  destruct (row_cells r !! c) as [v|]; simpl; [|by case_decide].
  destruct (decide (c ∈ cols)) as [H|H].
  - by rewrite option_guard_True.
  - by rewrite option_guard_False.
Qed.

Lemma zip_with_set_cell_rel (c : string) (rows : list row) (s : list value) :
  length s = length rows ->
  Forall2 (fun r r' => exists w, r' = set_cell c r w) rows (zip_with (set_cell c) rows s).
Proof.
  revert s. induction rows as [|r rows IH]; intros [|v s] Hlen; try done; simpl.
  constructor; [by exists v|]. apply IH. simpl in Hlen. lia.
Qed.

Lemma existentes_todas (d : DataFrame) :
  existentes d features_numericas ++ existentes d features_categoricas
    ++ existentes d features_binarias
  = existentes d todas_as_features.
Proof. unfold existentes, todas_as_features. by rewrite !filter_app. Qed.

Lemma elem_of_existentes (d : DataFrame) (cols : list string) (c : string) :
  c ∈ existentes d cols <-> c ∈ df_columns d /\ c ∈ cols.
Proof. unfold existentes. apply (list_elem_of_filter (fun col => col ∈ df_columns d)). Qed.

Lemma features_sem_rotulo :
  Forall (fun c => c <> "condenacao") todas_as_features.
Proof. apply (bool_decide_unpack _). by vm_compute. Qed.

Lemma features_disjuntas :
  Forall (fun c => c ∉ features_binarias) (features_numericas ++ features_categoricas).
Proof. apply (bool_decide_unpack _). by vm_compute. Qed.

Lemma preparar_dados_inv (py_str : value -> str) (df X : DataFrame) (y : list value) :
  preparar_dados_para_modelo py_str df = Ok (Some (X, y)) ->
  "decisao_tribunal" ∈ df_columns df
  /\ df_columns X = existentes df todas_as_features
  /\ df_columns X <> []
  /\ y = rotulo_condenacao py_str <$> (cell "decisao_tribunal" <$> df_rows df)
  /\ Forall2 (linha_de_features df) (df_rows df) (df_rows X).
Proof.
  unfold preparar_dados_para_modelo. cbv zeta. case_decide as Hdec; [|done].
  set (lab := rotulo_condenacao py_str <$> (cell "decisao_tribunal" <$> df_rows df)).
  set (d1 := assign df "condenacao" lab).
  pose proof features_sem_rotulo as Hrot. rewrite Forall_forall in Hrot.
  assert (forall cols, cols ⊆ todas_as_features -> existentes d1 cols = existentes df cols)
    as Hex.
  { intros cols Hsub. apply existentes_assign. intros Hin. by apply (Hrot _ (Hsub _ Hin)). }
  rewrite !Hex by (intros c Hc; unfold todas_as_features; rewrite !elem_of_app; tauto).
  destruct (foldR converter_binaria d1 (existentes df features_binarias)) as [d2|] eqn:E2;
    [|done].
  cbn [mbind result_bind]. rewrite existentes_todas.
  destruct (existentes df todas_as_features) as [|f fs] eqn:Ef; [done|]. rewrite <- Ef.
  intros [= <- <-].
  apply foldR_converter_rel in E2 as [_ R2];
    [|apply NoDup_filter, (bool_decide_unpack _); by vm_compute].
  assert (length lab = length (df_rows df)) as Hlab by (subst lab; by rewrite !length_fmap).
  assert (cell "condenacao" <$> df_rows d2 = lab) as Hcond.
  { rewrite <- (fmap_cell_zip_with "condenacao" (df_rows df) lab Hlab).
    apply Forall2_fmap_eq. eapply Forall2_impl; [exact R2|].
    intros r1 r2 (_ & Hn & _). apply Hn. intros Hin%elem_of_existentes.
    destruct Hin as [_ Hin]. revert Hin. apply (bool_decide_unpack _). by vm_compute. }
  assert (select (notnull <$> (cell "condenacao" <$> df_rows d2)) (df_rows d2) = df_rows d2
          /\ select (notnull <$> (cell "condenacao" <$> df_rows d2))
                    (cell "condenacao" <$> df_rows d2) = lab) as [Hs1 Hs2].
  { assert (Forall (fun b => b = true) (notnull <$> lab)) as Hall.
    { subst lab. rewrite <- !list_fmap_compose. apply Forall_fmap, Forall_forall.
      intros r _. simpl.
      by destruct (rotulo_condenacao_casos py_str (cell "decisao_tribunal" r)) as [-> | ->]. }
    rewrite Hcond. split; apply select_all; try done; rewrite length_fmap; [|done].
    rewrite <- Hcond at 1. by rewrite length_fmap. }
  split; [done|]. cbn [loc_mask df_columns df_rows]. split; [done|].
  split; [by rewrite Ef|]. rewrite Hs1, Hs2. split; [done|].
  apply Forall2_fmap_r.
  pose proof (zip_with_set_cell_rel "condenacao" (df_rows df) lab Hlab) as R1.
  eapply Forall2_trans; [|exact R1|exact R2].
  intros r r1 r2 (w & ->) (Hl & Hn & Hc).
  pose proof features_disjuntas as Hdis. rewrite Forall_forall in Hdis.
  split; [done|]. split; [|split].
  - intros c Hc'. rewrite cell_restrita, decide_True.
    + rewrite Hn.
      * apply cell_set_cell_ne. intros <-. apply elem_of_existentes in Hc' as [_ Hc'].
        apply (Hrot "condenacao"); [|done]. unfold todas_as_features.
        apply elem_of_app in Hc' as [?|?]; rewrite !elem_of_app; tauto.
      * intros [_ Hb]%elem_of_existentes. apply elem_of_existentes in Hc' as [_ Hc'].
        by apply (Hdis c).
    + apply elem_of_existentes in Hc' as [? Hc']. apply elem_of_existentes.
      split; [done|]. unfold todas_as_features.
      apply elem_of_app in Hc' as [?|?]; rewrite !elem_of_app; tauto.
  - intros c Hc'. rewrite cell_restrita, decide_True.
    + rewrite <- (Hc c Hc'). f_equal. symmetry. apply cell_set_cell_ne. intros <-.
      apply elem_of_existentes in Hc' as [_ Hc'].
      apply (Hrot "condenacao"); [|done]. unfold todas_as_features.
      rewrite !elem_of_app; tauto.
    + apply elem_of_existentes in Hc' as [? Hc']. apply elem_of_existentes.
      split; [done|]. unfold todas_as_features. rewrite !elem_of_app; tauto.
  - intros c Hc'. by rewrite cell_restrita, decide_False.
Qed.

Lemma foldR_converter_raise (col : string) (e : exn) (cols : list string) :
  forall d : DataFrame,
  col ∈ cols ->
  (exists r, r ∈ df_rows d /\ astype_float (cell col r) = Raise e) ->
  exists e', foldR converter_binaria d cols = Raise e'.
Proof.
  induction cols as [|c cols IH]; intros d Hcol (r & Hr & Er); [by apply elem_of_nil in Hcol|].
  simpl. destruct (converter_binaria d c) as [da|e1] eqn:Ea; [|by eexists].
  cbn [mbind result_bind].
  destruct (decide (c = col)) as [->|Hne].
  - exfalso. unfold converter_binaria in Ea.
    destruct (mapR_raise_elem astype_float (cell col <$> df_rows d) (cell col r) e)
      as [e' He']; [by apply list_elem_of_fmap_2 | done|].
    by rewrite He' in Ea.
  - apply IH; [apply elem_of_cons in Hcol as [?|?]; congruence|].
    apply converter_binaria_rel in Ea as [_ Ra].
    apply list_elem_of_lookup in Hr as [i Hi].
    destruct (Forall2_lookup_l _ _ _ _ _ Ra Hi) as (ra & Hia & _ & Hn & _).
    exists ra. split; [by eapply list_elem_of_lookup_2|].
    rewrite Hn; [done|]. by intros ?%list_elem_of_singleton.
Qed.

Lemma preparar_dados_raise (py_str : value -> str) (df : DataFrame) (col : string)
    (r : row) (e : exn) :
  "decisao_tribunal" ∈ df_columns df ->
  col ∈ features_binarias -> col ∈ df_columns df ->
  r ∈ df_rows df -> astype_float (cell col r) = Raise e ->
  exists e', preparar_dados_para_modelo py_str df = Raise e'.
Proof.
  intros Hdec Hbin Hcol Hr Er. unfold preparar_dados_para_modelo. cbv zeta.
  rewrite decide_True by done.
  set (lab := rotulo_condenacao py_str <$> (cell "decisao_tribunal" <$> df_rows df)).
  set (d1 := assign df "condenacao" lab).
  assert (col <> "condenacao") as Hne.
  { intros ->. revert Hbin. apply (bool_decide_unpack _). by vm_compute. }
  destruct (foldR_converter_raise col e (existentes d1 features_binarias) d1) as [e' ->].
  - apply elem_of_existentes. split; [|done]. apply assign_columns. by left.
  - assert (length lab = length (df_rows df)) as Hlab
      by (subst lab; by rewrite !length_fmap).
    pose proof (zip_with_set_cell_rel "condenacao" (df_rows df) lab Hlab) as R1.
    apply list_elem_of_lookup in Hr as [i Hi].
    destruct (Forall2_lookup_l _ _ _ _ _ R1 Hi) as (r1 & Hi1 & w & ->).
    eexists. split; [by eapply list_elem_of_lookup_2|].
    by rewrite cell_set_cell_ne.
  - by eexists.
Qed.

(** What the preparation returns, when it returns features and a label:
    the decision column exists; the columns of the features are the feature
    columns the table has, numeric, then categorical, then binary; there is
    one row of features and one label for every row of the table, none being
    dropped, because the label is always 0 or 1 and never null; a row of
    features keeps the index label and the numeric and categorical values of
    its row and holds its binary values converted to float. *)
Theorem dados_preparados (py_str : value -> str) (df X : DataFrame) (y : list value) :
  preparar_dados_para_modelo py_str df = Ok (Some (X, y)) ->
  "decisao_tribunal" ∈ df_columns df
  /\ df_columns X = existentes df todas_as_features
  /\ df_columns X <> []
  /\ length (df_rows X) = length (df_rows df)
  /\ y = rotulo_condenacao py_str <$> (cell "decisao_tribunal" <$> df_rows df)
  /\ Forall (fun v => v = VInt 0 \/ v = VInt 1) y
  /\ Forall2 (linha_de_features df) (df_rows df) (df_rows X).
Proof.
  intros (Hdec & Hcols & Hne & Hy & Hrows)%preparar_dados_inv.
  do 3 (split; [done|]). split; [symmetry; by eapply Forall2_length|].
  split; [done|]. split; [|done]. subst y.
  rewrite <- list_fmap_compose. apply Forall_fmap, Forall_forall. intros r _.
  apply rotulo_condenacao_casos.
Qed.

Lemma dados_preparados_witness :
  exists X y,
    preparar_dados_para_modelo py_str_exemplo tabela_pequena = Ok (Some (X, y))
    /\ length (df_rows X) = length (df_rows tabela_pequena)
    /\ y = [VInt 1; VInt 0; VInt 0].
Proof.
  eexists _, _. split; [vm_compute; reflexivity|].
  match goal with
  | |- length (df_rows ?X) = _ /\ ?y = _ =>
      destruct (dados_preparados py_str_exemplo tabela_pequena X y)
        as (_ & _ & _ & Hlen & Hy & _); [vm_compute; reflexivity|]
  end.
  split; [exact Hlen | vm_compute; reflexivity].
Defined.

(** A binary feature cell that does not convert to float makes the
    preparation raise, and [treinar_modelo_inferencial] with it, whatever the
    number of rows: the conversion comes before the test on the amount of
    data. *)
Theorem conversao_binaria_falha (py_str : value -> str)
    (ajustar_e_avaliar : DataFrame -> list value -> result (gmap string value))
    (df : DataFrame) (col : string) (r : row) (e : exn) :
  "decisao_tribunal" ∈ df_columns df ->
  col ∈ features_binarias -> col ∈ df_columns df ->
  r ∈ df_rows df -> astype_float (cell col r) = Raise e ->
  exists e',
    preparar_dados_para_modelo py_str df = Raise e'
    /\ treinar_modelo_inferencial py_str ajustar_e_avaliar df = Raise e'.
Proof.
  intros Hdec Hbin Hcol Hr Er.
  destruct (preparar_dados_raise py_str df col r e Hdec Hbin Hcol Hr Er) as [e' He'].
  exists e'. split; [done|]. unfold treinar_modelo_inferencial. by rewrite He'.
Qed.

Lemma conversao_binaria_falha_witness :
  exists e',
    preparar_dados_para_modelo py_str_exemplo tabela_invalida = Raise e'
    /\ treinar_modelo_inferencial py_str_exemplo (fun _ _ => Ok ∅) tabela_invalida
       = Raise e'.
Proof.
  apply (conversao_binaria_falha py_str_exemplo (fun _ _ => Ok ∅) tabela_invalida
           "dosimetria_boa_fe"
           (Row 0 (<["decisao_tribunal" := VList [VStr (u "Condenação")]]>
                   (<["dosimetria_boa_fe" := VStr (u "sim")]> ∅)))
           ValueError).
  - apply (bool_decide_unpack _). vm_compute. exact I.
  - apply (bool_decide_unpack _). vm_compute. exact I.
  - apply (bool_decide_unpack _). vm_compute. exact I.
  - left.
  - vm_compute. reflexivity.
Defined.

(** ** The table returned, as the input of the model *)

Lemma linha_admitida_texto (col : string) (r r' : row) :
  col ∉ colunas_derivadas -> extrair_linha col r = Ok r' -> admitida r' = true ->
  exists t, cell col r = VStr t.
Proof.
  intros Hcol Hr Hadm.
  destruct (extrair_linha_inv col r r' Hcol Hr)
    as (pm & vm & dd & Hpm & Hvm & _ & _ & _ & Hp & _ & Hv & _).
  unfold admitida in Hadm. rewrite Hp, Hv in Hadm.
  destruct (cell col r) as [| | | |t| |]; try (injection Hpm as <-; injection Hvm as <-; done).
  by exists t.
Qed.

Lemma linha_admitida_forma (col : string) (r r' : row) :
  col ∉ colunas_derivadas -> extrair_linha col r = Ok r' -> admitida r' = true ->
  exists t dd,
    cell col r' = VStr t
    /\ extrair_elementos_dosimetria (VStr t) = Ok dd
    /\ Forall (fun elemento => Some (cell ("dosimetria_" +:+ elemento) r') = dd !! elemento)
              elementos.
Proof.
  intros Hcol Hr Hadm.
  destruct (linha_admitida_texto col r r' Hcol Hr Hadm) as [t Ht].
  destruct (extrair_linha_inv col r r' Hcol Hr)
    as (pm & vm & dd & _ & _ & Hdd & _ & _ & _ & _ & _ & Hel & Hc).
  rewrite Ht in Hdd. exists t, dd. split; [by rewrite Hc|]. split; [done|].
  pose proof (dosimetria_forma t) as Hf. rewrite Hdd in Hf.
  destruct Hf as (_ & H1 & H2 & H3 & H4 & (g & H5 & _) & (v & H6 & _)).
  unfold elementos in *.
  repeat (apply Forall_cons_1 in Hel as [? Hel]).
  repeat apply Forall_cons_2; [..|apply Forall_nil_2];
    match goal with
    | H : cell ?c r' = _ |- Some (cell ?c r') = _ => rewrite H
    end; cbn [obter];
    match goal with
    | H : dd !! ?k = _ |- context [dd !! ?k] => by rewrite H
    end.
Qed.

(** The dosimetry record of a text.  When the extractor returns, the record
    has exactly the six fields; each of the four flags is the boolean that
    says whether its patterns are found in the lower-cased text; the severity
    is absent or one of the seven adjectives of the pattern; the duration is
    absent or a number that is not negative.  The extractor raises only when
    the duration pattern is found, and then [ValueError] or
    [OverflowError]. *)
Theorem registro_de_dosimetria (t : str) :
  match extrair_elementos_dosimetria (VStr t) with
  | Ok dd =>
      dom dd = list_to_set elementos
      /\ dd !! "reincidencia"
         = Some (VBool (found "reincid[êe]ncia" (lower t) || found "reincidente" (lower t)))
      /\ dd !! "boa_fe" = Some (VBool (found "boa[- ]f[ée]" (lower t)))
      /\ dd !! "ma_fe" = Some (VBool (found "m[áa][- ]f[ée]" (lower t)))
      /\ dd !! "cooperacao"
         = Some (VBool (found "cooper[ao][çc][ãa]o" (lower t)
                        || found "colabor[ao][çc][ãa]o" (lower t)))
      /\ (exists g, dd !! "gravidade" = Some g /\ gravidade_valida g)
      /\ (exists v, dd !! "duracao_conduta" = Some v /\ duracao_valida v)
  | Raise e => erro_de_extracao e /\ is_Some (re_search padrao_duracao (lower t))
  end.
Proof. apply dosimetria_forma. Qed.

(** For every input, [extrair_valor_multa_reais] returns without raising;
    the values of the list it returns are numbers that are not negative
    (there is no upper bound), and the list is never empty. *)
Theorem valores_em_reais (texto : value) :
  exists r, extrair_valor_multa_reais texto = Ok r
    /\ Forall (fun v => float_le float_zero v = true /\ float_isnan v = false) (default [] r)
    /\ r <> Some [].
Proof.
  destruct texto as [| | | |t| |]; try (exists None; by repeat split).
  rewrite extrair_valor_multa_reais_spec. eexists. split; [done|].
  pose proof (candidatos_reais_nonneg (lower t)) as H.
  destruct (candidatos _ _ _) as [|v l]; simpl; [by split|]. split; [|done].
  eapply Forall_impl; [exact H|]. intros x Hx. split.
  - by apply float_nonneg_le.
  - by apply float_nonneg_not_nan.
Qed.

Lemma preparar_dados_ok (py_str : value -> str) (d : DataFrame) :
  binarias_convertiveis d ->
  exists xy, preparar_dados_para_modelo py_str d = Ok xy
    /\ (xy = None <-> "decisao_tribunal" ∉ df_columns d
                      \/ existentes d todas_as_features = []).
Proof.
  intros Hconv. unfold preparar_dados_para_modelo. cbv zeta.
  case_decide as Hdec; [|exists None; split; [done|]; split; [by left | done]].
  set (lab := rotulo_condenacao py_str <$> (cell "decisao_tribunal" <$> df_rows d)).
  set (d1 := assign d "condenacao" lab).
  pose proof features_sem_rotulo as Hrot. rewrite Forall_forall in Hrot.
  assert (forall cols, cols ⊆ todas_as_features -> existentes d1 cols = existentes d cols)
    as Hex.
  { intros cols Hsub. apply existentes_assign. intros Hin. by apply (Hrot _ (Hsub _ Hin)). }
  rewrite !Hex by (intros c Hc; unfold todas_as_features; rewrite !elem_of_app; tauto).
  assert (binarias_convertiveis d1) as Hd1.
  { apply assign_convertiveis; [done|]. intros Hc. exfalso. revert Hc.
    by apply (bool_decide_unpack _). }
  destruct (foldR_converter_binaria _ d1 Hd1 (existentes_binarias d)) as (d2 & -> & _).
  cbn [mbind result_bind]. rewrite existentes_todas.
  destruct (existentes d todas_as_features) as [|f fs].
  - exists None. split; [done|]. split; [by right | done].
  - eexists. split; [done|]. split; [done|]. by intros [?|?].
Qed.

Lemma linha_admitida_colunas (col : string) (r r' : row) :
  col ∉ colunas_derivadas -> extrair_linha col r = Ok r' -> admitida r' = true ->
  exists t dd,
    cell col r' = VStr t
    /\ extrair_elementos_dosimetria (VStr t) = Ok dd
    /\ Forall (fun elemento => Some (cell ("dosimetria_" +:+ elemento) r') = dd !! elemento)
              elementos
    /\ Forall (fun c => exists b, cell c r' = VBool b) features_binarias
    /\ gravidade_valida (cell "dosimetria_gravidade" r')
    /\ duracao_valida (cell "dosimetria_duracao_conduta" r').
Proof.
  intros Hcol Hr Hadm.
  destruct (linha_admitida_forma col r r' Hcol Hr Hadm) as (t & dd & Ht & Hdd & Hel).
  exists t, dd. do 3 (split; [done|]).
  pose proof (dosimetria_forma t) as Hf. rewrite Hdd in Hf.
  destruct Hf as (_ & H1 & H2 & H3 & H4 & (g & H5 & Hg) & (v & H6 & Hv)).
  unfold elementos in Hel. cbn [String.app] in Hel.
  apply Forall_cons_1 in Hel as [E1 Hel]. apply Forall_cons_1 in Hel as [E2 Hel].
  apply Forall_cons_1 in Hel as [E3 Hel]. apply Forall_cons_1 in Hel as [E4 Hel].
  apply Forall_cons_1 in Hel as [E5 Hel]. apply Forall_cons_1 in Hel as [E6 _].
  rewrite H1 in E1. rewrite H2 in E2. rewrite H3 in E3. rewrite H4 in E4.
  rewrite H5 in E5. rewrite H6 in E6.
  injection E1 as E1. injection E2 as E2. injection E3 as E3. injection E4 as E4.
  injection E5 as E5. injection E6 as E6.
  split; [|split].
  - unfold features_binarias. repeat apply Forall_cons_2; [..|apply Forall_nil_2];
      by eexists.
  - replace (cell "dosimetria_gravidade" r') with g by exact (eq_sym E5). done.
  - replace (cell "dosimetria_duracao_conduta" r') with v by exact (eq_sym E6). done.
Qed.

(** In every row of the table returned the text cell is a string, whose
    dosimetry record the six dosimetry columns hold field by field: the four
    flags are booleans, never absent; the severity is absent or one of the
    adjectives; the duration is absent or a number that is not negative. *)
Theorem dosimetria_na_saida (σ0 : store) (df : loc) (d : DataFrame) (col : string)
    (l2 : loc) :
  σ0 !! df = Some d -> col ∉ colunas_derivadas ->
  (aplicar_extracao_ao_dataframe df col σ0).1 = Ok l2 ->
  exists out,
    (aplicar_extracao_ao_dataframe df col σ0).2 !! l2 = Some out
    /\ Forall (fun r' =>
         exists t dd,
           cell col r' = VStr t
           /\ extrair_elementos_dosimetria (VStr t) = Ok dd
           /\ Forall (fun elemento =>
                        Some (cell ("dosimetria_" +:+ elemento) r') = dd !! elemento)
                     elementos
           /\ Forall (fun c => exists b, cell c r' = VBool b) features_binarias
           /\ gravidade_valida (cell "dosimetria_gravidade" r')
           /\ duracao_valida (cell "dosimetria_duracao_conduta" r'))
         (df_rows out).
Proof.
  intros Hdf Hder Hok.
  destruct (aplicar_ok_inv σ0 df d col l2 Hdf Hok) as (_ & _ & rows & Hrows & ->).
  eexists. split; [by rewrite lookup_insert_eq|]. simpl.
  apply Forall_forall. intros r' Hr'.
  apply list_elem_of_In, filter_In in Hr' as [Hr' Hadm].
  apply list_elem_of_In, list_elem_of_lookup in Hr' as [i Hi].
  apply mapR_Forall2 in Hrows.
  destruct (Forall2_lookup_r _ _ _ _ _ Hrows Hi) as (r & _ & Hr).
  by apply (linha_admitida_colunas col r r').
Qed.

Lemma dosimetria_na_saida_witness :
  exists out,
    (aplicar_extracao_ao_dataframe 5%positive "texto_completo" store_exemplo).2 !! 7%positive
    = Some out
    /\ Forall (fun r' =>
         exists t dd,
           cell "texto_completo" r' = VStr t
           /\ extrair_elementos_dosimetria (VStr t) = Ok dd
           /\ Forall (fun elemento =>
                        Some (cell ("dosimetria_" +:+ elemento) r') = dd !! elemento)
                     elementos
           /\ Forall (fun c => exists b, cell c r' = VBool b) features_binarias
           /\ gravidade_valida (cell "dosimetria_gravidade" r')
           /\ duracao_valida (cell "dosimetria_duracao_conduta" r'))
         (df_rows out).
Proof.
  apply (dosimetria_na_saida store_exemplo 5%positive tabela_exemplo "texto_completo"
           7%positive).
  - reflexivity.
  - apply (bool_decide_unpack _). vm_compute. exact I.
  - vm_compute. reflexivity.
Defined.

(** The table returned by the orchestrator as the input of the model, as the
    main script chains them: the preparation never raises on it; it finds no
    features and label exactly when the input had no decision column, and
    otherwise keeps every row; with fewer than ten rows the training returns
    the dictionary that reports insufficient data. *)
Theorem modelo_sobre_a_extracao (py_str : value -> str)
    (ajustar_e_avaliar : DataFrame -> list value -> result (gmap string value))
    (σ0 : store) (df : loc) (d : DataFrame) (col : string) (l2 : loc) :
  σ0 !! df = Some d -> col ∉ colunas_derivadas ->
  (aplicar_extracao_ao_dataframe df col σ0).1 = Ok l2 ->
  exists out,
    (aplicar_extracao_ao_dataframe df col σ0).2 !! l2 = Some out
    /\ match preparar_dados_para_modelo py_str out with
       | Ok None => "decisao_tribunal" ∉ df_columns d
       | Ok (Some (X, y)) =>
           "decisao_tribunal" ∈ df_columns d
           /\ length (df_rows X) = length (df_rows out)
           /\ length y = length (df_rows out)
           /\ Forall (fun c => c ∈ df_columns X) features_binarias
       | Raise _ => False
       end
    /\ ((length (df_rows out) < 10)%nat ->
        treinar_modelo_inferencial py_str ajustar_e_avaliar out = Ok resultado_erro).
Proof.
  intros Hdf Hder Hok.
  destruct (aplicar_ok_inv σ0 df d col l2 Hdf Hok) as (_ & _ & rows & Hrows & ->).
  set (out := Frame _ (List.filter admitida rows)).
  exists out. split; [by rewrite lookup_insert_eq|].
  assert (binarias_convertiveis out) as Hconv.
  { intros r' c Hr' Hc. simpl in Hr'.
    apply list_elem_of_In, filter_In in Hr' as [Hr' Hadm].
    apply list_elem_of_In, list_elem_of_lookup in Hr' as [i Hi].
    apply mapR_Forall2 in Hrows.
    destruct (Forall2_lookup_r _ _ _ _ _ Hrows Hi) as (r & _ & Hr).
    destruct (linha_admitida_colunas col r r' Hder Hr Hadm)
      as (_ & _ & _ & _ & _ & Hb & _).
    rewrite Forall_forall in Hb. destruct (Hb c Hc) as [b ->]. by eexists. }
  assert (forall c, c ∈ colunas_derivadas -> c ∈ df_columns out) as Hcols.
  { intros c Hc. apply elem_of_foldl_com_coluna. by right. }
  assert ("decisao_tribunal" ∈ df_columns out <-> "decisao_tribunal" ∈ df_columns d) as Hdec.
  { subst out. cbn [df_columns]. unfold colunas_da_saida.
    rewrite (foldl_com_coluna_novas _ _ colunas_derivadas_NoDup), elem_of_app.
    split; [|by left]. intros [?|Hin]; [done|].
    apply list_elem_of_filter in Hin as [_ Hin]. exfalso. revert Hin.
    by apply (bool_decide_unpack _). }
  assert (Forall (fun c => c ∈ df_columns out) features_binarias) as Hbin.
  { apply Forall_forall. intros c Hc. apply Hcols. revert c Hc. apply Forall_forall.
    apply (bool_decide_unpack _). by vm_compute. }
  destruct (preparar_dados_ok py_str out Hconv) as (xy & Hxy & Hnone).
  split.
  - rewrite Hxy. destruct xy as [[X y]|].
    + destruct (preparar_dados_inv py_str out X y Hxy) as (H1 & H2 & _ & Hy & HX).
      split; [by apply Hdec|]. split; [symmetry; by eapply Forall2_length|].
      split; [subst y; by rewrite !length_fmap|].
      rewrite H2. apply Forall_forall. intros c Hc.
      apply elem_of_existentes. rewrite Forall_forall in Hbin. split; [by apply Hbin|].
      unfold todas_as_features. rewrite !elem_of_app. tauto.
    + destruct (proj1 Hnone eq_refl) as [Hn|Hn]; [by rewrite <- Hdec|].
      exfalso. rewrite Forall_forall in Hbin.
      assert ("dosimetria_boa_fe" ∈ existentes out todas_as_features) as Hin.
      { apply elem_of_existentes. split; [apply Hbin|];
          apply (bool_decide_unpack _); by vm_compute. }
      rewrite Hn in Hin. by apply elem_of_nil in Hin.
  - intros Hlen. unfold treinar_modelo_inferencial. rewrite Hxy. cbn [mbind result_bind].
    destruct xy as [[X y]|]; [|done].
    destruct (preparar_dados_inv py_str out X y Hxy) as (_ & _ & _ & _ & HX).
    apply Forall2_length in HX. rewrite <- HX.
    apply Nat.ltb_lt in Hlen. by rewrite Hlen.
Qed.

Lemma modelo_sobre_a_extracao_witness :
  exists out,
    (aplicar_extracao_ao_dataframe 5%positive "texto_completo" store_exemplo).2 !! 7%positive
    = Some out
    /\ match preparar_dados_para_modelo py_str_exemplo out with
       | Ok None => "decisao_tribunal" ∉ df_columns tabela_exemplo
       | Ok (Some (X, y)) =>
           "decisao_tribunal" ∈ df_columns tabela_exemplo
           /\ length (df_rows X) = length (df_rows out)
           /\ length y = length (df_rows out)
           /\ Forall (fun c => c ∈ df_columns X) features_binarias
       | Raise _ => False
       end
    /\ ((length (df_rows out) < 10)%nat ->
        treinar_modelo_inferencial py_str_exemplo (fun _ _ => Ok ∅) out = Ok resultado_erro).
Proof.
  apply (modelo_sobre_a_extracao py_str_exemplo (fun _ _ => Ok ∅) store_exemplo 5%positive
           tabela_exemplo "texto_completo" 7%positive).
  - reflexivity.
  - apply (bool_decide_unpack _). vm_compute. exact I.
  - vm_compute. reflexivity.
Defined.

(** ** What the patterns need in the text *)

Lemma as_char_matches (r : re) (d : N) (w : str) :
  as_char r = Some d -> matches r w -> w = [d].
Proof.
  destruct r as [| |c|[|[c| |] [|? ?]]| | | | | |]; try done; simpl; intros [= <-].
  - by intros ->%matches_char.
  - intros (c' & -> & Hc)%matches_set. simpl in Hc. rewrite orb_false_r in Hc.
    by apply N.eqb_eq in Hc as ->.
Qed.

Lemma literal_prefix_sound (r : re) :
  forall x w, literal_prefix r x = true -> matches r w -> exists w', w = x ++ w'.
Proof.
  induction r as [| |c|cs|a IHa b IHb|a IHa b IHb|a IHa|a IHa|a IHa|i a IHa];
    intros [|c0 x] w Hp Hm; try (by exists w); cbn [literal_prefix] in Hp; try done.
  - simpl in Hp. apply andb_prop in Hp as [Hc Hx]. apply N.eqb_eq in Hc as ->.
    apply bool_decide_eq_true in Hx as ->. apply matches_char in Hm as ->. by exists [].
  - destruct (as_char (RSet cs)) as [d|] eqn:Ed; [|done].
    apply andb_prop in Hp as [Hc Hx]. apply N.eqb_eq in Hc as ->.
    apply bool_decide_eq_true in Hx as ->.
    rewrite (as_char_matches _ _ _ Ed Hm). by exists [].
  - destruct (as_char a) as [d|] eqn:Ed; [|done].
    apply andb_prop in Hp as [Hc Hx]. apply N.eqb_eq in Hc as ->.
    apply matches_seq in Hm as (w1 & w2 & -> & H1 & H2).
    rewrite (as_char_matches _ _ _ Ed H1).
    destruct (IHb x w2 Hx H2) as [w' ->]. by exists w'.
  - inversion Hm; subst. by apply IHa.
Qed.

Lemma must_contain_sound (x : str) (r : re) (w : str) :
  must_contain x r = true -> matches r w -> ocorre x w.
Proof.
  revert w. induction r as [| |c|cs|a IHa b IHb|a IHa b IHb|a IHa|a IHa|a IHa|i a IHa];
    intros w Hc Hm; cbn [must_contain] in Hc; apply orb_prop in Hc as [Hc|Hc];
    try (destruct (literal_prefix_sound _ x w Hc Hm) as [w' ->]; by exists [], w');
    try done.
  - apply matches_seq in Hm as (w1 & w2 & -> & H1 & H2).
    apply orb_prop in Hc as [Hc|Hc].
    + destruct (IHa w1 Hc H1) as (pre & post & ->). exists pre, (post ++ w2).
      by rewrite <- !app_assoc.
    + destruct (IHb w2 Hc H2) as (pre & post & ->). exists (w1 ++ pre), post.
      by rewrite <- !app_assoc.
  - apply andb_prop in Hc as [Ha Hb].
    apply matches_alt in Hm as [Hm|Hm]; [by apply IHa | by apply IHb].
  - inversion Hm as [| | | | | | | |a' w1 w2 H1 H2| | |]; subst.
    destruct (IHa w1 Hc H1) as (pre & post & ->). exists pre, (post ++ w2).
    by rewrite <- !app_assoc.
  - inversion Hm; subst. by apply IHa.
Qed.

Lemma contains_unfold (x s : str) :
  contains x s
  = if decide (take (length x) s = x) then true
    else match s with [] => false | _ :: s' => contains x s' end.
Proof. by destruct s. Qed.

Lemma ocorre_contains (x s : str) : ocorre x s -> contains x s = true.
Proof.
  intros (pre & post & ->). induction pre as [|c pre IH]; rewrite contains_unfold.
  - rewrite decide_True; [done|]. apply (take_app_length x post).
  - case_decide; [done|]. exact IH.
Qed.

Lemma scan_sound (r : re) (s : str) :
  forall skip m, m ∈ scan r s skip -> ocorre (m_text m) s /\ matches r (m_text m).
Proof.
  assert (forall (s' : str) (m : rmatch_obj) (c : N),
            ocorre (m_text m) s' /\ matches r (m_text m) ->
            ocorre (m_text m) (c :: s') /\ matches r (m_text m)) as Hcons.
  { intros s' m c [(pre & post & ->) Hm]. split; [|done]. by exists (c :: pre), post. }
  induction s as [|c s IH]; intros skip m Hin.
  - destruct skip; simpl in Hin; [|by apply elem_of_nil in Hin].
    destruct (head (rmatch r [] ∅)) as [[s' g]|] eqn:E; [|by apply elem_of_nil in Hin].
    apply list_elem_of_singleton in Hin as ->. simpl.
    apply head_Some_elem_of in E.
    apply (rmatch_sound (fun _ _ => True)) in E as (w & Hw & Hm & _).
    rewrite Hw, consumed_app. split; [|done]. exists [], s'. by rewrite <- Hw.
  - destruct skip; simpl in Hin; [|by eapply Hcons, IH].
    destruct (head (rmatch r (c :: s) ∅)) as [[s' g]|] eqn:E;
      [|by eapply Hcons, IH].
    apply elem_of_cons in Hin as [->|Hin]; [|by eapply Hcons, IH]. simpl.
    apply head_Some_elem_of in E.
    apply (rmatch_sound (fun _ _ => True)) in E as (w & Hw & Hm & _).
    rewrite Hw, consumed_app. split; [|done]. by exists [], s'.
Qed.

Lemma re_findall_ocorre (x : str) (p : string) (s m : str) :
  must_contain x (re_compile p) = true -> m ∈ re_findall p s -> contains x s = true.
Proof.
  intros Hx Hm. unfold re_findall in Hm.
  apply list_elem_of_fmap in Hm as (mo & _ & Hmo).
  apply scan_sound in Hmo as [(pre & post & ->) Hw].
  destruct (must_contain_sound x _ _ Hx Hw) as (a & b & ->).
  apply ocorre_contains. exists (pre ++ a), (b ++ post). by rewrite <- !app_assoc.
Qed.

Lemma candidatos_ocorre (x : str) (padroes : list string) (valor : str -> option float)
    (texto : str) :
  Forall (fun p => must_contain x (re_compile p) = true) padroes ->
  candidatos padroes valor texto <> [] -> contains x texto = true.
Proof.
  intros Hp Hne. destruct (candidatos padroes valor texto) as [|v l] eqn:E; [done|].
  assert (v ∈ candidatos padroes valor texto) as Hv by (rewrite E; by left).
  apply elem_of_candidatos in Hv as (p & m & Hin & Hm & _).
  rewrite Forall_forall in Hp. by apply (re_findall_ocorre x p texto m (Hp p Hin)).
Qed.

(** What a text needs for a value to be found in it.  When
    [extrair_percentual_multa] returns a list, the lower-cased text contains
    the percent sign and the word "faturamento"; when
    [extrair_valor_multa_reais] returns a list, it contains "r$". *)
Theorem indicios_no_texto (t : str) :
  match extrair_percentual_multa (VStr t) with
  | Ok (Some _) =>
      contains (u "%") (lower t) = true /\ contains (u "faturamento") (lower t) = true
  | _ => True
  end
  /\ match extrair_valor_multa_reais (VStr t) with
     | Ok (Some _) => contains (u "r$") (lower t) = true
     | _ => True
     end.
Proof.
  rewrite extrair_percentual_multa_spec, extrair_valor_multa_reais_spec. split.
  - destruct (candidatos padroes_percentual _ _) as [|v l] eqn:E; [done|]. simpl. split.
    + apply (candidatos_ocorre _ padroes_percentual valor_percentual);
        [by repeat constructor | by rewrite E].
    + apply (candidatos_ocorre _ padroes_percentual valor_percentual);
        [by repeat constructor | by rewrite E].
  - destruct (candidatos padroes_reais _ _) as [|v l] eqn:E; [done|]. simpl.
    apply (candidatos_ocorre _ padroes_reais valor_reais);
      [by repeat constructor | by rewrite E].
Qed.

(** ** Every captured numeral converts *)

Lemma c_strip_plain (a : str) : Forall (fun c => c_plain c = true) a -> c_strip a = a.
Proof.
  intros Ha. unfold c_strip.
  assert (forall l, Forall (fun c => c_plain c = true) l ->
                    match l with x :: _ => is_c_space x = false | [] => True end) as Hh.
  { intros l [|c l' Hc _]; [done|]. apply c_plain_cases in Hc.
    unfold is_c_space. apply orb_false_iff. split.
    - apply andb_false_iff. right. apply N.leb_gt. lia.
    - apply N.eqb_neq. lia. }
  rewrite (drop_while_head _ a) by (by apply Hh).
  rewrite (drop_while_head _ (rev a)) by (by apply Hh, Forall_rev).
  apply rev_involutive.
Qed.

Lemma drop_underscores_plain (a : str) (prev : N) :
  Forall (fun c => c_plain c = true) a -> prev <> ch "_" ->
  drop_underscores prev a = Some a.
Proof.
  intros Ha. revert prev. induction Ha as [|c a Hc Ha IH]; intros prev Hp.
  - cbn [drop_underscores]. by apply N.eqb_neq in Hp as ->.
  - cbn [drop_underscores]. pose proof (c_plain_cases c Hc) as Hcc.
    assert (c <> ch "_") as Hne by (vm_compute (ch "_"); lia).
    apply N.eqb_neq in Hp as ->. apply N.eqb_neq in Hne as E. rewrite E.
    cbn [andb]. by rewrite IH by (by apply N.eqb_neq).
Qed.

Lemma span_digits_app (a rest : str) :
  Forall (fun c => is_c_digit c = true) a ->
  match rest with c :: _ => is_c_digit c = false | [] => True end ->
  span_digits (a ++ rest) = (a, rest).
Proof.
  intros Ha Hr. induction Ha as [|c a Hc Ha IH]; simpl.
  - destruct rest as [|c rest]; [done|]. simpl. by rewrite Hr.
  - by rewrite Hc, IH.
Qed.

Lemma c_digit_plain (a : str) :
  Forall (fun c => is_c_digit c = true) a -> Forall (fun c => c_plain c = true) a.
Proof.
  intros H. eapply Forall_impl; [exact H|]. intros c Hc. unfold c_plain. by rewrite Hc.
Qed.

Lemma parse_numeral (a1 sep a2 : str) :
  a1 <> [] ->
  Forall (fun c => is_c_digit c = true) a1 -> Forall (fun c => is_c_digit c = true) a2 ->
  sep = [] \/ sep = u "." ->
  exists m e, parse_decimal (a1 ++ sep ++ a2) = Some (m, e).
Proof.
  intros Hne H1 H2 Hsep.
  assert (forall a, Forall (fun c => is_c_digit c = true) a -> span_digits a = (a, [])) as Hall.
  { intros a Ha. pose proof (span_digits_app a [] Ha I) as H. by rewrite app_nil_r in H. }
  assert ((length (a1 ++ a2) =? 0)%nat = false) as Hlen.
  { apply Nat.eqb_neq. rewrite length_app. destruct a1; [done | simpl; lia]. }
  destruct Hsep as [-> | ->]; unfold parse_decimal.
  - cbn [app]. rewrite (Hall (a1 ++ a2)) by (by apply Forall_app).
    rewrite app_nil_r, Hlen. by eexists _, _.
  - change (u "." ++ a2) with (ch "." :: a2).
    rewrite span_digits_app by done. cbv beta iota zeta.
    rewrite N.eqb_refl, (Hall a2 H2), Hlen. by eexists _, _.
Qed.

Lemma py_float_numeral (s : str) : numeral_decimal s -> exists f, py_float s = Ok f.
Proof.
  intros (d1 & sep & d2 & -> & Hne & H1 & H2 & Hsep).
  destruct (mapM_ascii_fold_decimal d1 H1) as (a1 & E1 & L1 & D1).
  destruct (mapM_ascii_fold_decimal d2 H2) as (a2 & E2 & L2 & D2).
  assert (a1 <> []) as Hne1 by (destruct a1, d1; done).
  assert (mapM ascii_fold (d1 ++ sep ++ d2) = Some (a1 ++ sep ++ a2)) as E.
  { apply mapM_Some. apply mapM_Some in E1, E2.
    apply Forall2_app; [done|]. apply Forall2_app; [|done].
    destruct Hsep as [-> | ->]; [constructor | by repeat constructor]. }
  assert (Forall (fun c => c_plain c = true) (a1 ++ sep ++ a2)) as Hplain.
  { apply Forall_app. split; [by apply c_digit_plain|]. apply Forall_app.
    split; [|by apply c_digit_plain]. destruct Hsep as [-> | ->]; by repeat constructor. }
  unfold py_float. rewrite E, (c_strip_plain _ Hplain).
  rewrite (drop_underscores_plain _ 0 Hplain) by (by vm_compute).
  destruct a1 as [|c a1]; [done|]. apply Forall_cons_1 in D1 as [Dc D1].
  pose proof (c_digit_cases c Dc) as [Hc1 Hc2].
  assert (take_sign ((c :: a1) ++ sep ++ a2) = (false, (c :: a1) ++ sep ++ a2)) as ->.
  { cbn [app take_sign].
    assert ((c =? ch "-") = false) as -> by (apply N.eqb_neq; vm_compute (ch "-"); lia).
    by assert ((c =? ch "+") = false) as -> by (apply N.eqb_neq; vm_compute (ch "+"); lia). }
  assert (ascii_lower c = c) as Hlow.
  { unfold ascii_lower. assert ((65 <=? c) = false) as -> by (apply N.leb_gt; lia). done. }
  rewrite !decide_False;
    [|cbn [app fmap list_fmap]; rewrite Hlow; intros Heq;
      apply (f_equal (fun l => default 0 (head l))) in Heq; vm_compute in Heq; lia..].
  destruct (parse_numeral (c :: a1) sep a2) as (m & e & ->); try done.
  - by constructor.
  - by eexists.
Qed.

Lemma replace_app (old : N) (new a b : str) :
  replace old new (a ++ b) = replace old new a ++ replace old new b.
Proof. unfold replace. apply flat_map_app. Qed.

Lemma replace_digits (old : N) (new d : str) :
  py_isdecimal old = false -> Forall (fun c => py_isdecimal c = true) d ->
  replace old new d = d.
Proof.
  intros Hold Hd. unfold replace. induction Hd as [|c d Hc _ IH]; [done|]. simpl.
  rewrite IH. destruct (c =? old) eqn:E; [|done].
  apply N.eqb_eq in E as ->. congruence.
Qed.

Lemma matches_sep (w : str) :
  matches (ROpt (RSet [CsChar (ch "."); CsChar (ch ",")])) w ->
  w = [] \/ w = u "." \/ w = u ",".
Proof.
  intros [->|(c & -> & Hc)%matches_set]%matches_opt; [by left|]. right.
  simpl in Hc. rewrite orb_false_r in Hc.
  apply orb_prop in Hc as [->%N.eqb_eq | ->%N.eqb_eq]; [by left | by right].
Qed.

Lemma matches_numeral_percentual (w : str) :
  matches re_numeral_percentual w -> numeral_decimal (replace (ch ",") (u ".") w).
Proof.
  intros (d1 & w1 & -> & [Hne H1]%matches_plus_digits & H)%matches_seq.
  apply matches_seq in H as (sep & d2 & -> & Hsep%matches_sep & H2%matches_star_digits).
  rewrite !replace_app, (replace_digits _ _ d1), (replace_digits _ _ d2) by done.
  exists d1, (replace (ch ",") (u ".") sep), d2. do 4 (split; [done|]).
  destruct Hsep as [-> | [-> | ->]]; [by left | by right | by right].
Qed.

Lemma matches_cauda (w : str) :
  matches (RStar (RSeq (RSet [CsChar (ch ".")]) (RPlus (RSet [CsDigit])))) w ->
  Forall (fun c => py_isdecimal c = true) (replace (ch ".") [] w).
Proof.
  remember (RStar (RSeq (RSet [CsChar (ch ".")]) (RPlus (RSet [CsDigit])))) as r eqn:Er.
  intros H.
  induction H as [| | | | | | |a w1 w2 H1 _ H2 IH| | | |]; try discriminate; [constructor|].
  injection Er as ->. rewrite replace_app. apply Forall_app. split; [|by apply IH].
  apply matches_seq in H1 as (p & d & -> & (c & -> & Hc)%matches_set
                              & [_ Hd]%matches_plus_digits).
  simpl in Hc. rewrite orb_false_r in Hc. apply N.eqb_eq in Hc as ->.
  rewrite replace_app, (replace_digits _ _ d) by done. done.
Qed.

Lemma matches_numeral_reais (w : str) :
  matches re_numeral_reais w ->
  numeral_decimal (replace (ch ",") (u ".") (replace (ch ".") [] w)).
Proof.
  intros (d1 & w1 & -> & [Hne H1]%matches_plus_digits & H)%matches_seq.
  apply matches_seq in H as (sep & w2 & -> & Hsep%matches_sep & H).
  apply matches_seq in H as (d2 & t & -> & H2%matches_star_digits & Ht%matches_cauda).
  rewrite !replace_app, (replace_digits (ch ".") [] d1), (replace_digits (ch ".") [] d2)
    by done.
  rewrite (replace_digits (ch ",") _ d1), (replace_digits (ch ",") _ d2),
    (replace_digits (ch ",") _ (replace (ch ".") [] t)) by done.
  exists d1, (replace (ch ",") (u ".") (replace (ch ".") [] sep)),
    (d2 ++ replace (ch ".") [] t).
  do 2 (split; [done|]). split; [done|]. split; [by apply Forall_app|].
  destruct Hsep as [-> | [-> | ->]]; [by left | by left | by right].
Qed.

Lemma padroes_percentual_captura :
  Forall (fun p => groups_sat captura_percentual (re_compile p)
                   /\ sets_group 1 (re_compile p) = true) padroes_percentual.
Proof.
  unfold padroes_percentual.
  repeat apply Forall_cons_2; [..|apply Forall_nil_2];
    (split; [|by vm_compute]);
    match goal with
    | |- groups_sat _ (re_compile ?p) =>
        let r := eval vm_compute in (re_compile p) in change (re_compile p) with r;
        cbn [groups_sat]; repeat split; exact matches_numeral_percentual
    end.
Qed.

Lemma padroes_reais_captura :
  Forall (fun p => groups_sat captura_reais (re_compile p)
                   /\ sets_group 1 (re_compile p) = true) padroes_reais.
Proof.
  unfold padroes_reais.
  repeat apply Forall_cons_2; [..|apply Forall_nil_2];
    (split; [|by vm_compute]);
    match goal with
    | |- groups_sat _ (re_compile ?p) =>
        let r := eval vm_compute in (re_compile p) in change (re_compile p) with r;
        cbn [groups_sat]; repeat split; exact matches_numeral_reais
    end.
Qed.

Lemma scan_sets (i : nat) (r : re) (s : str) :
  sets_group i r = true ->
  forall skip m, m ∈ scan r s skip -> is_Some (group m i).
Proof.
  intros Hi. induction s as [|c s IH]; intros skip m Hin.
  - destruct skip; simpl in Hin; [|by apply elem_of_nil in Hin].
    destruct (head (rmatch r [] ∅)) as [[s' g]|] eqn:E; [|by apply elem_of_nil in Hin].
    apply list_elem_of_singleton in Hin as ->. unfold group. simpl.
    apply head_Some_elem_of in E. eapply rmatch_sets; [exact E | by right].
  - destruct skip; simpl in Hin; [|by eapply IH].
    destruct (head (rmatch r (c :: s) ∅)) as [[s' g]|] eqn:E; [|by eapply IH].
    apply elem_of_cons in Hin as [->|Hin]; [|by eapply IH]. unfold group. simpl.
    apply head_Some_elem_of in E. eapply rmatch_sets; [exact E | by right].
Qed.

Lemma re_findall_captura (Q : nat -> str -> Prop) (p : string) (s m : str) :
  groups_sat Q (re_compile p) -> sets_group 1 (re_compile p) = true ->
  m ∈ re_findall p s -> Q 1%nat m.
Proof.
  intros Hq Hs Hm. unfold re_findall in Hm.
  apply list_elem_of_fmap in Hm as (mo & -> & Hmo).
  destruct (scan_sets 1 _ _ Hs _ _ Hmo) as [w Hw]. rewrite Hw. simpl.
  by apply (scan_groups Q _ Hq _ _ _ Hmo).
Qed.

Lemma length_omap_total {A B : Type} (f : A -> option B) (l : list A) :
  Forall (fun x => is_Some (f x)) l -> length (omap f l) = length l.
Proof.
  induction 1 as [|x l [y Hy] _ IH]; [done|]. csimpl. rewrite Hy. simpl. by rewrite IH.
Qed.

Lemma length_candidatos (padroes : list string) (valor : str -> option float) (texto : str) :
  Forall (fun p => Forall (fun m => is_Some (valor m)) (re_findall p texto)) padroes ->
  length (candidatos padroes valor texto)
  = length (padrao ← padroes; re_findall padrao texto).
Proof.
  unfold candidatos. induction 1 as [|p ps Hp _ IH]; [done|]. csimpl.
  by rewrite !length_app, IH, length_omap_total.
Qed.

(** No numeral the patterns capture fails to convert: the [except] clause
    of the two numeric extractors is never taken.  A captured percentage is
    left out exactly when its value exceeds 100, and the list of amounts has
    one value for every match of every pattern. *)
Theorem numerais_convertem (t : str) :
  Forall (fun padrao =>
            Forall (fun m =>
                      exists v, py_float (replace (ch ",") (u ".") m) = Ok v
                        /\ valor_percentual m
                           = if float_le v (float_of_Z 100) then Some v else None)
                   (re_findall padrao (lower t)))
         padroes_percentual
  /\ Forall (fun padrao =>
               Forall (fun m =>
                         exists v,
                           py_float (replace (ch ",") (u ".") (replace (ch ".") [] m)) = Ok v
                           /\ valor_reais m = Some v)
                      (re_findall padrao (lower t)))
            padroes_reais
  /\ exists l,
       extrair_valor_multa_reais (VStr t) = Ok (nonempty l)
       /\ length l = length (padrao ← padroes_reais; re_findall padrao (lower t)).
Proof.
  assert (Forall (fun padrao =>
               Forall (fun m =>
                         exists v,
                           py_float (replace (ch ",") (u ".") (replace (ch ".") [] m)) = Ok v
                           /\ valor_reais m = Some v)
                      (re_findall padrao (lower t)))
            padroes_reais) as Hreais.
  { pose proof padroes_reais_captura as Hc. rewrite Forall_forall in Hc.
    apply Forall_forall. intros p Hp. destruct (Hc p Hp) as [Hq Hs].
    apply Forall_forall. intros m Hm.
    pose proof (re_findall_captura _ _ _ _ Hq Hs Hm) as Hn.
    destruct (py_float_numeral _ Hn) as [v Hv]. exists v. split; [done|].
    unfold valor_reais. by rewrite Hv. }
  split; [|split; [done|]].
  - pose proof padroes_percentual_captura as Hc. rewrite Forall_forall in Hc.
    apply Forall_forall. intros p Hp. destruct (Hc p Hp) as [Hq Hs].
    apply Forall_forall. intros m Hm.
    pose proof (re_findall_captura _ _ _ _ Hq Hs Hm) as Hn.
    destruct (py_float_numeral _ Hn) as [v Hv]. exists v. split; [done|].
    unfold valor_percentual. by rewrite Hv.
  - eexists. split; [apply extrair_valor_multa_reais_spec|].
    apply length_candidatos. eapply Forall_impl; [exact Hreais|]. intros p Hp.
    eapply Forall_impl; [exact Hp|]. intros m (v & _ & ->). by eexists.
Qed.

(** ** The matcher finds every match *)

Lemma star_loop_self (step : str -> groups -> list (str * groups)) (n : nat)
    (s : str) (g : groups) :
  (s, g) ∈ star_loop step n s g.
Proof.
  destruct n; simpl; [by left|]. apply elem_of_app. right. by left.
Qed.

Lemma star_loop_mono (step : str -> groups -> list (str * groups)) (x : str * groups) :
  forall m n s g,
    (length s <= m)%nat -> (m <= n)%nat ->
    x ∈ star_loop step m s g -> x ∈ star_loop step n s g.
Proof.
  induction m as [|m IH]; intros n s g Hs Hn Hx.
  - simpl in Hx. apply list_elem_of_singleton in Hx as ->. apply star_loop_self.
  - destruct n as [|n]; [lia|]. simpl in Hx |- *.
    apply elem_of_app in Hx as [Hx|Hx]; apply elem_of_app; [left | by right].
    apply list_elem_of_bind in Hx as ([s1 g1] & Hx & H1).
    apply list_elem_of_bind. exists (s1, g1). split; [|done].
    destruct (length s1 <? length s)%nat eqn:E; [|by apply elem_of_nil in Hx].
    apply Nat.ltb_lt in E. apply (IH n); [lia | lia | done].
Qed.

Lemma rmatch_complete (r : re) (w : str) :
  matches r w -> forall s' g, exists g', (s', g') ∈ rmatch r (w ++ s') g.
Proof.
  induction 1 as [|c|cs c Hc|a b w1 w2 _ IH1 _ IH2|a b w _ IH|a b w _ IH| a
                  |a w1 w2 _ IH1 _ IH2|a w1 w2 _ IH1 _ IH2|a|a w _ IH|i a w _ IH];
    intros s' g.
  - exists g. simpl. by left.
  - exists g. simpl. rewrite N.eqb_refl. by left.
  - exists g. simpl. rewrite Hc. by left.
  - destruct (IH1 (w2 ++ s') g) as [g1 H1]. destruct (IH2 s' g1) as [g2 H2].
    exists g2. rewrite <- app_assoc. simpl. apply list_elem_of_bind.
    by exists (w2 ++ s', g1).
  - destruct (IH s' g) as [g' H']. exists g'. simpl. apply elem_of_app. by left.
  - destruct (IH s' g) as [g' H']. exists g'. simpl. apply elem_of_app. by right.
  - exists g. simpl. apply star_loop_self.
  - destruct w1 as [|c w1]; [apply IH2|].
    destruct (IH1 (w2 ++ s') g) as [g1 H1]. destruct (IH2 s' g1) as [g2 H2].
    exists g2. rewrite <- app_assoc. cbn [rmatch] in H2 |- *.
    cbn [app length star_loop] in *. apply elem_of_app. left.
    apply list_elem_of_bind. exists (w2 ++ s', g1). split; [|done].
    assert ((length (w2 ++ s') <? S (length (w1 ++ w2 ++ s')))%nat = true) as ->.
    { apply Nat.ltb_lt. rewrite !length_app. lia. }
    eapply star_loop_mono; [| |exact H2]; [done|]. rewrite !length_app. lia.
  - destruct (IH1 (w2 ++ s') g) as [g1 H1]. destruct (IH2 s' g1) as [g2 H2].
    exists g2. rewrite <- app_assoc. cbn [rmatch] in H2 |- *.
    apply list_elem_of_bind. by exists (w2 ++ s', g1).
  - exists g. simpl. apply elem_of_app. right. by left.
  - destruct (IH s' g) as [g' H']. exists g'. simpl. apply elem_of_app. by left.
  - destruct (IH s' g) as [g' H']. eexists. simpl. apply list_elem_of_bind.
    exists (s', g'). split; [by left | done].
Qed.

Lemma scan_complete (r : re) (w post : str) :
  matches r w -> forall pre, scan r (pre ++ w ++ post) 0 <> [].
Proof.
  intros Hw pre. induction pre as [|c pre IH].
  - destruct (rmatch_complete r w Hw post ∅) as [g' Hg]. cbn [app].
    destruct (rmatch r (w ++ post) ∅) as [|[s1 g1] l] eqn:E; [by apply elem_of_nil in Hg|].
    destruct (w ++ post); simpl; by rewrite E.
  - cbn [app scan]. by destruct (head _) as [[s1 g1]|].
Qed.

Lemma found_spec (p : string) (s : str) :
  found p s = true <-> exists w, matches (re_compile p) w /\ ocorre w s.
Proof.
  unfold found, re_search. split.
  - destruct (scan (re_compile p) s 0) as [|m l] eqn:E; [done|]. intros _.
    exists (m_text m). apply and_comm. apply (scan_sound _ s 0%nat). rewrite E. by left.
  - intros (w & Hw & pre & post & ->).
    pose proof (scan_complete _ w post Hw pre) as H.
    by destruct (scan _ _ _).
Qed.

(** ** The dosimetry flags as tests of occurrence *)

Lemma lang_set (cs : list cset) (L : list str) (w : str) :
  mapM (fun x => match x with CsChar c => Some [c] | _ => None end) cs = Some L ->
  (exists c, w = [c] /\ existsb (cset_mem c) cs = true) <-> w ∈ L.
Proof.
  intros H. apply mapM_Some in H.
  induction H as [|x l cs L Hx _ IH].
  - split; [by intros (c & _ & ?) | by intros ?%elem_of_nil].
  - destruct x as [d| |]; try done. injection Hx as <-. rewrite elem_of_cons, <- IH.
    simpl. split.
    + intros (c & -> & [->%N.eqb_eq|Hc]%orb_prop); [by left|]. right. by exists c.
    + intros [->|(c & -> & Hc)].
      * exists d. by rewrite N.eqb_refl.
      * exists c. by rewrite Hc, orb_true_r.
Qed.

Lemma lang_spec (r : re) :
  forall L, lang r = Some L -> forall w, matches r w <-> w ∈ L.
Proof.
  induction r as [| |c|cs|a IHa b IHb|a IHa b IHb|a IHa|a IHa|a IHa|i a IHa];
    intros L HL w; simpl in HL; try done.
  - injection HL as <-. rewrite list_elem_of_singleton.
    split; [by inversion 1 | intros ->; constructor].
  - injection HL as <-. split; [by inversion 1 | by intros ?%elem_of_nil].
  - injection HL as <-. rewrite list_elem_of_singleton.
    split; [by intros ->%matches_char | intros ->; constructor].
  - rewrite <- (lang_set cs L w HL).
    split; [apply matches_set | intros (c & -> & Hc); by constructor].
  - destruct (lang a) as [la|]; [|done]. destruct (lang b) as [lb|]; [|done].
    injection HL as <-. rewrite list_elem_of_In, in_flat_map. split.
    + intros (w1 & w2 & -> & H1 & H2)%matches_seq. exists w1.
      split; [by apply list_elem_of_In, (IHa la)|]. apply in_map_iff. exists w2.
      split; [done | by apply list_elem_of_In, (IHb lb)].
    + intros (w1 & H1 & (w2 & <- & H2)%in_map_iff).
      constructor; [by apply (IHa la), list_elem_of_In | by apply (IHb lb), list_elem_of_In].
  - destruct (lang a) as [la|]; [|done]. destruct (lang b) as [lb|]; [|done].
    injection HL as <-. rewrite elem_of_app. split.
    + intros [H|H]%matches_alt; [left; by apply (IHa la) | right; by apply (IHb lb)].
    + intros [H|H]; [apply M_alt_l; by apply (IHa la) | apply M_alt_r; by apply (IHb lb)].
  - destruct (lang a) as [la|]; [|done]. injection HL as <-.
    rewrite elem_of_app, list_elem_of_singleton. split.
    + intros [->|H]%matches_opt; [by right | left; by apply (IHa la)].
    + intros [H| ->]; [apply M_opt; by apply (IHa la) | constructor].
  - rewrite <- (IHa L HL w). split; [by inversion 1 | by constructor].
Qed.

Lemma contains_ocorre (x s : str) : contains x s = true -> ocorre x s.
Proof.
  assert (forall s', take (length x) s' = x -> ocorre x s') as Htake.
  { intros s' H. exists [], (drop (length x) s'). cbn [app].
    pose proof (take_drop (length x) s') as Htd. by rewrite H in Htd. }
  induction s as [|c s IH]; rewrite contains_unfold; case_decide as H; try done.
  - intros _. by apply Htake.
  - intros _. by apply Htake.
  - intros (pre & post & ->)%IH. by exists (c :: pre), post.
Qed.

Lemma found_variantes (p : string) (L : list str) (s : str) :
  lang (re_compile p) = Some L -> found p s = ocorre_alguma L s.
Proof.
  intros HL. apply eq_true_iff_eq. rewrite found_spec. unfold ocorre_alguma.
  rewrite existsb_exists. split.
  - intros (w & Hw & Ho). exists w. split; [|by apply ocorre_contains].
    apply list_elem_of_In. by apply (lang_spec _ L HL).
  - intros (w & Hw & Hc). exists w. split; [|by apply contains_ocorre].
    apply (lang_spec _ L HL). by apply list_elem_of_In.
Qed.

(** The four flags of the dosimetry record say whether one of the spellings
    of the concept occurs in the lower-cased text, anywhere and whatever
    surrounds it: the patterns of the flags have no repetition, and the
    spellings listed are all the texts they match. *)
Theorem fatores_por_ocorrencia (t : str) :
  match extrair_elementos_dosimetria (VStr t) with
  | Ok dd =>
      dd !! "reincidencia" = Some (VBool (ocorre_alguma grafias_reincidencia (lower t)))
      /\ dd !! "boa_fe" = Some (VBool (ocorre_alguma grafias_boa_fe (lower t)))
      /\ dd !! "ma_fe" = Some (VBool (ocorre_alguma grafias_ma_fe (lower t)))
      /\ dd !! "cooperacao" = Some (VBool (ocorre_alguma grafias_cooperacao (lower t)))
  | Raise _ => True
  end
  /\ variantes "reincid[êe]ncia" ++ variantes "reincidente" = grafias_reincidencia
  /\ variantes "boa[- ]f[ée]" = grafias_boa_fe
  /\ variantes "m[áa][- ]f[ée]" = grafias_ma_fe
  /\ variantes "cooper[ao][çc][ãa]o" ++ variantes "colabor[ao][çc][ãa]o"
     = grafias_cooperacao.
Proof.
  split; [|repeat split; vm_compute; reflexivity].
  pose proof (dosimetria_forma t) as H.
  destruct (extrair_elementos_dosimetria (VStr t)) as [dd|e]; [|done].
  destruct H as (_ & H1 & H2 & H3 & H4 & _).
  assert (forall p L, lang (re_compile p) = Some L ->
            found p (lower t) = ocorre_alguma L (lower t)) as Hf
    by (intros p L HL; by apply found_variantes).
  rewrite H1, H2, H3, H4.
  rewrite (Hf "reincid[êe]ncia" _ ltac:(vm_compute; reflexivity)).
  rewrite (Hf "reincidente" _ ltac:(vm_compute; reflexivity)).
  rewrite (Hf "boa[- ]f[ée]" _ ltac:(vm_compute; reflexivity)).
  rewrite (Hf "m[áa][- ]f[ée]" _ ltac:(vm_compute; reflexivity)).
  rewrite (Hf "cooper[ao][çc][ãa]o" _ ltac:(vm_compute; reflexivity)).
  rewrite (Hf "colabor[ao][çc][ãa]o" _ ltac:(vm_compute; reflexivity)).
  unfold ocorre_alguma. rewrite <- !existsb_app.
  repeat split; do 2 f_equal.
Qed.
